(** * BPSW worker: a shallow embedding of [scripts/bpsw/bpsw_worker.py]

    The Python module is translated function by function.  Python integers
    are unbounded, so they are [Z]; [%] and [//] are floor operations and
    coincide with [Z.modulo] and [Z.div] whenever the divisor is not zero
    (a zero divisor raises [ZeroDivisionError], see [py_mod]).  Exceptions
    and the one loop of the module that has no bound of its own (the
    D-selection of [lucas_selfridge]) are carried by the [outcome] type. *)

From Stdlib Require Import ZArith List Lia Bool String Znumtheory.
From Stdlib Require Import DecimalString Zmod.
From Stdlib Require Decimal DecimalFacts DecimalPos.
Import ListNotations.
Local Open Scope Z_scope.

(** ** Outcomes of a call: a value, a Python exception, or no answer within
    the given number of loop iterations *)

Inductive exn : Type :=
| ValueError (msg : string)
| ZeroDivisionError
| SystemExit (msg : string).

Inductive outcome (A : Type) : Type :=
| Done (a : A)
| Raised (e : exn)
| OutOfFuel.

Arguments Done {A} a.
Arguments Raised {A} e.
Arguments OutOfFuel {A}.

Definition bind {A B : Type} (m : outcome A) (k : A -> outcome B) : outcome B :=
  match m with
  | Done a => k a
  | Raised e => Raised e
  | OutOfFuel => OutOfFuel
  end.

Notation "x <- m ;; k" := (bind m (fun x => k))
  (at level 61, m at next level, right associativity).
Notation "' p <- m ;; k" := (bind m (fun p => k))
  (at level 61, p pattern, m at next level, right associativity).

(** ** Python built-ins used by the module *)

Definition py_mod (a b : Z) : outcome Z :=
  if b =? 0 then Raised ZeroDivisionError else Done (a mod b).

Definition py_floordiv (a b : Z) : outcome Z :=
  if b =? 0 then Raised ZeroDivisionError else Done (a / b).

(** [len] of a list, as a Python integer. *)
Definition len {A : Type} (l : list A) : Z := Z.of_nat (List.length l).

(** [math.prod]. *)
Definition prod (l : list Z) : Z := fold_right Z.mul 1 l.

(** [str] on integers: the decimal rendering. *)
Definition str (n : Z) : string := NilZero.string_of_int (Z.to_int n).

(** [range(start, stop, step)] for a positive step. *)
Definition py_range (start stop step : Z) : list Z :=
  map (fun i => start + step * Z.of_nat i)
      (seq 0 (Z.to_nat ((stop - start + step - 1) / step))).

(** Three-argument [pow(a, e, m)] for [e >= 0]: square and multiply on the
    binary digits of the exponent. *)
Fixpoint pow_pos_mod (a : Z) (e : positive) (m : Z) : Z :=
  match e with
  | xH => a mod m
  | xO e' => let r := pow_pos_mod a e' m in (r * r) mod m
  | xI e' => let r := pow_pos_mod a e' m in (r * r * a) mod m
  end.

Definition pow_mod (a e m : Z) : Z :=
  match e with
  | Z0 => 1 mod m
  | Zpos p => pow_pos_mod a p m
  | Zneg _ => 0
  end.

(** ** Constants *)

Definition SMALL_PRIMES : list Z := [2; 3; 5; 7; 11; 13; 17; 19; 23; 29; 31; 37].
Definition DEFAULT_M_PRIMES : list Z := [13; 17; 29; 37; 41].
Definition DEFAULT_N_PRIMES : list Z := [3; 7; 11; 19; 23].
Definition DEFAULT_LAMBDA_FACTORS : list (Z * Z) :=
  [(2, 10); (3, 6); (5, 4); (7, 3); (11, 2); (13, 2); (17, 1)].

(** ** Arithmetic primitives *)

Definition is_square (n : Z) : bool :=
  if n <? 0 then false
  else let root := Z.sqrt n in root * root =? n.

(** Inner loop of [jacobi]: [while a % 2 == 0: a //= 2; flip when n % 8 in (3, 5)].
    It runs on a positive [a], one iteration per trailing zero bit. *)
Fixpoint jacobi_twos (a : positive) (n result : Z) : Z * Z :=
  match a with
  | xO a' =>
      jacobi_twos a' n
        (if (n mod 8 =? 3) || (n mod 8 =? 5) then - result else result)
  | _ => (Zpos a, result)
  end.

(** Outer loop of [jacobi]: [while a != 0]. *)
Fixpoint jacobi_loop (fuel : nat) (a n result : Z) : option Z :=
  if a =? 0 then Some (if n =? 1 then result else 0)
  else
    match fuel with
    | O => None
    | S fuel' =>
        let '(a1, result1) := jacobi_twos (Z.to_pos a) n result in
        let '(a2, n2) := (n, a1) in
        let result2 :=
          if (a2 mod 4 =? 3) && (n2 mod 4 =? 3) then - result1 else result1 in
        jacobi_loop fuel' (a2 mod n2) n2 result2
    end.

(** The modulus at least halves every two iterations, so this many
    iterations always suffice ([jacobi_fuel_enough]). *)
Definition jacobi_fuel (n : Z) : nat := Z.to_nat (2 * Z.log2 n + 2).

(** The [None] branch is never taken: the loop ends within [jacobi_fuel n]
    iterations. *)
Definition jacobi (a n : Z) : Z :=
  if (n <=? 0) || (n mod 2 =? 0) then 0
  else
    match jacobi_loop (jacobi_fuel n) (a mod n) n 1 with
    | Some result => result
    | None => 0
    end.

(** The recursion of [egcd], with a bound on its depth. *)
Fixpoint egcd_rec (fuel : nat) (a b : Z) : option (Z * Z * Z) :=
  if b =? 0 then Some (a, 1, 0)
  else
    match fuel with
    | O => None
    | S fuel' =>
        match egcd_rec fuel' b (a mod b) with
        | Some (g, x1, y1) => Some (g, y1, x1 - (a / b) * y1)
        | None => None
        end
    end.

(** Recursion depth of [egcd]: the second argument at least halves every
    two calls, so this depth is never exceeded ([egcd_fuel_enough]) and
    [egcd] satisfies the recursion equation of the source ([egcd_eq]). *)
Definition egcd_fuel (b : Z) : nat := Z.to_nat (2 * Z.log2 (Z.abs b) + 3).

(** The [None] branch is never taken. *)
Definition egcd (a b : Z) : Z * Z * Z :=
  match egcd_rec (egcd_fuel b) a b with
  | Some r => r
  | None => (a, 1, 0)
  end.

Definition crt_pair (a1 m1 a2 m2 : Z) : outcome (Z * Z) :=
  let '(g, x, _) := egcd m1 m2 in
  r <- py_mod (a2 - a1) g ;;
  if negb (r =? 0) then Raised (ValueError "incompatible congruences")
  else
    q1 <- py_floordiv m1 g ;;
    let lcm := q1 * m2 in
    q2 <- py_floordiv (a2 - a1) g ;;
    q3 <- py_floordiv m2 g ;;
    t <- py_mod (q2 * x) q3 ;;
    result <- py_mod (a1 + m1 * t) lcm ;;
    Done (result, lcm).

(** The two properties of [egcd] and the contract of [crt_pair], as the
    specification words them. *)
Definition egcd_claim (a b : Z) : Prop :=
  let '(g, x, y) := egcd a b in g = a * x + b * y /\ 0 <= g.

Definition crt_pair_claim (a1 m1 a2 m2 : Z) : Prop :=
  (crt_pair a1 m1 a2 m2 = Raised (ValueError "incompatible congruences")
   <-> ~ (Z.gcd m1 m2 | a2 - a1))
  /\ ((Z.gcd m1 m2 | a2 - a1) ->
      exists r, crt_pair a1 m1 a2 m2 = Done (r, Z.lcm m1 m2)
                /\ (m1 | r - a1) /\ (m2 | r - a2) /\ 0 <= r < Z.lcm m1 m2).

(** ** Miller-Rabin *)

(** [while d % 2 == 0: d //= 2; s += 1] on a positive [d]. *)
Fixpoint strip_twos (d : positive) (s : Z) : Z * Z :=
  match d with
  | xO d' => strip_twos d' (s + 1)
  | _ => (Zpos d, s)
  end.

(** The [for _ in range(s - 1)] loop; the value is the [composite] flag. *)
Fixpoint mr_squarings (k : nat) (x n : Z) : bool :=
  match k with
  | O => true
  | S k' =>
      let x' := pow_mod x 2 n in
      if x' =? n - 1 then false else mr_squarings k' x' n
  end.

(** The [for a in bases] loop. *)
Fixpoint mr_bases (n d s : Z) (bases : list Z) : bool :=
  match bases with
  | [] => true
  | a :: rest =>
      if a mod n =? 0 then mr_bases n d s rest
      else
        let x := pow_mod a d n in
        if (x =? 1) || (x =? n - 1) then mr_bases n d s rest
        else if mr_squarings (Z.to_nat (s - 1)) x n then false
        else mr_bases n d s rest
  end.

Definition miller_rabin (n : Z) (bases : list Z) : bool :=
  if n <? 2 then false
  else if n mod 2 =? 0 then n =? 2
  else
    let '(d, s) := strip_twos (Z.to_pos (n - 1)) 0 in
    mr_bases n d s bases.

(** ** Lucas test with the module's D-selection *)

(** One turn of the selection loop after a failed test:
    [d += 2; sign = -sign; d = sign * d]. *)
Definition next_d (st : Z * Z) : Z * Z :=
  let '(d, sign) := st in
  let d := d + 2 in
  let sign := - sign in
  (sign * d, sign).

(** The pairs [(d, sign)] that [next_d] runs through from [(5, 1)]. *)
Definition d_cycle : list (Z * Z) := [(5, 1); (-7, -1); (-5, 1); (3, -1)].

(** [while True: j = jacobi(d, n); if j == -1: break; ...]. *)
Fixpoint select_d (fuel : nat) (n d sign : Z) : option Z :=
  match fuel with
  | O => None
  | S fuel' =>
      if jacobi d n =? -1 then Some d
      else let '(d', sign') := next_d (d, sign) in select_d fuel' n d' sign'
  end.

(** The values of [d] handed to [jacobi] by the same loop, in order. *)
Fixpoint examined (fuel : nat) (n d sign : Z) : list Z :=
  match fuel with
  | O => []
  | S fuel' =>
      d :: (if jacobi d n =? -1 then []
            else let '(d', sign') := next_d (d, sign) in examined fuel' n d' sign')
  end.

(** [while d_bit > 1], one iteration per binary digit below the leading one. *)
Fixpoint lucas_ladder (d_bit : positive) (n u v q_k : Z) : Z * Z * Z :=
  match d_bit with
  | xH => (u, v, q_k)
  | xI d' =>
      lucas_ladder d' n ((u * v) mod n) ((v * v - 2 * q_k) mod n) ((q_k * q_k) mod n)
  | xO d' =>
      lucas_ladder d' n u ((v * v - 2 * q_k) mod n) ((q_k * q_k) mod n)
  end.

(** The closing [for _ in range(s - 1)] loop. *)
Fixpoint lucas_doublings (k : nat) (n v q_k : Z) : bool :=
  match k with
  | O => false
  | S k' =>
      let v' := (v * v - 2 * q_k) mod n in
      let q_k' := (q_k * q_k) mod n in
      if v' =? 0 then true else lucas_doublings k' n v' q_k'
  end.

(** [fuel] bounds the number of turns of the D-selection loop, the only
    loop of the function without a bound of its own; a result [OutOfFuel]
    for every [fuel] means that the loop does not end. *)
Definition lucas_selfridge (fuel : nat) (n : Z) : outcome bool :=
  if (n <? 2) || (n mod 2 =? 0) then Done (n =? 2)
  else if is_square n then Done false
  else
    match select_d fuel n 5 1 with
    | None => OutOfFuel
    | Some d =>
        let p := 1 in
        let q := (1 - d) / 4 in
        let '(n_plus_one, s) := strip_twos (Z.to_pos (n + 1)) 0 in
        let '(u, v, q_k) := lucas_ladder (Z.to_pos n_plus_one) n 1 p q in
        if (u =? 0) || (v =? 0) then Done true
        else Done (lucas_doublings (Z.to_nat (s - 1)) n v q_k)
    end.

(** The sequence the specification names for the same selection:
    5, -7, 9, -11, 13, ... *)
Definition selfridge_sequence (k : nat) : Z :=
  (if Nat.even k then 1 else -1) * (5 + 2 * Z.of_nat k).

(** ** The BPSW composite and the multi-base filter *)

(** [for p in SMALL_PRIMES: if n == p: return True; if n % p == 0: return False]. *)
Fixpoint trial_division (n : Z) (primes : list Z) : option bool :=
  match primes with
  | [] => None
  | p :: rest =>
      if n =? p then Some true
      else if n mod p =? 0 then Some false
      else trial_division n rest
  end.

Section Backend.

(** [gmpy2] is [None] when the import failed.  Otherwise it is the
    library's [is_bpsw_prp], whose own result is [None] when the call
    raises. *)
Variable gmpy2 : option (Z -> option bool).

Definition is_bpsw_probable_prime (fuel : nat) (n : Z) : outcome bool :=
  if n <? 2 then Done false
  else
    match trial_division n SMALL_PRIMES with
    | Some verdict => Done verdict
    | None =>
        match gmpy2 with
        | Some is_bpsw_prp =>
            Done (match is_bpsw_prp n with Some b => b | None => false end)
        | None =>
            if miller_rabin n [2] then lucas_selfridge fuel n else Done false
        end
    end.

End Backend.

Definition is_probable_prime (n : Z) : bool :=
  if n <? 2 then false
  else
    match trial_division n SMALL_PRIMES with
    | Some verdict => verdict
    | None => miller_rabin n [2; 3; 5; 7; 11; 13; 17]
    end.

Definition digits (n : Z) : Z := Z.of_nat (String.length (str (Z.abs n))).

(** ** Report values *)

(** The [meta] dictionaries and the report are JSON data. *)
#[local] Set Warnings "-register-all".
Inductive json : Type :=
| JStr (s : string)
| JInt (n : Z)
| JList (l : list json).

Definition meta : Type := list (string * json).

Definition factor_strings (factors : list Z) : json :=
  JList (map (fun p => JStr (str p)) factors).

(** ** Candidate generators *)

Definition generate_chernick (k : Z) (require_prime_factors : bool)
  : option (Z * meta) :=
  let f1 := 6 * k + 1 in
  let f2 := 12 * k + 1 in
  let f3 := 18 * k + 1 in
  if require_prime_factors
     && negb (is_probable_prime f1 && is_probable_prime f2 && is_probable_prime f3)
  then None
  else
    let n := f1 * f2 * f3 in
    Some (n, [("family", JStr "chernick");
              ("formula", JStr "(6k+1)(12k+1)(18k+1)");
              ("k", JInt k);
              ("factors", factor_strings [f1; f2; f3])])%string.

(** [math.prod(factors) if factors else 1]. *)
Definition prod_or_one (factors : list Z) : Z :=
  match factors with
  | [] => 1
  | _ => prod factors
  end.

Definition pomerance_lite_meta (prime_digits target_digits : Z) (factors : list Z)
  : meta :=
  [("family", JStr "pomerance_lite");
   ("prime_digits", JInt prime_digits);
   ("target_digits", JInt target_digits);
   ("factors", factor_strings factors)]%string.

(** The filter closed over by [generate_pomerance_lite]. *)
Definition predicate (p : Z) : bool := (p mod 8 =? 3) && (jacobi 5 p =? -1).

Definition build_constraints (m_primes n_primes : list Z) (mod5_residue : Z)
  : outcome (list (Z * Z)) :=
  let prod_m := prod_or_one m_primes in
  let prod_n := prod_or_one n_primes in
  minus_one <- py_mod (-1) prod_n ;;
  Done [(3, 8); (mod5_residue mod 5, 5); (1, prod_m); (minus_one, prod_n)].

(** [for a, m in constraints] of [build_mod_constraint]. *)
Fixpoint combine_constraints (constraints : list (Z * Z)) (residue modulus : Z)
  : outcome (Z * Z) :=
  match constraints with
  | [] => Done (residue, modulus)
  | (a, m) :: rest =>
      if m =? 1 then combine_constraints rest residue modulus
      else
        a_mod_m <- py_mod a m ;;
        '(residue', modulus') <- crt_pair residue modulus a_mod_m m ;;
        combine_constraints rest residue' modulus'
  end.

Definition build_mod_constraint (m_primes n_primes : list Z) (mod5_residue : Z)
  : outcome (Z * Z) :=
  constraints <- build_constraints m_primes n_primes mod5_residue ;;
  combine_constraints constraints 0 1.

(** [random.Random]: the generator object is a state that every draw
    advances.  Its algorithm belongs to the Python library, so the
    generators are written over any implementation of the two draws they
    use. *)
Class Rng (G : Type) : Type := {
  Random : Z -> G;
  (** [rng.randrange(start, stop, step)] on a non-empty range *)
  randrange : G -> Z -> Z -> Z -> Z * G;
  (** [rng.randint(a, b)] with [a <= b] *)
  randint : G -> Z -> Z -> Z * G
}.

(** A concrete generator for running the model: the draws walk through
    the requested range in order. *)
Definition counter_randrange (g start stop step : Z) : Z * Z :=
  (start + step * (g mod ((stop - start + step - 1) / step)), g + 1).

#[export] Instance counter_rng : Rng Z := {
  Random := fun seed => seed;
  randrange := counter_randrange;
  randint := fun g a b => counter_randrange g a (b + 1) 1
}.

Section Generators.

Context {G : Type} `{Rng G}.

Definition random_odd_in_range (rng : G) (low high : Z) : outcome (Z * G) :=
  let low := if low mod 2 =? 0 then low + 1 else low in
  let high := if high mod 2 =? 0 then high - 1 else high in
  if low >? high then Raised (ValueError "invalid range")
  else Done (randrange rng low (high + 1) 2).

(** [rng.randint(a, b)] raises on an empty range. *)
Definition py_randint (rng : G) (a b : Z) : outcome (Z * G) :=
  if b <? a then Raised (ValueError "empty range for randrange()")
  else Done (randint rng a b).

(** [while candidate <= high and steps < max_steps] of
    [find_prime_in_progression]; [k] is [max_steps - steps]. *)
Fixpoint progression_loop (k : nat) (candidate high modulus : Z)
  (filter : option (Z -> bool)) : option Z :=
  match k with
  | O => None
  | S k' =>
      if candidate <=? high then
        if (candidate mod 2 =? 1)
           && is_probable_prime candidate
           && match filter with None => true | Some f => f candidate end
        then Some candidate
        else progression_loop k' (candidate + modulus) high modulus filter
      else None
  end.

(** For [digits_count <= 0] Python computes the bounds in floating point
    ([10 ** -1 = 0.1]); they are then below 1 and the draw is refused with
    the same [ValueError] as for the integer bounds used here. *)
Definition find_prime_in_progression (rng : G)
  (digits_count residue modulus max_steps : Z) (filter : option (Z -> bool))
  : outcome (option Z * G) :=
  let low := 10 ^ (digits_count - 1) in
  let high := 10 ^ digits_count - 1 in
  if modulus <=? 0 then Done (None, rng)
  else
    '(start, rng') <- random_odd_in_range rng low high ;;
    let delta := (residue - start) mod modulus in
    let candidate := start + delta in
    let candidate := if candidate <? low then candidate + modulus else candidate in
    Done (progression_loop (Z.to_nat max_steps) candidate high modulus filter, rng').

(** [while steps < max_steps] of [find_prime_with_filters];
    [k] is [max_steps - steps]. *)
Fixpoint filters_loop (k : nat) (rng : G) (low high : Z) (filter : Z -> bool)
  : outcome (option Z * G) :=
  match k with
  | O => Done (None, rng)
  | S k' =>
      '(candidate, rng') <- random_odd_in_range rng low high ;;
      if filter candidate && is_probable_prime candidate
      then Done (Some candidate, rng')
      else filters_loop k' rng' low high filter
  end.

Definition find_prime_with_filters (rng : G) (digits_count max_steps : Z)
  (filter : Z -> bool) : outcome (option Z * G) :=
  let low := 10 ^ (digits_count - 1) in
  let high := 10 ^ digits_count - 1 in
  filters_loop (Z.to_nat max_steps) rng low high filter.

(** The accumulation loop of [generate_pomerance_lite]:
    [while digits(prod) < target_digits or len(factors) % 2 == 0].
    The result is [None] when a search for a factor gave up. *)
Fixpoint pomerance_lite_loop (fuel : nat) (rng : G)
  (target_digits prime_digits max_steps : Z) (factors : list Z)
  : outcome (option (list Z)) :=
  if (digits (prod_or_one factors) <? target_digits) || (len factors mod 2 =? 0)
  then
    match fuel with
    | O => OutOfFuel
    | S fuel' =>
        '(prime, rng') <- find_prime_with_filters rng prime_digits max_steps predicate ;;
        match prime with
        | None => Done None
        | Some prime =>
            let factors := factors ++ [prime] in
            if len factors >? 9 then Done (Some factors)
            else pomerance_lite_loop fuel' rng' target_digits prime_digits
                   max_steps factors
        end
    end
  else Done (Some factors).

(** The loop leaves through its [break] once ten factors are collected,
    so ten turns are all it can take. *)
Definition generate_pomerance_lite (seed target_digits prime_digits max_steps : Z)
  : outcome (option (Z * meta)) :=
  let rng := Random seed in
  r <- pomerance_lite_loop 10 rng target_digits prime_digits max_steps [] ;;
  match r with
  | None => Done None
  | Some factors =>
      Done (Some (prod factors,
                  pomerance_lite_meta prime_digits target_digits factors))
  end.

Fixpoint pomerance_modular_loop (fuel : nat) (rng : G)
  (target_digits prime_digits max_steps residue modulus : Z) (factors : list Z)
  : outcome (option (list Z)) :=
  if (digits (prod_or_one factors) <? target_digits) || (len factors mod 2 =? 0)
  then
    match fuel with
    | O => OutOfFuel
    | S fuel' =>
        '(prime, rng') <-
          find_prime_in_progression rng prime_digits residue modulus max_steps None ;;
        match prime with
        | None => Done None
        | Some prime =>
            let factors := factors ++ [prime] in
            if len factors >? 9 then Done (Some factors)
            else pomerance_modular_loop fuel' rng' target_digits prime_digits
                   max_steps residue modulus factors
        end
    end
  else Done (Some factors).

Definition generate_pomerance_modular
  (seed target_digits prime_digits max_steps : Z)
  (m_primes n_primes : list Z) (mod5_residue : Z)
  : outcome (option (Z * meta)) :=
  let rng := Random seed in
  '(residue, modulus) <- build_mod_constraint m_primes n_primes mod5_residue ;;
  r <- pomerance_modular_loop 10 rng target_digits prime_digits max_steps
         residue modulus [] ;;
  match r with
  | None => Done None
  | Some factors =>
      Done (Some (prod factors,
                  [("family", JStr "pomerance_modular");
                   ("prime_digits", JInt prime_digits);
                   ("target_digits", JInt target_digits);
                   ("modulus", JInt modulus);
                   ("residue", JInt residue);
                   ("mod5_residue", JInt mod5_residue);
                   ("m_primes", JList (map JInt m_primes));
                   ("n_primes", JList (map JInt n_primes));
                   ("factors", factor_strings factors)]%string))
  end.

(** [for base, max_exp in lambda_factors] inside one attempt. *)
Fixpoint lambda_draw (rng : G) (lambda_factors : list (Z * Z)) (d : Z)
  : outcome (Z * G) :=
  match lambda_factors with
  | [] => Done (d, rng)
  | (base, max_exp) :: rest =>
      '(exp, rng') <- py_randint rng 0 max_exp ;;
      lambda_draw rng' rest (if exp =? 0 then d else d * base ^ exp)
  end.

(** [while attempts < max_steps]; [k] is [max_steps - attempts], and the
    result is [None] when the loop ends with [attempts >= max_steps]. *)
Fixpoint lambda_attempts (k : nat) (rng : G) (lambda_factors : list (Z * Z))
  (require_prime : bool) : outcome (option Z * G) :=
  match k with
  | O => Done (None, rng)
  | S k' =>
      '(d, rng') <- lambda_draw rng lambda_factors 1 ;;
      let p := d + 1 in
      if (p >? 2) && (negb require_prime || is_probable_prime p)
      then Done (Some p, rng')
      else lambda_attempts k' rng' lambda_factors require_prime
  end.

Fixpoint lambda_loop (fuel : nat) (rng : G) (target_digits : Z)
  (lambda_factors : list (Z * Z)) (require_prime : bool) (max_steps : Z)
  (factors : list Z) : outcome (option (list Z)) :=
  if (digits (prod_or_one factors) <? target_digits) || (len factors mod 2 =? 0)
  then
    match fuel with
    | O => OutOfFuel
    | S fuel' =>
        '(p, rng') <-
          lambda_attempts (Z.to_nat max_steps) rng lambda_factors require_prime ;;
        match p with
        | None => Done None
        | Some p =>
            let factors := factors ++ [p] in
            if len factors >? 9 then Done (Some factors)
            else lambda_loop fuel' rng' target_digits lambda_factors
                   require_prime max_steps factors
        end
    end
  else Done (Some factors).

Definition generate_lambda_plus_one (seed target_digits : Z)
  (lambda_factors : list (Z * Z)) (require_prime : bool) (max_steps : Z)
  : outcome (option (Z * meta)) :=
  let rng := Random seed in
  r <- lambda_loop 10 rng target_digits lambda_factors require_prime max_steps [] ;;
  match r with
  | None => Done None
  | Some factors =>
      Done (Some (prod factors,
                  [("family", JStr "lambda_plus_one");
                   ("lambda_factors",
                    JList (map (fun '(base, exp) =>
                                  JStr (str base ++ "^" ++ str exp))
                               lambda_factors));
                   ("target_digits", JInt target_digits);
                   ("factors", factor_strings factors)]%string))
  end.

End Generators.

(** ** Task executor *)

Inductive TaskType : Type :=
| main_odds
| large_numbers
| chernick
| pomerance_lite
| pomerance_modular
| lambda_plus_one.

Definition task_name (t : TaskType) : string :=
  match t with
  | main_odds => "main_odds"
  | large_numbers => "large_numbers"
  | chernick => "chernick"
  | pomerance_lite => "pomerance_lite"
  | pomerance_modular => "pomerance_modular"
  | lambda_plus_one => "lambda_plus_one"
  end.

(** The namespace built by [parse_args].  The three comma-separated options
    are kept as the values their entries convert to, in order; splitting and
    converting the text is left to the command line. *)
Record Args : Type := {
  task_type : TaskType;
  start : Z;
  end_ : Z;
  seed_start : Z;
  seed_end : Z;
  max_candidates : Z;
  target_digits : Z;
  prime_digits : Z;
  max_steps : Z;
  require_prime_factors : bool;
  mod5_residue : Z;
  m_primes : list Z;
  n_primes : list Z;
  lambda_factors : list (Z * Z);
  require_prime : bool
}.

(** [parse_prime_list] and [parse_lambda_factors]: [values or fallback]. *)
Definition parse_prime_list (values fallback : list Z) : list Z :=
  match values with
  | [] => fallback
  | _ => values
  end.

Definition parse_lambda_factors (values : list (Z * Z)) : list (Z * Z) :=
  match values with
  | [] => DEFAULT_LAMBDA_FACTORS
  | _ => values
  end.

Record Hit : Type := {
  hit_n : string;
  hit_digits : Z;
  hit_meta : meta
}.

Record ErrorRecord : Type := {
  error_seed : Z;
  error_tag : string
}.

(** The locals of [main] that the loops update.  [tested] is not a variable
    of the program: it records, in order, the arguments of the calls to
    [is_bpsw_probable_prime]. *)
Record State : Type := {
  hits : list Hit;
  errors : list ErrorRecord;
  checked : Z;
  tested : list Z
}.

(** The payload printed by [main], without its two clock readings. *)
Record Report : Type := {
  report_task_type : string;
  report_checked : Z;
  hit_count : Z;
  report_hits : list Hit;
  report_errors : list ErrorRecord
}.

Definition initial_state : State :=
  {| hits := []; errors := []; checked := 0; tested := [] |}.

(** [checked += 1]. *)
Definition count (st : State) : State :=
  {| hits := hits st; errors := errors st;
     checked := checked st + 1; tested := tested st |}.

Definition add_error (seed : Z) (st : State) : State :=
  {| hits := hits st;
     errors := errors st ++ [{| error_seed := seed; error_tag := "generation_failed" |}];
     checked := checked st; tested := tested st |}.

Section Executor.

Context {G : Type} `{Rng G}.
Variable gmpy2 : option (Z -> option bool).

(** [if is_bpsw_probable_prime(n): hits.append({...})]. *)
Definition test_candidate (fuel : nat) (n : Z) (m : meta) (st : State)
  : outcome State :=
  verdict <- is_bpsw_probable_prime gmpy2 fuel n ;;
  Done {| hits := if verdict
                  then hits st ++ [{| hit_n := str n; hit_digits := digits n;
                                      hit_meta := m |}]
                  else hits st;
          errors := errors st;
          checked := checked st;
          tested := tested st ++ [n] |}.

(** [for n in range(start, end + 1, 2)]. *)
Fixpoint range_loop (fuel : nat) (args : Args) (ns : list Z) (st : State)
  : outcome State :=
  match ns with
  | [] => Done st
  | n :: rest =>
      if negb (max_candidates args =? 0) && (checked st >=? max_candidates args)
      then Done st
      else
        st' <- test_candidate fuel n
                 [("family", JStr (task_name (task_type args)))]%string
                 (count st) ;;
        range_loop fuel args rest st'
  end.

(** [for k in range(start, end + 1)]. *)
Fixpoint chernick_loop (fuel : nat) (args : Args) (ks : list Z) (st : State)
  : outcome State :=
  match ks with
  | [] => Done st
  | k :: rest =>
      let st := count st in
      match generate_chernick k (require_prime_factors args) with
      | None => chernick_loop fuel args rest st
      | Some (n, m) =>
          st' <- test_candidate fuel n m st ;;
          chernick_loop fuel args rest st'
      end
  end.

(** The dispatch on the family inside the seed loop. *)
Definition generate (args : Args) (m_primes n_primes : list Z)
  (lambda_factors : list (Z * Z)) (seed : Z) : outcome (option (Z * meta)) :=
  match task_type args with
  | pomerance_lite =>
      generate_pomerance_lite seed (target_digits args) (prime_digits args)
        (max_steps args)
  | pomerance_modular =>
      generate_pomerance_modular seed (target_digits args) (prime_digits args)
        (max_steps args) m_primes n_primes (mod5_residue args)
  | lambda_plus_one =>
      generate_lambda_plus_one seed (target_digits args) lambda_factors
        (require_prime args) (max_steps args)
  | _ => Done None
  end.

(** [for seed in range(seed_start, seed_end + 1)]. *)
Fixpoint seed_loop (fuel : nat) (args : Args) (m_primes n_primes : list Z)
  (lambda_factors : list (Z * Z)) (seeds : list Z) (st : State) : outcome State :=
  match seeds with
  | [] => Done st
  | seed :: rest =>
      let st := count st in
      candidate <- generate args m_primes n_primes lambda_factors seed ;;
      match candidate with
      | None =>
          seed_loop fuel args m_primes n_primes lambda_factors rest
            (add_error seed st)
      | Some (n, m) =>
          st' <- test_candidate fuel n m st ;;
          seed_loop fuel args m_primes n_primes lambda_factors rest st'
      end
  end.

(** The body of [main] up to the construction of the payload. *)
Definition execute (fuel : nat) (args : Args) : outcome State :=
  match task_type args with
  | main_odds | large_numbers =>
      let start := start args in
      let end_ := end_ args in
      if (start =? 0) && (end_ =? 0)
      then Raised (SystemExit "start/end required for range tasks")
      else
        let start := if start mod 2 =? 0 then start + 1 else start in
        range_loop fuel args (py_range start (end_ + 1) 2) initial_state
  | chernick =>
      let start := start args in
      let end_ := end_ args in
      if (start =? 0) && (end_ =? 0)
      then Raised (SystemExit "start/end required for chernick tasks")
      else chernick_loop fuel args (py_range start (end_ + 1) 1) initial_state
  | _ =>
      let seed_start :=
        if seed_start args =? 0 then start args else seed_start args in
      let seed_end := if seed_end args =? 0 then end_ args else seed_end args in
      if (seed_start =? 0) && (seed_end =? 0)
      then Raised (SystemExit "seed range required for generator tasks")
      else
        let m_primes := parse_prime_list (m_primes args) DEFAULT_M_PRIMES in
        let n_primes := parse_prime_list (n_primes args) DEFAULT_N_PRIMES in
        let lambda_factors := parse_lambda_factors (lambda_factors args) in
        seed_loop fuel args m_primes n_primes lambda_factors
          (py_range seed_start (seed_end + 1) 1) initial_state
  end.

Definition payload (args : Args) (st : State) : Report :=
  {| report_task_type := task_name (task_type args);
     report_checked := checked st;
     hit_count := len (hits st);
     report_hits := hits st;
     report_errors := errors st |}.

Definition main (fuel : nat) (args : Args) : outcome Report :=
  st <- execute fuel args ;;
  Done (payload args st).

End Executor.

(** The command line [--task-type t --start s --end e], every other option
    at its default. *)
Definition default_args (t : TaskType) (s e : Z) : Args :=
  {| task_type := t; start := s; end_ := e;
     seed_start := 0; seed_end := 0; max_candidates := 0;
     target_digits := 22; prime_digits := 7; max_steps := 5000;
     require_prime_factors := false; mod5_residue := 2;
     m_primes := []; n_primes := []; lambda_factors := [];
     require_prime := false |}.

(** What the loops of [main] range over. *)
Definition range_domain (args : Args) : list Z :=
  py_range (if start args mod 2 =? 0 then start args + 1 else start args)
           (end_ args + 1) 2.

Definition chernick_domain (args : Args) : list Z :=
  py_range (start args) (end_ args + 1) 1.

Definition seed_domain (args : Args) : list Z :=
  py_range (if seed_start args =? 0 then start args else seed_start args)
           ((if seed_end args =? 0 then end_ args else seed_end args) + 1) 1.

(** The products that the Chernick loop passes on to the primality test. *)
Definition chernick_candidates (require_prime_factors : bool) (ks : list Z)
  : list Z :=
  flat_map (fun k => match generate_chernick k require_prime_factors with
                     | Some (n, _) => [n]
                     | None => []
                     end) ks.

(** The command line
    [--task-type chernick --start 2 --end 2 --require-prime-factors]. *)
Definition chernick_2_args : Args :=
  {| task_type := chernick; start := 2; end_ := 2;
     seed_start := 0; seed_end := 0; max_candidates := 0;
     target_digits := 22; prime_digits := 7; max_steps := 5000;
     require_prime_factors := true; mod5_residue := 2;
     m_primes := []; n_primes := []; lambda_factors := [];
     require_prime := false |}.

(** The primes up to 100 that [SMALL_PRIMES] does not contain. *)
Definition primes_41_to_97 : list Z :=
  [41; 43; 47; 53; 59; 61; 67; 71; 73; 79; 83; 89; 97].

(** The odd numbers from 3 to 99, which the run on 2..100 visits. *)
Definition odds_3_to_99 : list Z :=
  [3; 5; 7; 9; 11; 13; 15; 17; 19; 21; 23; 25; 27; 29; 31; 33; 35; 37;
   39; 41; 43; 45; 47; 49; 51; 53; 55; 57; 59; 61; 63; 65; 67; 69; 71;
   73; 75; 77; 79; 81; 83; 85; 87; 89; 91; 93; 95; 97; 99].

(** A reference verdict for running the executor with a library backend:
    primality by searching a divisor. *)
Definition has_divisor (n : Z) : bool :=
  existsb (fun k => n mod k =? 0) (py_range 2 (Z.sqrt n + 1) 1).

Definition reference_is_prime (n : Z) : option bool :=
  Some ((2 <=? n) && negb (has_divisor n)).

(** ** Notions used in the further properties *)

(** The number [d] that one attempt of [generate_lambda_plus_one] builds
    from the exponents it draws. *)
Fixpoint smooth_value (lambda_factors : list (Z * Z)) (exps : list Z) : Z :=
  match lambda_factors, exps with
  | (base, _) :: factors, exp :: exps => base ^ exp * smooth_value factors exps
  | _, _ => 1
  end.

(** Whether the primality test accepts [n]. *)
Definition passes (gmpy2 : option (Z -> option bool)) (fuel : nat) (n : Z) : bool :=
  match is_bpsw_probable_prime gmpy2 fuel n with
  | Done true => true
  | _ => false
  end.

(** Whether the generator of the task gives up on a seed. *)
Definition generation_fails {G : Type} `{Rng G} (args : Args) (seed : Z) : bool :=
  match generate args
          (parse_prime_list (m_primes args) DEFAULT_M_PRIMES)
          (parse_prime_list (n_primes args) DEFAULT_N_PRIMES)
          (parse_lambda_factors (lambda_factors args)) seed with
  | Done None => true
  | _ => false
  end.

(** The decimal string and the digit count that a hit records. *)
Definition hit_key (h : Hit) : string * Z := (hit_n h, hit_digits h).

(** The hits are the tested numbers that the test accepted, in order. *)
Definition hits_match (gmpy2 : option (Z -> option bool)) (fuel : nat) (st : State)
  : Prop :=
  map hit_key (hits st)
  = map (fun n => (str n, digits n)) (filter (passes gmpy2 fuel) (tested st)).

(** * Properties *)

(** ** Built-ins and loop helpers *)

Lemma bind_done {A B : Type} (m : outcome A) (k : A -> outcome B) (b : B) :
  bind m k = Done b -> exists a, m = Done a /\ k a = Done b.
Proof.
  destruct m as [a | e |]; cbn; intros E; try discriminate.
  exists a; split; [reflexivity | exact E].
Qed.

Lemma pow_pos_mod_spec (a : Z) (e : positive) (m : Z) :
  pow_pos_mod a e m = a ^ Zpos e mod m.
Proof.
  induction e as [e IH | e IH |]; cbn [pow_pos_mod].
  - rewrite IH, Pos2Z.inj_xI.
    replace (a ^ (2 * Z.pos e + 1)) with (a ^ Z.pos e * a ^ Z.pos e * a).
    + rewrite (Zmult_mod (a ^ Z.pos e * a ^ Z.pos e) a m).
      rewrite (Zmult_mod (a ^ Z.pos e) (a ^ Z.pos e) m).
      rewrite (Zmult_mod (a ^ Z.pos e mod m * (a ^ Z.pos e mod m)) a m).
      reflexivity.
    + rewrite Z.pow_add_r, Z.pow_1_r by lia.
      replace (2 * Z.pos e) with (Z.pos e + Z.pos e) by lia.
      now rewrite Z.pow_add_r by lia.
  - rewrite IH, Pos2Z.inj_xO.
    replace (a ^ (2 * Z.pos e)) with (a ^ Z.pos e * a ^ Z.pos e).
    + now rewrite (Zmult_mod (a ^ Z.pos e) (a ^ Z.pos e) m).
    + replace (2 * Z.pos e) with (Z.pos e + Z.pos e) by lia.
      now rewrite Z.pow_add_r by lia.
  - now rewrite Z.pow_1_r.
Qed.

Lemma pow_mod_spec (a e m : Z) : 0 <= e -> pow_mod a e m = a ^ e mod m.
Proof.
  destruct e as [| e | e]; intros He; cbn [pow_mod].
  - reflexivity.
  - apply pow_pos_mod_spec.
  - lia.
Qed.

(** [strip_twos] splits off the power of two: the loop invariant
    [d * 2^s] is kept and the loop stops on an odd [d]. *)
Lemma strip_twos_spec (q : positive) :
  forall s0 d s, strip_twos q s0 = (d, s) ->
    s0 <= s /\ Zpos q = d * 2 ^ (s - s0) /\ d mod 2 = 1 /\ 0 < d.
Proof.
  induction q as [q IH | q IH |]; intros s0 d s E; cbn [strip_twos] in E.
  - injection E as <- <-. rewrite Z.sub_diag, Z.mul_1_r.
    repeat split; try lia. rewrite Pos2Z.inj_xI.
    rewrite Z.add_comm, Z.mul_comm. now rewrite Z_mod_plus_full.
  - destruct (IH _ _ _ E) as (Hs & Hq & Hodd & Hpos).
    repeat split; try lia.
    rewrite Pos2Z.inj_xO, Hq.
    replace (s - s0) with (Z.succ (s - (s0 + 1))) by lia.
    rewrite Z.pow_succ_r by lia. ring.
  - injection E as <- <-. rewrite Z.sub_diag. repeat split; lia || reflexivity.
Qed.

(** ** Miller-Rabin on primes *)

Lemma mr_squarings_found (k : nat) :
  forall x n i, (1 <= i <= k)%nat ->
    x ^ (2 ^ Z.of_nat i) mod n = n - 1 -> mr_squarings k x n = false.
Proof.
  induction k as [| k IH]; intros x n i Hi Hx; [lia |].
  cbn [mr_squarings]. rewrite pow_mod_spec by lia.
  destruct (Z.eqb_spec (x ^ 2 mod n) (n - 1)) as [_ | Hne]; [reflexivity |].
  assert (i <> 1%nat) as Hi1.
  { intros ->. apply Hne. exact Hx. }
  apply (IH _ _ (i - 1)%nat); [lia |].
  rewrite Z.mod_pow_l, <- Z.pow_mul_r by lia.
  replace (2 * 2 ^ Z.of_nat (i - 1)) with (2 ^ Z.of_nat i); [exact Hx |].
  replace (Z.of_nat i) with (Z.succ (Z.of_nat (i - 1))) by lia.
  now rewrite Z.pow_succ_r by lia.
Qed.

(** Modulo a prime the only square roots of 1 are 1 and -1, so a chain of
    squarings that ends in 1 starts at 1 or passes through -1. *)
Lemma square_root_chain (p y : Z) (j : nat) :
  Z.prime p -> 2 < p -> y ^ (2 ^ Z.of_nat j) mod p = 1 ->
  y mod p = 1 \/ exists i, (i < j)%nat /\ y ^ (2 ^ Z.of_nat i) mod p = p - 1.
Proof.
  intros Hp Hp2. induction j as [| j IH]; intros Hy.
  - left. now rewrite Z.pow_0_r, Z.pow_1_r in Hy.
  - set (z := y ^ (2 ^ Z.of_nat j)) in *.
    assert (z ^ 2 mod p = 1) as Hz.
    { unfold z. rewrite <- Z.pow_mul_r by lia.
      replace (2 ^ Z.of_nat j * 2) with (2 ^ Z.of_nat (S j)); [exact Hy |].
      rewrite Nat2Z.inj_succ, Z.pow_succ_r by lia. ring. }
    assert ((p | (z - 1) * (z + 1))) as Hdiv.
    { replace ((z - 1) * (z + 1)) with (z ^ 2 - 1) by ring.
      apply Z.mod_divide; [lia |].
      rewrite Zminus_mod, Hz. rewrite (Z.mod_small 1) by lia.
      now rewrite Z.sub_diag, Z.mod_0_l by lia. }
    apply (Z.divide_prime_mul _ _ _ Hp) in Hdiv.
    destruct Hdiv as [[c Hc] | [c Hc]].
    + destruct IH as [H1 | (i & Hi & Hm)].
      * replace z with (1 + c * p) by lia.
        rewrite Z_mod_plus_full. apply Z.mod_small; lia.
      * now left.
      * right. exists i. split; [lia | exact Hm].
    + right. exists j. split; [lia |].
      fold z. replace z with ((p - 1) + (c - 1) * p) by lia.
      rewrite Z_mod_plus_full. apply Z.mod_small; lia.
Qed.

Lemma mr_bases_prime (p d s : Z) (bases : list Z) :
  Z.prime p -> 2 < p -> p - 1 = d * 2 ^ s -> 0 < d -> 1 <= s ->
  mr_bases p d s bases = true.
Proof.
  intros Hp Hp2 Hds Hd Hs.
  induction bases as [| a rest IH]; cbn [mr_bases]; [reflexivity |].
  destruct (Z.eqb_spec (a mod p) 0) as [_ | Ha]; [exact IH |].
  rewrite (pow_mod_spec a d p) by lia.
  assert ((a ^ d) ^ (2 ^ Z.of_nat (Z.to_nat s)) mod p = 1) as Hfermat.
  { pose proof (Z.pow_nonneg 2 s ltac:(lia)) as H2s.
    rewrite Z2Nat.id, <- Z.pow_mul_r, <- Hds by lia.
    now apply Z.fermat_nz. }
  destruct (square_root_chain p (a ^ d) (Z.to_nat s) Hp Hp2 Hfermat)
    as [H1 | (i & Hi & Hm)].
  - rewrite H1. cbn [Z.eqb orb]. exact IH.
  - destruct i as [| i].
    + rewrite Z.pow_0_r, Z.pow_1_r in Hm. rewrite Hm, Z.eqb_refl, orb_true_r.
      exact IH.
    + destruct ((a ^ d mod p =? 1) || (a ^ d mod p =? p - 1)); [exact IH |].
      rewrite (mr_squarings_found _ _ _ (S i)); [exact IH | lia |].
      rewrite Z.mod_pow_l. exact Hm.
Qed.

Lemma odd_prime_gt_2 (p : Z) : Z.prime p -> p mod 2 = 1 -> 2 < p.
Proof.
  intros Hp Hodd. pose proof (Z.prime_ge_2 p Hp) as H2.
  destruct (Z.eq_dec p 2) as [-> | Hne]; [discriminate Hodd | lia].
Qed.

Lemma miller_rabin_prime (p : Z) (bases : list Z) :
  Z.prime p -> p mod 2 = 1 -> miller_rabin p bases = true.
Proof.
  intros Hp Hodd. pose proof (odd_prime_gt_2 p Hp Hodd) as Hp2.
  unfold miller_rabin.
  destruct (Z.ltb_spec p 2) as [Hlt | _]; [lia |].
  rewrite Hodd. cbn [Z.eqb].
  destruct (strip_twos (Z.to_pos (p - 1)) 0) as [d s] eqn:E.
  apply strip_twos_spec in E. destruct E as (Hs & Hq & Hd2 & Hd).
  rewrite Z2Pos.id, Z.sub_0_r in Hq by lia.
  apply mr_bases_prime; try assumption.
  destruct (Z.eq_dec s 0) as [-> | Hne]; [| lia].
  rewrite Z.pow_0_r, Z.mul_1_r in Hq.
  rewrite <- Hq in Hd2. replace p with (1 + (p - 1)) in Hodd by lia.
  rewrite Zplus_mod, Hd2 in Hodd. discriminate Hodd.
Qed.

(** C2. [miller_rabin] answers false below 2, true on 2 and false on every
    larger even number, whatever the bases; on an odd prime below 10^6 it
    answers true for every nonempty list of bases. *)
Theorem miller_rabin_small_and_prime :
  (forall n bases, n < 2 -> miller_rabin n bases = false)
  /\ (forall bases, miller_rabin 2 bases = true)
  /\ (forall n bases, 2 < n -> n mod 2 = 0 -> miller_rabin n bases = false)
  /\ (forall p bases, Z.prime p -> p mod 2 = 1 -> p < 10 ^ 6 -> bases <> [] ->
        miller_rabin p bases = true).
Proof.
  split; [| split; [| split]].
  - intros n bases Hn. unfold miller_rabin.
    destruct (Z.ltb_spec n 2); [reflexivity | lia].
  - intros bases. reflexivity.
  - intros n bases Hn Heven. unfold miller_rabin.
    destruct (Z.ltb_spec n 2); [lia |].
    rewrite Heven. cbn [Z.eqb]. apply Z.eqb_neq. lia.
  - intros p bases Hp Hodd _ _. now apply miller_rabin_prime.
Qed.

(** C10. With no base at all every odd number from 3 on passes. *)
Theorem miller_rabin_no_bases (n : Z) :
  3 <= n -> n mod 2 = 1 -> miller_rabin n [] = true.
Proof.
  intros Hn Hodd. unfold miller_rabin.
  destruct (Z.ltb_spec n 2); [lia |].
  rewrite Hodd. cbn [Z.eqb].
  destruct (strip_twos (Z.to_pos (n - 1)) 0) as [d s]. reflexivity.
Qed.

(** ** Primality by divisor search *)

Lemma in_py_range_1 (a b k : Z) : a <= k < b -> In k (py_range a b 1).
Proof.
  intros Hk. unfold py_range. apply in_map_iff.
  exists (Z.to_nat (k - a)). split; [lia |].
  apply in_seq. rewrite Z.div_1_r. lia.
Qed.

Lemma no_divisor_prime (n : Z) : 2 <= n -> has_divisor n = false -> Z.prime n.
Proof.
  intros Hn Hnone. split; [lia |].
  intros m Hm [c Hc].
  assert (1 < c) as Hc1 by nia.
  assert (exists k, 2 <= k /\ k * k <= n /\ n mod k = 0) as (k & Hk2 & Hkk & Hk0).
  { destruct (Z.le_ge_cases m c) as [Hle | Hge].
    - exists m. repeat split; [lia | nia |].
      rewrite Hc. apply Z_mod_mult.
    - exists c. repeat split; [lia | nia |].
      rewrite Hc, Z.mul_comm. apply Z_mod_mult. }
  apply Z.sqrt_le_square in Hkk; [| lia | lia].
  assert (has_divisor n = true) as Hsome.
  { apply existsb_exists. exists k. split.
    - apply in_py_range_1. lia.
    - now apply Z.eqb_eq. }
  congruence.
Qed.

Lemma prime_1000003 : Z.prime 1000003.
Proof. apply no_divisor_prime; [lia | vm_compute; reflexivity]. Qed.

Lemma prime_109 : Z.prime 109.
Proof. apply no_divisor_prime; [lia | vm_compute; reflexivity]. Qed.

Lemma prime_71 : Z.prime 71.
Proof. apply no_divisor_prime; [lia | vm_compute; reflexivity]. Qed.

Lemma prime_13 : Z.prime 13.
Proof. apply no_divisor_prime; [lia | vm_compute; reflexivity]. Qed.

(** ** Trial division in the BPSW composite *)

Lemma trial_division_hit (n : Z) (primes : list Z) :
  In n primes -> (forall q, In q primes -> q <> n -> n mod q <> 0) ->
  trial_division n primes = Some true.
Proof.
  induction primes as [| p rest IH]; intros Hin Hfree; [contradiction |].
  cbn [trial_division].
  destruct (Z.eqb_spec n p) as [_ | Hne]; [reflexivity |].
  destruct (Z.eqb_spec (n mod p) 0) as [H0 | _].
  - exfalso. apply (Hfree p); [now left | congruence | exact H0].
  - apply IH.
    + destruct Hin as [-> | Hin]; [congruence | exact Hin].
    + intros q Hq. apply Hfree. now right.
Qed.

Lemma trial_division_multiple (n p : Z) (primes : list Z) :
  In p primes -> n mod p = 0 -> ~ In n primes ->
  trial_division n primes = Some false.
Proof.
  induction primes as [| q rest IH]; intros Hin Hdiv Hnot; [contradiction |].
  cbn [trial_division].
  destruct (Z.eqb_spec n q) as [-> | _]; [exfalso; apply Hnot; now left |].
  destruct (Z.eqb_spec (n mod q) 0) as [_ | Hq]; [reflexivity |].
  apply IH.
  - destruct Hin as [-> | Hin]; [congruence | exact Hin].
  - exact Hdiv.
  - intros Hn. apply Hnot. now right.
Qed.

(** Two distinct members of [SMALL_PRIMES] do not divide one another. *)
Lemma small_primes_coprime (p q : Z) :
  In p SMALL_PRIMES -> In q SMALL_PRIMES -> q <> p -> p mod q <> 0.
Proof.
  unfold SMALL_PRIMES. intros Hp Hq.
  repeat (destruct Hp as [<- | Hp]; [| try contradiction]);
    repeat (destruct Hq as [<- | Hq]; [| try contradiction]);
    intros Hne; (congruence || (vm_compute; discriminate)).
Qed.

Section BpswTrialDivision.

Variable gmpy2 : option (Z -> option bool).
Variable fuel : nat.

(** The parts of the BPSW composite that do not depend on the backend. *)
Lemma bpsw_below_two (n : Z) :
  n < 2 -> is_bpsw_probable_prime gmpy2 fuel n = Done false.
Proof.
  intros Hn. unfold is_bpsw_probable_prime.
  destruct (Z.ltb_spec n 2); [reflexivity | lia].
Qed.

Lemma bpsw_small_prime (n : Z) :
  In n SMALL_PRIMES -> is_bpsw_probable_prime gmpy2 fuel n = Done true.
Proof.
  intros Hin. unfold is_bpsw_probable_prime.
  destruct (Z.ltb_spec n 2) as [Hlt | _].
  - unfold SMALL_PRIMES in Hin.
    repeat (destruct Hin as [<- | Hin]; [lia |]). contradiction.
  - rewrite (trial_division_hit n SMALL_PRIMES Hin); [reflexivity |].
    intros q Hq Hne. now apply small_primes_coprime.
Qed.

Lemma bpsw_small_multiple (n p : Z) :
  2 < n -> In p SMALL_PRIMES -> n mod p = 0 -> n <> p ->
  is_bpsw_probable_prime gmpy2 fuel n = Done false.
Proof.
  intros Hn Hp Hdiv Hne. unfold is_bpsw_probable_prime.
  destruct (Z.ltb_spec n 2); [lia |].
  rewrite (trial_division_multiple n p SMALL_PRIMES Hp Hdiv); [reflexivity |].
  intros Hin. apply (small_primes_coprime n p Hin Hp); congruence.
Qed.

End BpswTrialDivision.

(** ** The D-selection loop *)

(** The update adds 2 to the signed value, so the fourth update leads back
    to the initial pair. *)
Lemma next_d_cycle :
  next_d (5, 1) = (-7, -1) /\ next_d (-7, -1) = (-5, 1)
  /\ next_d (-5, 1) = (3, -1) /\ next_d (3, -1) = (5, 1).
Proof. repeat split. Qed.

Lemma next_d_in_cycle (st : Z * Z) : In st d_cycle -> In (next_d st) d_cycle.
Proof.
  unfold d_cycle. intros Hin.
  repeat (destruct Hin as [<- | Hin]; [cbv; tauto |]). contradiction.
Qed.

Lemma select_d_from_cycle (n : Z) (fuel : nat) :
  forall d sign r, In (d, sign) d_cycle -> select_d fuel n d sign = Some r ->
    In r [5; -7; -5; 3] /\ jacobi r n = -1.
Proof.
  induction fuel as [| fuel IH]; intros d sign r Hin E; cbn [select_d] in E.
  - discriminate.
  - destruct (Z.eqb_spec (jacobi d n) (-1)) as [Hj | _].
    + injection E as <-. split; [| exact Hj].
      unfold d_cycle in Hin.
      repeat (destruct Hin as [Hin | Hin];
              [injection Hin as <- _; cbn; tauto |]).
      contradiction.
    + pose proof (next_d_in_cycle _ Hin) as Hnext.
      destruct (next_d (d, sign)) as [d' sign'].
      exact (IH _ _ _ Hnext E).
Qed.

(** Only four values are ever tried. *)
Lemma select_d_values (n : Z) (fuel : nat) (r : Z) :
  select_d fuel n 5 1 = Some r -> In r [5; -7; -5; 3] /\ jacobi r n = -1.
Proof. apply select_d_from_cycle. cbn. tauto. Qed.

Lemma select_d_never (n : Z) :
  jacobi 5 n <> -1 -> jacobi (-7) n <> -1 ->
  jacobi (-5) n <> -1 -> jacobi 3 n <> -1 ->
  forall fuel, select_d fuel n 5 1 = None.
Proof.
  intros H5 H7 Hm5 H3 fuel.
  destruct (select_d fuel n 5 1) as [r |] eqn:E; [| reflexivity].
  apply select_d_values in E. destruct E as [Hin Hj].
  cbn in Hin. decompose [or] Hin; subst; contradiction.
Qed.

Lemma select_d_more_fuel (n : Z) (fuel : nat) :
  forall d sign r k, select_d fuel n d sign = Some r ->
    select_d (k + fuel) n d sign = Some r.
Proof.
  induction fuel as [| fuel IH]; intros d sign r k E; cbn [select_d] in E.
  - discriminate.
  - rewrite Nat.add_succ_r. cbn [select_d].
    destruct (jacobi d n =? -1); [exact E |].
    destruct (next_d (d, sign)) as [d' sign']. now apply IH.
Qed.

Lemma lucas_selfridge_more_fuel (n : Z) (fuel k : nat) (b : bool) :
  lucas_selfridge fuel n = Done b -> lucas_selfridge (k + fuel) n = Done b.
Proof.
  unfold lucas_selfridge.
  destruct ((n <? 2) || (n mod 2 =? 0)); [trivial |].
  destruct (is_square n); [trivial |].
  destruct (select_d fuel n 5 1) as [d |] eqn:E; [| discriminate].
  now rewrite (select_d_more_fuel _ _ _ _ _ k E).
Qed.

Lemma bpsw_more_fuel gmpy2 (n : Z) (fuel k : nat) (b : bool) :
  is_bpsw_probable_prime gmpy2 fuel n = Done b ->
  is_bpsw_probable_prime gmpy2 (k + fuel) n = Done b.
Proof.
  unfold is_bpsw_probable_prime.
  destruct (n <? 2); [trivial |].
  destruct (trial_division n SMALL_PRIMES); [trivial |].
  destruct gmpy2; [trivial |].
  destruct (miller_rabin n [2]); [| trivial].
  apply lucas_selfridge_more_fuel.
Qed.

(** The vectors of the specification that trial division settles, whatever
    the backend and the loop budget. *)
Lemma bpsw_vectors_settled_by_trial_division gmpy2 (fuel : nat) :
  map (is_bpsw_probable_prime gmpy2 fuel) [2; 3] = [Done true; Done true]
  /\ map (is_bpsw_probable_prime gmpy2 fuel) [0; 1; 9; 561; 1105; 1729; 2465]
     = [Done false; Done false; Done false; Done false; Done false; Done false;
        Done false].
Proof.
  cbn [map]. split.
  - rewrite !bpsw_small_prime by (cbn; tauto). reflexivity.
  - rewrite !bpsw_below_two by lia.
    rewrite (bpsw_small_multiple gmpy2 fuel 9 3),
            (bpsw_small_multiple gmpy2 fuel 561 3),
            (bpsw_small_multiple gmpy2 fuel 1105 5),
            (bpsw_small_multiple gmpy2 fuel 1729 7),
            (bpsw_small_multiple gmpy2 fuel 2465 5);
      (reflexivity || lia || (cbn; tauto)).
Qed.

(** The loop stops at the first value it tries whose Jacobi symbol is -1. *)
Lemma select_d_examined (n : Z) (fuel : nat) :
  forall d sign r, select_d fuel n d sign = Some r ->
    exists before,
      examined fuel n d sign = before ++ [r]
      /\ Forall (fun d' => jacobi d' n <> -1) before
      /\ jacobi r n = -1.
Proof.
  induction fuel as [| fuel IH]; intros d sign r E;
    cbn [select_d] in E; [discriminate |].
  cbn [examined].
  destruct (Z.eqb_spec (jacobi d n) (-1)) as [Hj | Hj].
  - injection E as <-. exists []. repeat split; [constructor | exact Hj].
  - destruct (next_d (d, sign)) as [d' sign'].
    destruct (IH _ _ _ E) as (before & Hex & Hall & Hr).
    exists (d :: before). rewrite Hex. repeat split; [| exact Hr].
    constructor; assumption.
Qed.

(** C1. Without the library backend the composite test rejects the primes
    1000003 and 10^18 + 9 of the fixed vectors: both pass trial division and
    the base-2 Miller-Rabin round, and the Lucas stage answers false. *)
Theorem bpsw_fallback_rejects_vector_primes :
  Z.prime 1000003
  /\ (forall fuel, is_bpsw_probable_prime None (fuel + 2) 1000003 = Done false)
  /\ (forall fuel, is_bpsw_probable_prime None (fuel + 2) (10 ^ 18 + 9) = Done false)
  /\ miller_rabin 1000003 [2] = true
  /\ miller_rabin (10 ^ 18 + 9) [2] = true.
Proof.
  split; [exact prime_1000003 |].
  split; [| split; [| split]].
  - intros fuel. apply bpsw_more_fuel. vm_compute. reflexivity.
  - intros fuel. apply bpsw_more_fuel. vm_compute. reflexivity.
  - vm_compute. reflexivity.
  - vm_compute. reflexivity.
Qed.

(** C3. On 71 the selection loop tries 5, -7, -5 and stops there, while the
    sequence 5, -7, 9, -11, 13 has 9 in third place and reaches its first
    value of Jacobi symbol -1 at 13. *)
Theorem select_d_departs_from_selfridge :
  Z.prime 71
  /\ (forall fuel, examined (fuel + 3) 71 5 1 = [5; -7; -5])
  /\ (forall fuel, select_d (fuel + 3) 71 5 1 = Some (-5))
  /\ map selfridge_sequence [0; 1; 2; 3; 4]%nat = [5; -7; 9; -11; 13]
  /\ map (fun d => jacobi d 71) [5; -7; 9; -11; 13] = [1; 1; 1; 1; -1].
Proof.
  split; [exact prime_71 |].
  split; [| split; [| split]].
  - intros fuel. rewrite Nat.add_comm. reflexivity.
  - intros fuel. apply select_d_more_fuel. reflexivity.
  - reflexivity.
  - vm_compute. reflexivity.
Qed.

(** C4. On the prime 109 none of the four values that the selection loop
    goes through has Jacobi symbol -1, so the loop never ends: no number of
    iterations yields a verdict, for the Lucas test and for the composite
    test without the library backend alike. *)
Theorem lucas_selfridge_diverges_on_109 :
  Z.prime 109 /\ 109 mod 2 = 1 /\ is_square 109 = false
  /\ (forall fuel, lucas_selfridge fuel 109 = OutOfFuel)
  /\ (forall fuel, is_bpsw_probable_prime None fuel 109 = OutOfFuel).
Proof.
  assert (forall fuel, select_d fuel 109 5 1 = None) as Hloop.
  { apply select_d_never; vm_compute; discriminate. }
  assert (forall fuel, lucas_selfridge fuel 109 = OutOfFuel) as Hlucas.
  { intros fuel. unfold lucas_selfridge.
    change ((109 <? 2) || (109 mod 2 =? 0)) with false.
    change (is_square 109) with false. cbv iota.
    now rewrite Hloop. }
  split; [exact prime_109 |].
  split; [reflexivity |]. split; [reflexivity |]. split; [exact Hlucas |].
  intros fuel. unfold is_bpsw_probable_prime.
  change (109 <? 2) with false.
  change (trial_division 109 SMALL_PRIMES) with (@None bool).
  change (miller_rabin 109 [2]) with true. cbv iota.
  apply Hlucas.
Qed.

(** ** Extended gcd *)

Lemma egcd_rec_more_fuel (fuel : nat) :
  forall a b r k, egcd_rec fuel a b = Some r -> egcd_rec (k + fuel) a b = Some r.
Proof.
  induction fuel as [| fuel IH]; intros a b r k E.
  - cbn [egcd_rec] in E. destruct (b =? 0) eqn:Hb; [| discriminate].
    destruct (k + 0)%nat; cbn [egcd_rec]; now rewrite Hb.
  - rewrite Nat.add_succ_r. cbn [egcd_rec] in E |- *.
    destruct (b =? 0); [exact E |].
    destruct (egcd_rec fuel b (a mod b)) as [r' |] eqn:E'; [| discriminate].
    now rewrite (IH _ _ _ k E').
Qed.

Lemma egcd_rec_deterministic (f1 f2 : nat) (a b : Z) (r1 r2 : Z * Z * Z) :
  egcd_rec f1 a b = Some r1 -> egcd_rec f2 a b = Some r2 -> r1 = r2.
Proof.
  intros E1 E2.
  apply (egcd_rec_more_fuel _ _ _ _ f2) in E1.
  apply (egcd_rec_more_fuel _ _ _ _ f1) in E2.
  rewrite Nat.add_comm in E2. congruence.
Qed.

(** Two calls at least halve the second argument, whatever the signs. *)
Lemma egcd_two_steps (a b : Z) :
  b <> 0 -> a mod b <> 0 -> 2 * Z.abs (b mod (a mod b)) < Z.abs b.
Proof.
  intros Hb Hb1.
  pose proof (Z.div_mod b (a mod b) Hb1) as Hdiv.
  set (b1 := a mod b) in *. set (q := b / b1) in *. set (b2 := b mod b1) in *.
  destruct (Z.lt_trichotomy b 0) as [Hneg | [H0 | Hpos]]; [| contradiction |].
  - pose proof (Z.mod_neg_bound a b Hneg) as B1. fold b1 in B1.
    assert (b1 < 0) as Hb1neg by lia.
    pose proof (Z.mod_neg_bound b b1 Hb1neg) as B2. fold b2 in B2.
    assert (1 <= q) as Hq by nia.
    assert (b1 * q <= b1) by nia. lia.
  - pose proof (Z.mod_pos_bound a b Hpos) as B1. fold b1 in B1.
    assert (0 < b1) as Hb1pos by lia.
    pose proof (Z.mod_pos_bound b b1 Hb1pos) as B2. fold b2 in B2.
    assert (1 <= q) as Hq by nia.
    assert (b1 <= b1 * q) by nia. lia.
Qed.

Lemma egcd_rec_enough (k : nat) :
  forall a b, Z.abs b < 2 ^ Z.of_nat k ->
    exists r, egcd_rec (2 * k + 1) a b = Some r.
Proof.
  induction k as [| k IH]; intros a b Hb.
  - cbn [egcd_rec Nat.mul Nat.add]. replace (b =? 0) with true; [eauto |].
    symmetry. apply Z.eqb_eq. cbn in Hb. lia.
  - replace (2 * S k + 1)%nat with (S (S (2 * k + 1))) by lia.
    cbn [egcd_rec].
    destruct (Z.eqb_spec b 0) as [_ | Hb0]; [eauto |].
    destruct (Z.eqb_spec (a mod b) 0) as [_ | Hb1]; [eauto |].
    destruct (IH (a mod b) (b mod (a mod b))) as [[[g x] y] E].
    + pose proof (egcd_two_steps a b Hb0 Hb1).
      rewrite Nat2Z.inj_succ, Z.pow_succ_r in Hb by lia. lia.
    + rewrite E. eauto.
Qed.

Lemma egcd_fuel_enough (a b : Z) : exists r, egcd_rec (egcd_fuel b) a b = Some r.
Proof.
  pose proof (Z.log2_nonneg (Z.abs b)) as Hlog.
  destruct (egcd_rec_enough (Z.to_nat (Z.log2 (Z.abs b) + 1)) a b) as [r E].
  - rewrite Z2Nat.id by lia.
    destruct (Z.eq_dec b 0) as [-> | Hb]; [cbn; lia |].
    apply Z.log2_spec. lia.
  - exists r. unfold egcd_fuel.
    replace (Z.to_nat (2 * Z.log2 (Z.abs b) + 3))
      with (2 * Z.to_nat (Z.log2 (Z.abs b) + 1) + 1)%nat by lia.
    exact E.
Qed.

Lemma egcd_complete (a b : Z) : egcd_rec (egcd_fuel b) a b = Some (egcd a b).
Proof.
  unfold egcd. destruct (egcd_fuel_enough a b) as [r E]. now rewrite E.
Qed.

(** The recursion equation of the Python function. *)
Lemma egcd_eq (a b : Z) :
  egcd a b =
  if b =? 0 then (a, 1, 0)
  else let '(g, x1, y1) := egcd b (a mod b) in (g, y1, x1 - (a / b) * y1).
Proof.
  pose proof (egcd_complete a b) as E.
  pose proof (egcd_complete b (a mod b)) as E'.
  destruct (egcd_fuel b) as [| fuel]; cbn [egcd_rec] in E;
    destruct (b =? 0); try congruence.
  destruct (egcd_rec fuel b (a mod b)) as [[[g x1] y1] |] eqn:Erec;
    [| discriminate].
  rewrite <- (egcd_rec_deterministic _ _ _ _ _ _ Erec E'). congruence.
Qed.

Lemma egcd_rec_spec (fuel : nat) :
  forall a b g x y, egcd_rec fuel a b = Some (g, x, y) ->
    g = a * x + b * y
    /\ Z.abs g = Z.gcd a b
    /\ (0 < b -> 0 < g) /\ (b < 0 -> g < 0) /\ (b = 0 -> g = a).
Proof.
  induction fuel as [| fuel IH]; intros a b g x y E; cbn [egcd_rec] in E.
  - destruct (Z.eqb_spec b 0) as [-> | _]; [| discriminate].
    injection E as <- <- <-. rewrite Z.gcd_0_r. repeat split; lia.
  - destruct (Z.eqb_spec b 0) as [-> | Hb].
    + injection E as <- <- <-. rewrite Z.gcd_0_r. repeat split; lia.
    + destruct (egcd_rec fuel b (a mod b)) as [[[g' x1] y1] |] eqn:Erec;
        [| discriminate].
      injection E as <- <- <-.
      destruct (IH _ _ _ _ _ Erec) as (Hbez & Hgcd & Hpos & Hneg & Hzero).
      split; [| split; [| split; [| split]]].
      * rewrite Hbez. rewrite (Z.mod_eq a b Hb). ring.
      * rewrite Hgcd, Z.gcd_mod_r. apply Z.gcd_comm.
      * intros Hb'. pose proof (Z.mod_pos_bound a b Hb').
        destruct (Z.eq_dec (a mod b) 0) as [H0 | H0]; [rewrite Hzero | apply Hpos]; lia.
      * intros Hb'. pose proof (Z.mod_neg_bound a b Hb').
        destruct (Z.eq_dec (a mod b) 0) as [H0 | H0]; [rewrite Hzero | apply Hneg]; lia.
      * intros Hb'. contradiction.
Qed.

Lemma egcd_spec (a b g x y : Z) :
  egcd a b = (g, x, y) ->
  g = a * x + b * y
  /\ Z.abs g = Z.gcd a b
  /\ (0 < b -> 0 < g) /\ (b < 0 -> g < 0) /\ (b = 0 -> g = a).
Proof.
  intros E. apply (egcd_rec_spec (egcd_fuel b)). rewrite <- E. apply egcd_complete.
Qed.

(** C6, as amended.  [egcd] returns on all integers with Bezout
    coefficients for its first component [g], whose absolute value is the
    greatest common divisor of the arguments; [g] is non-negative exactly
    when [b > 0], or [b = 0] and [a >= 0]. *)
Theorem egcd_bezout_and_sign (a b : Z) :
  exists g x y,
    egcd a b = (g, x, y)
    /\ g = a * x + b * y
    /\ Z.abs g = Z.gcd a b
    /\ (0 <= g <-> 0 < b \/ (b = 0 /\ 0 <= a)).
Proof.
  destruct (egcd a b) as [[g x] y] eqn:E.
  exists g, x, y. split; [reflexivity |].
  destruct (egcd_spec _ _ _ _ _ E) as (Hbez & Hgcd & Hpos & Hneg & Hzero).
  split; [exact Hbez |]. split; [exact Hgcd |].
  destruct (Z.lt_trichotomy b 0) as [Hb | [Hb | Hb]].
  - specialize (Hneg Hb). lia.
  - specialize (Hzero Hb). lia.
  - specialize (Hpos Hb). lia.
Qed.

(** C6, as stated: on (5, -3) the triple is (-1, 1, 2), with a negative
    first component. *)
Lemma egcd_claim_fails_on_negative_modulus :
  egcd 5 (-3) = (-1, 1, 2) /\ ~ egcd_claim 5 (-3).
Proof.
  split; [reflexivity |].
  unfold egcd_claim. change (egcd 5 (-3)) with (-1, 1, 2).
  intros [_ Hsign]. lia.
Qed.

(** ** Combination of two congruences *)

Lemma py_mod_done (a b : Z) : b <> 0 -> py_mod a b = Done (a mod b).
Proof. intros Hb. unfold py_mod. now rewrite (proj2 (Z.eqb_neq b 0) Hb). Qed.

Lemma py_floordiv_done (a b : Z) : b <> 0 -> py_floordiv a b = Done (a / b).
Proof. intros Hb. unfold py_floordiv. now rewrite (proj2 (Z.eqb_neq b 0) Hb). Qed.

(** The modulus returned by [crt_pair], [m1 // g * m2], is the least common
    multiple as soon as it is positive. *)
Lemma lcm_from_bezout (m1 m2 g x y u v : Z) :
  g = m1 * x + m2 * y -> m1 = u * g -> m2 = v * g -> g <> 0 -> 0 <= u * m2 ->
  Z.lcm m1 m2 = u * m2.
Proof.
  intros Hbez Hu Hv Hg Hnonneg.
  apply Z.lcm_unique; [exact Hnonneg | | |].
  - exists v. rewrite Hv at 1. rewrite Hu at 1. ring.
  - exists u. reflexivity.
  - intros q [s Hs] [t Ht].
    exists (x * t + y * s).
    apply (Z.mul_cancel_l _ _ g Hg).
    assert (g * q = m1 * x * (t * m2) + m2 * y * (s * m1)) as E1.
    { rewrite <- Ht at 1. rewrite <- Hs. rewrite Hbez at 1. ring. }
    assert (m1 * m2 = g * (u * m2)) as E2 by (rewrite Hu at 1; ring).
    rewrite E1. transitivity ((x * t + y * s) * (m1 * m2)); [ring |].
    rewrite E2. ring.
Qed.

(** C5, as amended.  For a positive first modulus and a non-zero second one
    (so for any two positive moduli), [crt_pair] raises the
    incompatible-congruences error exactly when gcd(m1, m2) does not divide
    [a2 - a1], and otherwise returns [(r, lcm(m1, m2))] with [r] congruent
    to [a1] modulo [m1], to [a2] modulo [m2], and [0 <= r < lcm(m1, m2)]. *)
Theorem crt_pair_on_moduli (a1 m1 a2 m2 : Z) :
  0 < m1 -> m2 <> 0 -> crt_pair_claim a1 m1 a2 m2.
Proof.
  intros Hm1 Hm2. unfold crt_pair_claim, crt_pair.
  destruct (egcd m1 m2) as [[g x] y] eqn:E.
  destruct (egcd_spec _ _ _ _ _ E) as (Hbez & Hgcd & Hpos & Hneg & _).
  assert (g <> 0) as Hg by lia.
  rewrite (py_mod_done _ g Hg). cbn [bind].
  assert ((a2 - a1) mod g = 0 <-> (Z.gcd m1 m2 | a2 - a1)) as Hiff.
  { rewrite <- Hgcd, Z.divide_abs_l. now apply Z.mod_divide. }
  destruct (Z.eqb_spec ((a2 - a1) mod g) 0) as [H0 | Hn0]; cbn [negb].
  - assert ((g | m1)) as [u Hu].
    { apply Z.divide_abs_l. rewrite Hgcd. apply Z.gcd_divide_l. }
    assert ((g | m2)) as [v Hv].
    { apply Z.divide_abs_l. rewrite Hgcd. apply Z.gcd_divide_r. }
    assert ((g | a2 - a1)) as [w Hw] by now apply Z.mod_divide.
    assert (0 < v) as Hvpos by nia.
    assert (0 < u * m2) as Hlcm_pos by nia.
    rewrite !py_floordiv_done by exact Hg. cbn [bind].
    replace (m1 / g) with u by (rewrite Hu; now rewrite Z.div_mul).
    replace (m2 / g) with v by (rewrite Hv; now rewrite Z.div_mul).
    replace ((a2 - a1) / g) with w by (rewrite Hw; now rewrite Z.div_mul).
    rewrite (py_mod_done _ v) by lia. cbn [bind].
    rewrite (py_mod_done _ (u * m2)) by lia. cbn [bind].
    rewrite (lcm_from_bezout m1 m2 g x y u v Hbez Hu Hv Hg) by lia.
    split; [split; [discriminate | intros Hnd; exfalso; apply Hnd, Hiff, H0] |].
    intros _. eexists. split; [reflexivity |].
    set (t := (w * x) mod v).
    pose proof (Z.div_mod (w * x) v ltac:(lia)) as Ht. fold t in Ht.
    pose proof (Z.div_mod (a1 + m1 * t) (u * m2) ltac:(lia)) as Hr.
    set (r := (a1 + m1 * t) mod (u * m2)) in *.
    set (K := (a1 + m1 * t) / (u * m2)) in *.
    set (J := (w * x) / v) in *.
    assert (u * m2 = v * m1) as Hum.
    { rewrite Hv at 1. rewrite Hu at 1. ring. }
    split; [| split].
    + exists (t - v * K).
      transitivity (m1 * t - u * m2 * K); [lia |]. rewrite Hum. ring.
    + exists (- w * y - u * J - u * K).
      assert (m1 * (w * x) = (a2 - a1) - w * y * m2) as E3.
      { rewrite Hw. transitivity (w * (m1 * x + m2 * y) - w * y * m2); [ring |].
        rewrite <- Hbez. ring. }
      assert (m1 * t = m1 * (w * x) - v * m1 * J) as E4 by (rewrite Ht; ring).
      transitivity (m1 * t - (a2 - a1) - u * m2 * K); [lia |].
      rewrite E4, E3, <- Hum. ring.
    + apply Z.mod_pos_bound. exact Hlcm_pos.
  - split; [split; [intros _ Hd; apply Hn0, Hiff, Hd | reflexivity] |].
    intros Hd. exfalso. apply Hn0, Hiff, Hd.
Qed.

(** C5, as stated: with the modulus -3 the result is (-8, -15), neither in
    range nor paired with the least common multiple 15. *)
Lemma crt_pair_claim_fails_on_negative_modulus : ~ crt_pair_claim 1 (-3) 2 5.
Proof.
  intros [_ Hret].
  destruct Hret as (r & Hr & _).
  - exists 1. reflexivity.
  - change (crt_pair 1 (-3) 2 5) with (Done (-8, -15)) in Hr.
    change (Z.lcm (-3) 5) with 15 in Hr. discriminate Hr.
Qed.

Lemma crt_pair_on_moduli_witness :
  crt_pair_claim 2 3 3 5 /\ crt_pair 2 3 3 5 = Done (8, 15).
Proof.
  split; [| reflexivity].
  apply (crt_pair_on_moduli 2 3 3 5); lia.
Defined.

(** ** The Jacobi loop always ends within its bound *)

Lemma jacobi_twos_spec (a : positive) :
  forall n r a1 r1, jacobi_twos a n r = (a1, r1) -> 0 < a1 <= Zpos a.
Proof.
  induction a as [a IH | a IH |]; intros n r a1 r1 E; cbn [jacobi_twos] in E.
  - injection E as <- _. lia.
  - apply IH in E. lia.
  - injection E as <- _. lia.
Qed.

Lemma jacobi_loop_enough (k : nat) :
  forall a n r, 0 <= a < n -> n < 2 ^ Z.of_nat k ->
    exists v, jacobi_loop (2 * k) a n r = Some v.
Proof.
  induction k as [| k IH]; intros a n r Ha Hn.
  - cbn in Hn. lia.
  - replace (2 * S k)%nat with (S (S (2 * k))) by lia.
    cbn [jacobi_loop].
    destruct (Z.eqb_spec a 0) as [_ | Ha0]; [eauto |].
    destruct (jacobi_twos (Z.to_pos a) n r) as [a1 r1] eqn:E1.
    apply jacobi_twos_spec in E1. rewrite Z2Pos.id in E1 by lia.
    set (r2 := if (n mod 4 =? 3) && (a1 mod 4 =? 3) then - r1 else r1).
    pose proof (Z.mod_pos_bound n a1 ltac:(lia)) as Hmod.
    destruct (Z.eqb_spec (n mod a1) 0) as [_ | Hn0]; [eauto |].
    destruct (jacobi_twos (Z.to_pos (n mod a1)) a1 r2) as [a1' r1'] eqn:E2.
    apply jacobi_twos_spec in E2. rewrite Z2Pos.id in E2 by lia.
    apply IH.
    + apply Z.mod_pos_bound. lia.
    + pose proof (Z.div_mod n a1 ltac:(lia)) as Hdiv.
      assert (1 <= n / a1) as Hq by (apply Z.div_le_lower_bound; lia).
      assert (a1 <= a1 * (n / a1)) by nia.
      rewrite Nat2Z.inj_succ, Z.pow_succ_r in Hn by lia. lia.
Qed.

(** [jacobi] never reaches the branch that stands for an exhausted bound. *)
Lemma jacobi_fuel_enough (a n : Z) :
  0 < n -> exists v, jacobi_loop (jacobi_fuel n) (a mod n) n 1 = Some v.
Proof.
  intros Hn. pose proof (Z.log2_nonneg n) as Hlog. unfold jacobi_fuel.
  replace (Z.to_nat (2 * Z.log2 n + 2))
    with (2 * Z.to_nat (Z.log2 n + 1))%nat by lia.
  apply jacobi_loop_enough.
  - apply Z.mod_pos_bound. exact Hn.
  - rewrite Z2Nat.id by lia. apply Z.log2_spec. exact Hn.
Qed.

(** ** Pomerance-lite generator *)

Section PomeranceLite.

Context {G : Type} `{Rng G}.

Lemma filters_loop_found (k : nat) :
  forall rng low high filter p rng',
    filters_loop k rng low high filter = Done (Some p, rng') ->
    filter p = true /\ is_probable_prime p = true.
Proof.
  induction k as [| k IH]; intros rng low high filter p rng' E;
    cbn [filters_loop] in E; [discriminate |].
  apply bind_done in E. destruct E as ([candidate rng1] & _ & E).
  destruct (filter candidate && is_probable_prime candidate) eqn:Hc.
  - injection E as <- _. now apply andb_true_iff in Hc.
  - exact (IH _ _ _ _ _ _ E).
Qed.

Lemma filters_loop_bounded (k : nat) :
  forall rng low high filter, filters_loop k rng low high filter <> OutOfFuel.
Proof.
  induction k as [| k IH]; intros rng low high filter; cbn [filters_loop];
    [discriminate |].
  destruct (random_odd_in_range rng low high) as [[candidate rng1] | e |] eqn:E;
    cbn [bind]; try discriminate.
  - destruct (filter candidate && is_probable_prime candidate);
      [discriminate | apply IH].
  - unfold random_odd_in_range in E.
    destruct (_ >? _) in E; discriminate.
Qed.

Lemma predicate_spec (p : Z) :
  predicate p = true -> p mod 8 = 3 /\ jacobi 5 p = -1.
Proof.
  unfold predicate. intros Hp. apply andb_true_iff in Hp.
  destruct Hp as [H8 Hj]. split; now apply Z.eqb_eq.
Qed.

Lemma len_app_one {A : Type} (l : list A) (x : A) : len (l ++ [x]) = len l + 1.
Proof. unfold len. rewrite length_app. cbn. lia. Qed.

(** What the accumulation loop hands back: every factor went through the
    filter, and the loop was left either by its condition (odd count,
    enough digits) or by the [break] at ten factors. *)
Lemma pomerance_lite_loop_spec (fuel : nat) :
  forall rng target prime_digits max_steps factors result,
    Forall (fun p => p mod 8 = 3 /\ jacobi 5 p = -1) factors ->
    len factors <= 9 ->
    pomerance_lite_loop fuel rng target prime_digits max_steps factors
      = Done (Some result) ->
    Forall (fun p => p mod 8 = 3 /\ jacobi 5 p = -1) result
    /\ ((len result mod 2 = 1 /\ target <= digits (prod_or_one result))
        \/ len result = 10).
Proof.
  assert (forall target factors,
            (digits (prod_or_one factors) <? target)
            || (len factors mod 2 =? 0) = false ->
            len factors mod 2 = 1 /\ target <= digits (prod_or_one factors))
    as Hexit.
  { intros target factors Hc. apply orb_false_iff in Hc.
    destruct Hc as [Hd Hl]. apply Z.ltb_ge in Hd. apply Z.eqb_neq in Hl.
    pose proof (Z.mod_pos_bound (len factors) 2 ltac:(lia)). lia. }
  induction fuel as [| fuel IH];
    intros rng target prime_digits max_steps factors result Hall Hlen E;
    cbn [pomerance_lite_loop] in E;
    destruct ((digits (prod_or_one factors) <? target)
              || (len factors mod 2 =? 0)) eqn:Hc;
    try discriminate;
    try (injection E as <-; split; [exact Hall | left; now apply Hexit]).
  apply bind_done in E. destruct E as ([[prime |] rng1] & Efind & E);
    [| discriminate].
  apply filters_loop_found in Efind. destruct Efind as [Hpred _].
  assert (Forall (fun p => p mod 8 = 3 /\ jacobi 5 p = -1) (factors ++ [prime]))
    as Hall'.
  { apply Forall_app. split; [exact Hall |].
    constructor; [now apply predicate_spec | constructor]. }
  pose proof (len_app_one factors prime) as Hlen'.
  destruct (Z.gtb_spec (len (factors ++ [prime])) 9) as [Hgt | Hle].
  - injection E as <-. split; [exact Hall' | right; lia].
  - exact (IH _ _ _ _ _ _ Hall' Hle E).
Qed.

Lemma pomerance_lite_loop_bounded (fuel : nat) :
  forall rng target prime_digits max_steps factors,
    10 <= len factors + Z.of_nat fuel -> len factors <= 9 ->
    pomerance_lite_loop fuel rng target prime_digits max_steps factors
      <> OutOfFuel.
Proof.
  induction fuel as [| fuel IH];
    intros rng target prime_digits max_steps factors Hfuel Hlen; [lia |].
  cbn [pomerance_lite_loop].
  destruct ((digits (prod_or_one factors) <? target)
            || (len factors mod 2 =? 0)); [| discriminate].
  pose proof (filters_loop_bounded (Z.to_nat max_steps) rng
                (10 ^ (prime_digits - 1)) (10 ^ prime_digits - 1) predicate)
    as Hfind.
  unfold find_prime_with_filters.
  destruct (filters_loop _ rng _ _ predicate) as [[[prime |] rng1] | e |];
    cbn [bind]; try discriminate; [| contradiction].
  pose proof (len_app_one factors prime) as Hlen'.
  destruct (Z.gtb_spec (len (factors ++ [prime])) 9) as [Hgt | Hle];
    [discriminate |].
  apply IH; lia.
Qed.

(** The generator always answers: a product, [None], or the refusal of
    an empty digit range. *)
Lemma generate_pomerance_lite_bounded (seed target prime_digits max_steps : Z) :
  generate_pomerance_lite seed target prime_digits max_steps <> OutOfFuel.
Proof.
  unfold generate_pomerance_lite.
  pose proof (pomerance_lite_loop_bounded 10 (Random seed) target prime_digits
                max_steps [] ltac:(cbn; lia) ltac:(cbn; lia)) as Hloop.
  destruct (pomerance_lite_loop 10 _ _ _ _ []) as [[factors |] | e |];
    cbn [bind]; try discriminate. contradiction.
Qed.

(** C7, as amended.  Every factor of a returned product satisfies
    [p mod 8 = 3] and [jacobi(5, p) = -1]; the number of factors is odd,
    with a product of at least [target_digits] digits, or it is 10, the
    size at which the loop is cut off. *)
Theorem pomerance_lite_factors (seed target prime_digits max_steps n : Z) (m : meta) :
  generate_pomerance_lite seed target prime_digits max_steps = Done (Some (n, m)) ->
  exists factors,
    m = pomerance_lite_meta prime_digits target factors
    /\ n = prod factors
    /\ Forall (fun p => p mod 8 = 3 /\ jacobi 5 p = -1) factors
    /\ ((len factors mod 2 = 1 /\ target <= digits n) \/ len factors = 10).
Proof.
  unfold generate_pomerance_lite. intros E.
  apply bind_done in E. destruct E as ([factors |] & Eloop & E);
    [| discriminate].
  injection E as <- <-. exists factors.
  apply pomerance_lite_loop_spec in Eloop; [| constructor | cbn; lia].
  destruct Eloop as [Hall Hcount].
  repeat split; try assumption.
  destruct Hcount as [[Hodd Hdig] | Hten]; [left | now right].
  split; [exact Hodd |].
  destruct factors; [discriminate Hodd | exact Hdig].
Qed.

End PomeranceLite.

(** C7, as stated: with one-digit primes the only admissible factor is 3,
    the default target of 22 digits is out of reach, and the product that
    comes back has ten factors. *)
Lemma pomerance_lite_even_factor_count :
  generate_pomerance_lite (G := Z) 0 22 1 5000
  = Done (Some (59049, pomerance_lite_meta 1 22 [3; 3; 3; 3; 3; 3; 3; 3; 3; 3]))
  /\ len [3; 3; 3; 3; 3; 3; 3; 3; 3; 3] mod 2 = 0.
Proof. split; vm_compute; reflexivity. Qed.

Lemma pomerance_lite_factors_witness :
  generate_pomerance_lite (G := Z) 1 10 3 5000
  = Done (Some (343971175267, pomerance_lite_meta 3 10 [107; 163; 227; 283; 307]))
  /\ exists factors,
       pomerance_lite_meta 3 10 [107; 163; 227; 283; 307]
       = pomerance_lite_meta 3 10 factors
       /\ 343971175267 = prod factors
       /\ Forall (fun p => p mod 8 = 3 /\ jacobi 5 p = -1) factors
       /\ ((len factors mod 2 = 1 /\ 10 <= digits 343971175267)
           \/ len factors = 10).
Proof.
  assert (generate_pomerance_lite (G := Z) 1 10 3 5000
          = Done (Some (343971175267,
                        pomerance_lite_meta 3 10 [107; 163; 227; 283; 307])))
    as E by (vm_compute; reflexivity).
  split; [exact E |].
  exact (pomerance_lite_factors 1 10 3 5000 _ _ E).
Defined.

(** ** The cap of ten factors does not depend on the generator *)

Section PomeranceLiteCap.

Context {G : Type} `{Rng G}.

(** The one law of [randrange] that matters here: a draw with step 2 lies
    between the bounds it was given. *)
Hypothesis randrange_bounds :
  forall rng low high, low <= high ->
    low <= fst (randrange rng low (high + 1) 2) <= high.

Lemma random_odd_in_range_bounds (rng rng' : G) (low high candidate : Z) :
  random_odd_in_range rng low high = Done (candidate, rng') ->
  low <= candidate <= high.
Proof.
  unfold random_odd_in_range.
  set (low' := if low mod 2 =? 0 then low + 1 else low).
  set (high' := if high mod 2 =? 0 then high - 1 else high).
  assert (low <= low') as Hlow by (unfold low'; destruct (low mod 2 =? 0); lia).
  assert (high' <= high) as Hhigh by (unfold high'; destruct (high mod 2 =? 0); lia).
  destruct (Z.gtb_spec low' high') as [Hgt | Hle]; [discriminate |].
  intros E. injection E as E.
  pose proof (randrange_bounds rng low' high' Hle) as Hdraw.
  rewrite E in Hdraw. cbn [fst] in Hdraw. lia.
Qed.

Lemma filters_loop_in_range (k : nat) :
  forall rng low high filter p rng',
    filters_loop k rng low high filter = Done (Some p, rng') ->
    low <= p <= high /\ filter p = true.
Proof.
  induction k as [| k IH]; intros rng low high filter p rng' E;
    cbn [filters_loop] in E; [discriminate |].
  apply bind_done in E. destruct E as ([candidate rng1] & Edraw & E).
  destruct (filter candidate && is_probable_prime candidate) eqn:Hc.
  - injection E as <- _. apply andb_true_iff in Hc.
    split; [exact (random_odd_in_range_bounds _ _ _ _ _ Edraw) | apply Hc].
  - exact (IH _ _ _ _ _ _ E).
Qed.

Lemma one_digit_factor_is_3 (p : Z) : 1 <= p <= 9 -> predicate p = true -> p = 3.
Proof.
  intros Hp Hpred. apply predicate_spec in Hpred. destruct Hpred as [H8 _].
  assert (p = 1 \/ p = 2 \/ p = 3 \/ p = 4 \/ p = 5 \/ p = 6 \/ p = 7 \/ p = 8 \/ p = 9)
    as Hcases by lia.
  decompose [or] Hcases; subst p; (reflexivity || discriminate H8).
Qed.

Lemma short_of_22_digits (k : nat) :
  (k <= 9)%nat ->
  (digits (prod_or_one (repeat 3 k)) <? 22) || (len (repeat 3 k) mod 2 =? 0) = true.
Proof.
  intros Hk.
  do 10 (destruct k as [| k]; [vm_compute; reflexivity |]). lia.
Qed.

Lemma pomerance_lite_loop_one_digit (fuel : nat) :
  forall rng max_steps k result, (k <= 9)%nat ->
    pomerance_lite_loop fuel rng 22 1 max_steps (repeat 3 k) = Done (Some result) ->
    result = repeat 3 10.
Proof.
  induction fuel as [| fuel IH]; intros rng max_steps k result Hk E;
    cbn [pomerance_lite_loop] in E; rewrite (short_of_22_digits k Hk) in E;
    [discriminate |].
  apply bind_done in E. destruct E as ([[prime |] rng1] & Efind & E);
    [| discriminate].
  apply filters_loop_in_range in Efind. destruct Efind as [Hrange Hpred].
  change (10 ^ (1 - 1)) with 1 in Hrange. change (10 ^ 1 - 1) with 9 in Hrange.
  rewrite (one_digit_factor_is_3 prime Hrange Hpred) in E.
  rewrite <- repeat_cons in E. change (3 :: repeat 3 k) with (repeat 3 (S k)) in E.
  assert (len (repeat 3 (S k)) = Z.of_nat (S k)) as Hlen
    by (unfold len; now rewrite repeat_length).
  rewrite Hlen in E.
  destruct (Z.gtb_spec (Z.of_nat (S k)) 9) as [Hgt | Hle].
  - assert (k = 9%nat) as -> by lia. injection E as <-. reflexivity.
  - apply (IH rng1 max_steps (S k)); [lia | exact E].
Qed.

(** With one-digit primes and the default target of 22 digits, a product
    that comes back is 3^10, for every generator that respects the bounds
    of its draws, every seed and every step budget. *)
Lemma pomerance_lite_one_digit_product (seed max_steps n : Z) (m : meta) :
  generate_pomerance_lite seed 22 1 max_steps = Done (Some (n, m)) ->
  n = 59049 /\ m = pomerance_lite_meta 1 22 (repeat 3 10).
Proof.
  unfold generate_pomerance_lite. intros E.
  apply bind_done in E. destruct E as ([factors |] & Eloop & E); [| discriminate].
  apply (pomerance_lite_loop_one_digit 10 _ _ 0%nat) in Eloop; [| lia].
  subst factors. injection E as <- <-. split; reflexivity.
Qed.

End PomeranceLiteCap.

(** The generator used for running the model respects the bounds. *)
Lemma counter_rng_bounds (rng low high : Z) :
  low <= high -> low <= fst (counter_randrange rng low (high + 1) 2) <= high.
Proof.
  intros Hle. unfold counter_randrange. cbn [fst].
  set (width := (high + 1 - low + 2 - 1) / 2).
  assert (2 * width <= high + 1 - low + 2 - 1) as Hwidth
    by (apply Z.mul_div_le; lia).
  assert (0 < width) as Hpos by (apply Z.div_str_pos; lia).
  pose proof (Z.mod_pos_bound rng width Hpos). lia.
Qed.

(** ** Task executor *)

Section ExecutorCounts.

Context {G : Type} `{Rng G}.
Variable gmpy2 : option (Z -> option bool).
Variable fuel : nat.

Lemma test_candidate_done (n : Z) (m : meta) (st st' : State) :
  test_candidate gmpy2 fuel n m st = Done st' ->
  checked st' = checked st
  /\ tested st' = tested st ++ [n]
  /\ errors st' = errors st
  /\ len (hits st) <= len (hits st') <= len (hits st) + 1.
Proof.
  unfold test_candidate. intros E.
  apply bind_done in E. destruct E as (verdict & _ & E).
  injection E as <-. cbn. repeat split; try reflexivity;
    destruct verdict; rewrite ?len_app_one; lia.
Qed.

Lemma range_loop_counts (args : Args) (ns : list Z) :
  forall st st', range_loop gmpy2 fuel args ns st = Done st' ->
    checked st' - checked st = len (tested st') - len (tested st)
    /\ checked st' <= checked st + len ns
    /\ (max_candidates args = 0 -> checked st' = checked st + len ns)
    /\ len (hits st') <= len (hits st) + len ns.
Proof.
  induction ns as [| n rest IH]; intros st st' E; cbn [range_loop] in E.
  - injection E as <-. unfold len. cbn. repeat split; lia.
  - assert (len (n :: rest) = len rest + 1) as Hcons by (unfold len; cbn; lia).
    assert (0 <= len rest) as Hrest by (unfold len; lia).
    destruct (negb (max_candidates args =? 0)
              && (checked st >=? max_candidates args)) eqn:Hcap.
    + injection E as <-.
      split; [lia |]. split; [lia |]. split; [| lia].
      intros Hmax. rewrite Hmax in Hcap. discriminate Hcap.
    + apply bind_done in E. destruct E as (st1 & Etest & E).
      apply test_candidate_done in Etest.
      destruct Etest as (Hc & Ht & He & Hh).
      destruct (IH _ _ E) as (IHc & IHle & IHmax & IHh).
      cbn [count checked tested errors hits] in Hc, Ht, He, Hh.
      rewrite Ht, len_app_one in IHc.
      split; [lia |]. split; [lia |]. split; [| lia].
      intros Hmax. specialize (IHmax Hmax). lia.
Qed.

Lemma chernick_loop_counts (args : Args) (ks : list Z) :
  forall st st', chernick_loop gmpy2 fuel args ks st = Done st' ->
    checked st' = checked st + len ks
    /\ tested st'
       = tested st ++ chernick_candidates (require_prime_factors args) ks
    /\ errors st' = errors st.
Proof.
  induction ks as [| k rest IH]; intros st st' E; cbn [chernick_loop] in E.
  - injection E as <-. cbn. rewrite app_nil_r. repeat split; lia.
  - assert (len (k :: rest) = len rest + 1) as Hcons by (unfold len; cbn; lia).
    cbn [chernick_candidates flat_map].
    fold (chernick_candidates (require_prime_factors args) rest).
    destruct (generate_chernick k (require_prime_factors args)) as [[n m] |].
    + apply bind_done in E. destruct E as (st1 & Etest & E).
      apply test_candidate_done in Etest.
      destruct Etest as (Hc & Ht & He & _).
      destruct (IH _ _ E) as (IHc & IHt & IHe).
      cbn [count checked tested errors] in Hc, Ht, He.
      rewrite IHt, Ht, <- app_assoc. repeat split; try lia; congruence.
    + destruct (IH _ _ E) as (IHc & IHt & IHe).
      cbn [count checked tested errors] in IHc, IHt, IHe.
      repeat split; try lia; assumption.
Qed.

Lemma seed_loop_counts (args : Args) (m_primes n_primes : list Z)
  (lambda_factors : list (Z * Z)) (seeds : list Z) :
  forall st st',
    seed_loop gmpy2 fuel args m_primes n_primes lambda_factors seeds st = Done st' ->
    checked st' = checked st + len seeds
    /\ len (tested st') + len (errors st')
       = len (tested st) + len (errors st) + len seeds.
Proof.
  induction seeds as [| seed rest IH]; intros st st' E; cbn [seed_loop] in E.
  - injection E as <-. unfold len. cbn. lia.
  - assert (len (seed :: rest) = len rest + 1) as Hcons by (unfold len; cbn; lia).
    apply bind_done in E. destruct E as ([[n m] |] & _ & E).
    + apply bind_done in E. destruct E as (st1 & Etest & E).
      apply test_candidate_done in Etest.
      destruct Etest as (Hc & Ht & He & _).
      destruct (IH _ _ E) as (IHc & IHt).
      cbn [count checked tested errors] in Hc, Ht, He.
      rewrite Ht, He, len_app_one in IHt. lia.
    + destruct (IH _ _ E) as (IHc & IHt).
      cbn [add_error count checked tested errors] in IHc, IHt.
      rewrite len_app_one in IHt. lia.
Qed.

(** C9, as amended.  [checked] is the number of elements of the input
    domain that the loop went through.  In range mode each of them is
    tested, so [checked] is the number of primality tests.  In Chernick
    mode it is the number of values [k], and only the products that the
    generator yields are tested.  In seed mode it is the number of seeds,
    which is the number of primality tests plus the number of error
    records.  Factors that the generators draw are counted nowhere. *)
Theorem checked_counts_iterations (args : Args) (st : State) :
  execute gmpy2 fuel args = Done st ->
  let report := payload args st in
  match task_type args with
  | main_odds | large_numbers =>
      report_checked report = len (tested st)
      /\ report_checked report <= len (range_domain args)
  | chernick =>
      report_checked report = len (chernick_domain args)
      /\ tested st
         = chernick_candidates (require_prime_factors args) (chernick_domain args)
  | _ =>
      report_checked report = len (seed_domain args)
      /\ report_checked report = len (tested st) + len (report_errors report)
  end.
Proof.
  unfold execute, payload. cbn [report_checked report_errors].
  assert (forall ns st',
            range_loop gmpy2 fuel args ns initial_state = Done st' ->
            checked st' = len (tested st') /\ checked st' <= len ns)
    as Hrange.
  { intros ns st' E. apply range_loop_counts in E.
    destruct E as (Hc & Hle & _ & _). cbn in Hc, Hle. unfold len in *. lia. }
  assert (forall m n l seeds st',
            seed_loop gmpy2 fuel args m n l seeds initial_state = Done st' ->
            checked st' = len seeds
            /\ checked st' = len (tested st') + len (errors st'))
    as Hseed.
  { intros m n l seeds st' E. apply seed_loop_counts in E.
    cbn in E. unfold len in *. cbn in *. lia. }
  destruct (task_type args); intros E.
  - destruct ((start args =? 0) && (end_ args =? 0)); [discriminate |].
    now apply Hrange.
  - destruct ((start args =? 0) && (end_ args =? 0)); [discriminate |].
    now apply Hrange.
  - destruct ((start args =? 0) && (end_ args =? 0)); [discriminate |].
    apply chernick_loop_counts in E. cbn in E. exact (conj (proj1 E) (proj1 (proj2 E))).
  - destruct (_ && _) in E; [discriminate |]. now apply Hseed in E.
  - destruct (_ && _) in E; [discriminate |]. now apply Hseed in E.
  - destruct (_ && _) in E; [discriminate |]. now apply Hseed in E.
Qed.

End ExecutorCounts.

(** C9, as stated: for [k = 2] the factor 25 fails the filter, no product is
    generated and nothing is tested, yet [checked] is 1. *)
Lemma checked_exceeds_tested_on_chernick_2 :
  exists st,
    execute (G := Z) None 0 chernick_2_args = Done st
    /\ report_checked (payload chernick_2_args st) = 1
    /\ tested st = []
    /\ report_checked (payload chernick_2_args st) <> len (tested st).
Proof.
  eexists. split; [vm_compute; reflexivity |].
  cbn. repeat split. discriminate.
Qed.

Lemma checked_counts_iterations_witness :
  exists st,
    execute (G := Z) None 0 chernick_2_args = Done st
    /\ report_checked (payload chernick_2_args st) = len (chernick_domain chernick_2_args)
    /\ tested st = chernick_candidates true (chernick_domain chernick_2_args).
Proof.
  assert (execute (G := Z) None 0 chernick_2_args
          = Done {| hits := []; errors := []; checked := 1; tested := [] |})
    as E by (vm_compute; reflexivity).
  eexists. split; [exact E |].
  exact (checked_counts_iterations None 0 chernick_2_args _ E).
Defined.

(** ** The run [--task-type main_odds --start 2 --end 100] *)

(** The range loop depends on the backend only through the verdicts on the
    numbers it visits. *)
Lemma range_loop_ext {G : Type} `{Rng G} gmpy2 gmpy2' (fuel fuel' : nat)
  (args : Args) (ns : list Z) :
  (forall n, In n ns ->
     is_bpsw_probable_prime gmpy2 fuel n = is_bpsw_probable_prime gmpy2' fuel' n) ->
  forall st, range_loop gmpy2 fuel args ns st = range_loop gmpy2' fuel' args ns st.
Proof.
  induction ns as [| n rest IH]; intros Hsame st; cbn [range_loop]; [reflexivity |].
  destruct (negb (max_candidates args =? 0) && (checked st >=? max_candidates args));
    [reflexivity |].
  unfold test_candidate. rewrite (Hsame n) by (left; reflexivity).
  destruct (is_bpsw_probable_prime gmpy2' fuel' n) as [verdict | e |];
    cbn [bind]; try reflexivity.
  apply IH. intros k Hk. apply Hsame. right. exact Hk.
Qed.

Lemma main_eq {G : Type} `{Rng G} gmpy2 (fuel : nat) (args : Args) :
  main gmpy2 fuel args
  = bind (execute gmpy2 fuel args) (fun st => Done (payload args st)).
Proof. reflexivity. Qed.

Lemma execute_range_mode {G : Type} `{Rng G} gmpy2 (fuel : nat) (args : Args) :
  task_type args = main_odds \/ task_type args = large_numbers ->
  (start args =? 0) && (end_ args =? 0) = false ->
  execute gmpy2 fuel args
  = range_loop gmpy2 fuel args (range_domain args) initial_state.
Proof.
  intros [Ht | Ht] Hz; unfold execute, range_domain; rewrite Ht, Hz; reflexivity.
Qed.

Lemma range_domain_2_100 :
  len (range_domain (default_args main_odds 2 100)) = 49.
Proof. vm_compute. reflexivity. Qed.

Lemma range_domain_2_100_list :
  range_domain (default_args main_odds 2 100) = odds_3_to_99.
Proof. vm_compute. reflexivity. Qed.

(** Without a cap the range loop hands every number of its list to the
    primality test. *)
Lemma range_loop_tests_all {G : Type} `{Rng G} gmpy2 (fuel : nat) (args : Args)
  (ns : list Z) :
  max_candidates args = 0 ->
  forall st st', range_loop gmpy2 fuel args ns st = Done st' ->
    tested st' = tested st ++ ns.
Proof.
  intros Hcap. induction ns as [| n rest IH]; intros st st' E;
    cbn [range_loop] in E.
  - injection E as <-. now rewrite app_nil_r.
  - rewrite Hcap in E. cbn [Z.eqb negb andb] in E.
    apply bind_done in E. destruct E as (st1 & Etest & E).
    apply test_candidate_done in Etest. destruct Etest as (_ & Ht & _ & _).
    cbn [count tested] in Ht.
    rewrite (IH _ _ E), Ht, <- app_assoc. reflexivity.
Qed.

(** On the odd numbers from 3 to 99 the module's own test answers within
    four turns of the D-selection loop, and so with any larger budget. *)
Lemma own_test_answers_on_3_to_99 (fuel : nat) (n : Z) :
  (4 <= fuel)%nat -> In n odds_3_to_99 ->
  is_bpsw_probable_prime None fuel n = is_bpsw_probable_prime None 4 n.
Proof.
  intros Hfuel Hin.
  assert (exists b, is_bpsw_probable_prime None 4 n = Done b) as [b E].
  { unfold odds_3_to_99 in Hin.
    repeat (destruct Hin as [<- | Hin]; [eexists; vm_compute; reflexivity |]).
    contradiction. }
  rewrite E. replace fuel with ((fuel - 4) + 4)%nat by lia.
  apply bpsw_more_fuel. exact E.
Qed.

(** C8, as amended.  The run tests the 49 odd numbers 3, 5, ..., 99, the
    start 2 being moved up to 3, so 2 is never tested: every final state
    has these as its tested numbers, and its report has [checked = 49] and
    at most 49 hits.  The run does produce a report: on the module's own
    path as soon as the D-selection loop is given four turns, and with any
    library backend.  With a library backend that accepts the thirteen
    primes from 41 to 97, which trial division leaves open, the report has
    [hit_count = 24], one hit for each odd prime below 100. *)
Theorem main_odds_2_to_100 {G : Type} `{Rng G} :
  (forall gmpy2 fuel st,
      execute gmpy2 fuel (default_args main_odds 2 100) = Done st ->
      main gmpy2 fuel (default_args main_odds 2 100)
      = Done (payload (default_args main_odds 2 100) st)
      /\ tested st = odds_3_to_99
      /\ ~ In 2 (tested st)
      /\ report_checked (payload (default_args main_odds 2 100) st) = 49
      /\ hit_count (payload (default_args main_odds 2 100) st) <= 49)
  /\ (forall fuel, (4 <= fuel)%nat ->
        exists st,
          execute None fuel (default_args main_odds 2 100) = Done st
          /\ main None fuel (default_args main_odds 2 100)
             = Done (payload (default_args main_odds 2 100) st)
          /\ tested st = odds_3_to_99
          /\ report_checked (payload (default_args main_odds 2 100) st) = 49)
  /\ (forall fuel is_bpsw_prp,
        (forall p, In p primes_41_to_97 -> is_bpsw_prp p = Some true) ->
        exists st,
          execute (Some is_bpsw_prp) fuel (default_args main_odds 2 100) = Done st
          /\ main (Some is_bpsw_prp) fuel (default_args main_odds 2 100)
             = Done (payload (default_args main_odds 2 100) st)
          /\ tested st = odds_3_to_99
          /\ report_checked (payload (default_args main_odds 2 100) st) = 49
          /\ hit_count (payload (default_args main_odds 2 100) st) = 24).
Proof.
  assert (forall gmpy2 fuel st,
             execute gmpy2 fuel (default_args main_odds 2 100) = Done st ->
             main gmpy2 fuel (default_args main_odds 2 100)
             = Done (payload (default_args main_odds 2 100) st)
             /\ tested st = odds_3_to_99
             /\ ~ In 2 (tested st)
             /\ report_checked (payload (default_args main_odds 2 100) st) = 49
             /\ hit_count (payload (default_args main_odds 2 100) st) <= 49)
    as Hall.
  { intros gmpy2 fuel st E.
    split; [rewrite main_eq, E; reflexivity |].
    rewrite execute_range_mode in E by (left; reflexivity) || reflexivity.
    pose proof (range_loop_tests_all gmpy2 fuel (default_args main_odds 2 100) _
                  eq_refl _ _ E) as Htested.
    rewrite range_domain_2_100_list in Htested. cbn [initial_state tested app] in Htested.
    apply range_loop_counts in E. destruct E as (_ & _ & Hmax & Hhits).
    specialize (Hmax eq_refl). rewrite range_domain_2_100 in Hmax, Hhits.
    split; [exact Htested |]. split; [| split; [exact Hmax | exact Hhits]].
    rewrite Htested. unfold odds_3_to_99. intros Hin.
    repeat (destruct Hin as [Hin | Hin]; [discriminate Hin |]).
    contradiction. }
  split; [exact Hall |]. split.
  - intros fuel Hfuel.
    assert (execute None fuel (default_args main_odds 2 100)
            = execute None 4 (default_args main_odds 2 100)) as Esame.
    { rewrite !execute_range_mode by (left; reflexivity) || reflexivity.
      rewrite range_domain_2_100_list.
      apply (range_loop_ext None None fuel 4).
      intros n Hin. apply own_test_answers_on_3_to_99; assumption. }
    assert (exists st, execute None 4 (default_args main_odds 2 100) = Done st)
      as [st E] by (eexists; vm_compute; reflexivity).
    rewrite <- Esame in E. exists st. split; [exact E |].
    destruct (Hall _ _ _ E) as (Hmain & Htested & _ & Hchecked & _).
    split; [exact Hmain |]. split; [exact Htested | exact Hchecked].
  - intros fuel is_bpsw_prp Haccept.
    assert (execute (Some is_bpsw_prp) fuel (default_args main_odds 2 100)
            = execute (Some reference_is_prime) 0 (default_args main_odds 2 100))
      as Esame.
    { rewrite !execute_range_mode by (left; reflexivity) || reflexivity.
      apply (range_loop_ext (Some is_bpsw_prp) (Some reference_is_prime) fuel 0).
      intros n Hin. vm_compute in Hin.
      repeat (destruct Hin as [<- | Hin];
              [vm_compute; rewrite ?Haccept by (vm_compute; tauto); reflexivity |]).
      contradiction. }
    assert (exists st,
               execute (Some reference_is_prime) 0 (default_args main_odds 2 100)
               = Done st
               /\ hit_count (payload (default_args main_odds 2 100) st) = 24)
      as (st & E & Hhits)
      by (eexists; split; [vm_compute; reflexivity | reflexivity]).
    rewrite <- Esame in E. exists st. split; [exact E |].
    destruct (Hall _ _ _ E) as (Hmain & Htested & _ & Hchecked & _).
    split; [exact Hmain |]. split; [exact Htested |].
    split; [exact Hchecked | exact Hhits].
Qed.

(** C8, as stated: whatever the backend, 49 numbers are tested and at most
    24 of them are prime; the module's own Lucas stage leaves 12 hits. *)
Lemma main_odds_2_to_100_counts :
  (exists report,
      main (G := Z) (Some reference_is_prime) 0 (default_args main_odds 2 100)
      = Done report
      /\ report_checked report = 49 /\ hit_count report = 24)
  /\ (exists report,
         main (G := Z) None 4 (default_args main_odds 2 100) = Done report
         /\ report_checked report = 49 /\ hit_count report = 12).
Proof.
  split; (eexists; split; [vm_compute; reflexivity | split; reflexivity]).
Qed.

Lemma main_odds_2_to_100_witness :
  (exists st,
      execute (G := Z) None 4 (default_args main_odds 2 100) = Done st
      /\ main None 4 (default_args main_odds 2 100)
         = Done (payload (default_args main_odds 2 100) st)
      /\ tested st = odds_3_to_99
      /\ report_checked (payload (default_args main_odds 2 100) st) = 49)
  /\ (exists st,
        execute (G := Z) (Some reference_is_prime) 0 (default_args main_odds 2 100)
        = Done st
        /\ main (Some reference_is_prime) 0 (default_args main_odds 2 100)
           = Done (payload (default_args main_odds 2 100) st)
        /\ tested st = odds_3_to_99
        /\ report_checked (payload (default_args main_odds 2 100) st) = 49
        /\ hit_count (payload (default_args main_odds 2 100) st) = 24).
Proof.
  split.
  - apply (proj1 (proj2 (main_odds_2_to_100 (G := Z))) 4%nat). lia.
  - apply (proj2 (proj2 (main_odds_2_to_100 (G := Z))) 0%nat reference_is_prime).
    intros p Hp. unfold primes_41_to_97 in Hp.
    repeat (destruct Hp as [<- | Hp]; [vm_compute; reflexivity |]).
    contradiction.
Defined.

(** ** Where the executor can fail to answer *)

Lemma bind_bounded {A B : Type} (m : outcome A) (k : A -> outcome B) :
  m <> OutOfFuel -> (forall a, m = Done a -> k a <> OutOfFuel) ->
  bind m k <> OutOfFuel.
Proof.
  intros Hm Hk. destruct m as [a | e |]; cbn [bind].
  - now apply Hk.
  - discriminate.
  - contradiction.
Qed.

Lemma py_mod_bounded (a b : Z) : py_mod a b <> OutOfFuel.
Proof. unfold py_mod. destruct (b =? 0); discriminate. Qed.

Lemma py_floordiv_bounded (a b : Z) : py_floordiv a b <> OutOfFuel.
Proof. unfold py_floordiv. destruct (b =? 0); discriminate. Qed.

Lemma crt_pair_bounded (a1 m1 a2 m2 : Z) : crt_pair a1 m1 a2 m2 <> OutOfFuel.
Proof.
  unfold crt_pair. destruct (egcd m1 m2) as [[g x] y].
  apply bind_bounded; [apply py_mod_bounded |]. intros r _.
  destruct (negb (r =? 0)); [discriminate |].
  apply bind_bounded; [apply py_floordiv_bounded |]. intros q1 _.
  apply bind_bounded; [apply py_floordiv_bounded |]. intros q2 _.
  apply bind_bounded; [apply py_floordiv_bounded |]. intros q3 _.
  apply bind_bounded; [apply py_mod_bounded |]. intros t _.
  apply bind_bounded; [apply py_mod_bounded |]. intros result _.
  discriminate.
Qed.

Lemma combine_constraints_bounded (constraints : list (Z * Z)) :
  forall residue modulus,
    combine_constraints constraints residue modulus <> OutOfFuel.
Proof.
  induction constraints as [| [a m] rest IH]; intros residue modulus;
    cbn [combine_constraints]; [discriminate |].
  destruct (m =? 1); [apply IH |].
  apply bind_bounded; [apply py_mod_bounded |]. intros a_mod_m _.
  apply bind_bounded; [apply crt_pair_bounded |]. intros [residue' modulus'] _.
  apply IH.
Qed.

Lemma build_mod_constraint_bounded (m_primes n_primes : list Z) (mod5_residue : Z) :
  build_mod_constraint m_primes n_primes mod5_residue <> OutOfFuel.
Proof.
  unfold build_mod_constraint, build_constraints.
  apply bind_bounded.
  - apply bind_bounded; [apply py_mod_bounded | discriminate].
  - intros constraints _. apply combine_constraints_bounded.
Qed.

Section GeneratorsAnswer.

Context {G : Type} `{Rng G}.

Lemma random_odd_in_range_bounded (rng : G) (low high : Z) :
  random_odd_in_range rng low high <> OutOfFuel.
Proof. unfold random_odd_in_range. destruct (_ >? _); discriminate. Qed.

Lemma find_prime_in_progression_bounded (rng : G)
  (digits_count residue modulus max_steps : Z) (filter : option (Z -> bool)) :
  find_prime_in_progression rng digits_count residue modulus max_steps filter
  <> OutOfFuel.
Proof.
  unfold find_prime_in_progression. destruct (modulus <=? 0); [discriminate |].
  apply bind_bounded; [apply random_odd_in_range_bounded |].
  intros [start rng'] _. discriminate.
Qed.

Lemma pomerance_modular_loop_bounded (fuel : nat) :
  forall rng target prime_digits max_steps residue modulus factors,
    10 <= len factors + Z.of_nat fuel -> len factors <= 9 ->
    pomerance_modular_loop fuel rng target prime_digits max_steps residue modulus
      factors <> OutOfFuel.
Proof.
  induction fuel as [| fuel IH];
    intros rng target prime_digits max_steps residue modulus factors Hfuel Hlen;
    [lia |].
  cbn [pomerance_modular_loop].
  destruct ((digits (prod_or_one factors) <? target)
            || (len factors mod 2 =? 0)); [| discriminate].
  apply bind_bounded; [apply find_prime_in_progression_bounded |].
  intros [[prime |] rng'] _; [| discriminate].
  pose proof (len_app_one factors prime) as Hlen'.
  destruct (Z.gtb_spec (len (factors ++ [prime])) 9); [discriminate |].
  apply IH; lia.
Qed.

Lemma generate_pomerance_modular_bounded
  (seed target prime_digits max_steps : Z) (m_primes n_primes : list Z)
  (mod5_residue : Z) :
  generate_pomerance_modular seed target prime_digits max_steps m_primes n_primes
    mod5_residue <> OutOfFuel.
Proof.
  unfold generate_pomerance_modular.
  apply bind_bounded; [apply build_mod_constraint_bounded |].
  intros [residue modulus] _.
  apply bind_bounded.
  - apply pomerance_modular_loop_bounded; cbn; lia.
  - intros [factors |] _; discriminate.
Qed.

Lemma lambda_draw_bounded (lambda_factors : list (Z * Z)) :
  forall rng d, lambda_draw rng lambda_factors d <> OutOfFuel.
Proof.
  induction lambda_factors as [| [base max_exp] rest IH]; intros rng d;
    cbn [lambda_draw]; [discriminate |].
  apply bind_bounded.
  - unfold py_randint. destruct (max_exp <? 0); discriminate.
  - intros [exp rng'] _. apply IH.
Qed.

Lemma lambda_attempts_bounded (k : nat) :
  forall rng lambda_factors require_prime,
    lambda_attempts k rng lambda_factors require_prime <> OutOfFuel.
Proof.
  induction k as [| k IH]; intros rng lambda_factors require_prime;
    cbn [lambda_attempts]; [discriminate |].
  apply bind_bounded; [apply lambda_draw_bounded |].
  intros [d rng'] _.
  destruct ((d + 1 >? 2) && (negb require_prime || is_probable_prime (d + 1)));
    [discriminate | apply IH].
Qed.

Lemma lambda_loop_bounded (fuel : nat) :
  forall rng target lambda_factors require_prime max_steps factors,
    10 <= len factors + Z.of_nat fuel -> len factors <= 9 ->
    lambda_loop fuel rng target lambda_factors require_prime max_steps factors
    <> OutOfFuel.
Proof.
  induction fuel as [| fuel IH];
    intros rng target lambda_factors require_prime max_steps factors Hfuel Hlen;
    [lia |].
  cbn [lambda_loop].
  destruct ((digits (prod_or_one factors) <? target)
            || (len factors mod 2 =? 0)); [| discriminate].
  apply bind_bounded; [apply lambda_attempts_bounded |].
  intros [[p |] rng'] _; [| discriminate].
  pose proof (len_app_one factors p) as Hlen'.
  destruct (Z.gtb_spec (len (factors ++ [p])) 9); [discriminate |].
  apply IH; lia.
Qed.

Lemma generate_lambda_plus_one_bounded (seed target : Z)
  (lambda_factors : list (Z * Z)) (require_prime : bool) (max_steps : Z) :
  generate_lambda_plus_one seed target lambda_factors require_prime max_steps
  <> OutOfFuel.
Proof.
  unfold generate_lambda_plus_one.
  apply bind_bounded.
  - apply lambda_loop_bounded; cbn; lia.
  - intros [factors |] _; discriminate.
Qed.

Lemma generate_bounded (args : Args) (m_primes n_primes : list Z)
  (lambda_factors : list (Z * Z)) (seed : Z) :
  generate args m_primes n_primes lambda_factors seed <> OutOfFuel.
Proof.
  unfold generate. destruct (task_type args); try discriminate.
  - apply generate_pomerance_lite_bounded.
  - apply generate_pomerance_modular_bounded.
  - apply generate_lambda_plus_one_bounded.
Qed.

Variable is_bpsw_prp : Z -> option bool.
Variable fuel : nat.

Lemma test_candidate_backend_bounded (n : Z) (m : meta) (st : State) :
  test_candidate (Some is_bpsw_prp) fuel n m st <> OutOfFuel.
Proof.
  unfold test_candidate, is_bpsw_probable_prime.
  destruct (n <? 2); [discriminate |].
  destruct (trial_division n SMALL_PRIMES); discriminate.
Qed.

Lemma range_loop_backend_bounded (args : Args) (ns : list Z) :
  forall st, range_loop (Some is_bpsw_prp) fuel args ns st <> OutOfFuel.
Proof.
  induction ns as [| n rest IH]; intros st; cbn [range_loop]; [discriminate |].
  destruct (negb (max_candidates args =? 0) && (checked st >=? max_candidates args));
    [discriminate |].
  apply bind_bounded; [apply test_candidate_backend_bounded |].
  intros st' _. apply IH.
Qed.

Lemma chernick_loop_backend_bounded (args : Args) (ks : list Z) :
  forall st, chernick_loop (Some is_bpsw_prp) fuel args ks st <> OutOfFuel.
Proof.
  induction ks as [| k rest IH]; intros st; cbn [chernick_loop]; [discriminate |].
  destruct (generate_chernick k (require_prime_factors args)) as [[n m] |];
    [| apply IH].
  apply bind_bounded; [apply test_candidate_backend_bounded |].
  intros st' _. apply IH.
Qed.

Lemma seed_loop_backend_bounded (args : Args) (m_primes n_primes : list Z)
  (lambda_factors : list (Z * Z)) (seeds : list Z) :
  forall st,
    seed_loop (Some is_bpsw_prp) fuel args m_primes n_primes lambda_factors seeds st
    <> OutOfFuel.
Proof.
  induction seeds as [| seed rest IH]; intros st; cbn [seed_loop]; [discriminate |].
  apply bind_bounded; [apply generate_bounded |].
  intros [[n m] |] _; [| apply IH].
  apply bind_bounded; [apply test_candidate_backend_bounded |].
  intros st' _. apply IH.
Qed.

(** With the library backend every run ends: in a report or in one of the
    exceptions.  The only way not to answer is the D-selection loop of the
    module's own Lucas test. *)
Lemma main_with_backend_answers (args : Args) :
  main (Some is_bpsw_prp) fuel args <> OutOfFuel.
Proof.
  unfold main. apply bind_bounded; [| discriminate].
  unfold execute. destruct (task_type args).
  - destruct (_ && _); [discriminate | apply range_loop_backend_bounded].
  - destruct (_ && _); [discriminate | apply range_loop_backend_bounded].
  - destruct (_ && _); [discriminate | apply chernick_loop_backend_bounded].
  - destruct (_ && _); [discriminate | apply seed_loop_backend_bounded].
  - destruct (_ && _); [discriminate | apply seed_loop_backend_bounded].
  - destruct (_ && _); [discriminate | apply seed_loop_backend_bounded].
Qed.

End GeneratorsAnswer.

(** ** Instances of the statements on concrete inputs *)

Lemma miller_rabin_small_and_prime_witness :
  miller_rabin 1 [2] = false
  /\ miller_rabin 2 [3] = true
  /\ miller_rabin 10 [3] = false
  /\ miller_rabin 13 [2; 3] = true.
Proof.
  destruct miller_rabin_small_and_prime as (Hlow & Htwo & Heven & Hprime).
  split; [apply Hlow; lia |].
  split; [apply Htwo |].
  split; [apply Heven; [lia | reflexivity] |].
  apply Hprime; [exact prime_13 | reflexivity | lia | discriminate].
Defined.

Lemma miller_rabin_no_bases_witness : miller_rabin 9 [] = true.
Proof. apply (miller_rabin_no_bases 9); [lia | reflexivity]. Defined.

(** * Further properties of the module *)

(** ** Further properties of the arithmetic primitives *)

(** X1. [is_square] answers true exactly on the squares of the natural
    numbers; in particular it answers false on every negative number. *)
Theorem is_square_iff (n : Z) :
  is_square n = true <-> exists k, 0 <= k /\ n = k * k.
Proof.
  unfold is_square. split.
  - destruct (Z.ltb_spec n 0) as [_ | Hn]; [discriminate |].
    intros Hroot. apply Z.eqb_eq in Hroot.
    exists (Z.sqrt n). split; [apply Z.sqrt_nonneg | now symmetry].
  - intros (k & Hk & ->).
    destruct (Z.ltb_spec (k * k) 0) as [Hneg | _]; [nia |].
    rewrite Z.sqrt_square by exact Hk. apply Z.eqb_refl.
Qed.

Lemma jacobi_twos_sign (a : positive) :
  forall n r a1 r1, jacobi_twos a n r = (a1, r1) ->
    r = 1 \/ r = -1 -> r1 = 1 \/ r1 = -1.
Proof.
  induction a as [a IH | a IH |]; intros n r a1 r1 E Hr; cbn [jacobi_twos] in E.
  - injection E as _ <-. exact Hr.
  - apply IH in E; [exact E |].
    destruct ((n mod 8 =? 3) || (n mod 8 =? 5)); lia.
  - injection E as _ <-. exact Hr.
Qed.

Lemma jacobi_twos_odd (a : positive) :
  forall n r a1 r1, jacobi_twos a n r = (a1, r1) -> a1 mod 2 = 1.
Proof.
  induction a as [a IH | a IH |]; intros n r a1 r1 E; cbn [jacobi_twos] in E.
  - injection E as <- _. rewrite Pos2Z.inj_xI, Z.add_comm, Z.mul_comm.
    now rewrite Z_mod_plus_full.
  - exact (IH _ _ _ _ E).
  - injection E as <- _. reflexivity.
Qed.

(** Halving an even [a] does not change its gcd with an odd [n]. *)
Lemma gcd_double_odd (a n : Z) : n mod 2 = 1 -> Z.gcd (2 * a) n = Z.gcd a n.
Proof.
  intros Hodd.
  apply Z.divide_antisym_nonneg; try apply Z.gcd_nonneg.
  - apply Z.gcd_greatest; [| apply Z.gcd_divide_r].
    apply (Z.gauss _ 2).
    + apply Z.gcd_divide_l.
    + pose proof (Z.gcd_divide_r (2 * a) n) as Hn.
      pose proof (Z.gcd_nonneg (Z.gcd (2 * a) n) 2) as Hnonneg.
      pose proof (Z.gcd_divide_r (Z.gcd (2 * a) n) 2) as H2.
      apply Z.divide_pos_le in H2; [| lia].
      assert (Z.gcd (Z.gcd (2 * a) n) 2 <> 0) as Hnz.
      { intros H0. apply Z.gcd_eq_0_r in H0. lia. }
      assert (Z.gcd (Z.gcd (2 * a) n) 2 <> 2) as Hn2.
      { intros Heq.
        pose proof (Z.gcd_divide_l (Z.gcd (2 * a) n) 2) as Hdiv.
        rewrite Heq in Hdiv.
        assert ((2 | n)) as Heven by (eapply Z.divide_trans; eassumption).
        apply Z.mod_divide in Heven; lia. }
      lia.
  - apply Z.gcd_greatest; [| apply Z.gcd_divide_r].
    apply Z.divide_mul_r. apply Z.gcd_divide_l.
Qed.

Lemma jacobi_twos_gcd (a : positive) :
  forall n r a1 r1, n mod 2 = 1 -> jacobi_twos a n r = (a1, r1) ->
    Z.gcd a1 n = Z.gcd (Zpos a) n.
Proof.
  induction a as [a IH | a IH |]; intros n r a1 r1 Hodd E; cbn [jacobi_twos] in E.
  - injection E as <- _. reflexivity.
  - rewrite Pos2Z.inj_xO, gcd_double_odd by exact Hodd. exact (IH _ _ _ _ Hodd E).
  - injection E as <- _. reflexivity.
Qed.

(** The loop keeps the sign in {1, -1} and the gcd of its two numbers. *)
Lemma jacobi_loop_value (fuel : nat) :
  forall a n r v, 0 <= a -> 0 < n -> n mod 2 = 1 -> r = 1 \/ r = -1 ->
    jacobi_loop fuel a n r = Some v ->
    (v = 1 \/ v = -1 \/ v = 0) /\ (v = 0 <-> Z.gcd a n <> 1).
Proof.
  assert (forall a n r v, 0 <= a -> 0 < n -> r = 1 \/ r = -1 -> a = 0 ->
            Some (if n =? 1 then r else 0) = Some v ->
            (v = 1 \/ v = -1 \/ v = 0) /\ (v = 0 <-> Z.gcd a n <> 1)) as Hexit.
  { intros a n r v Ha Hn Hr -> E. injection E as <-.
    rewrite Z.gcd_0_l, Z.abs_eq by lia.
    destruct (Z.eqb_spec n 1); lia. }
  induction fuel as [| fuel IH]; intros a n r v Ha Hn Hodd Hr E;
    cbn [jacobi_loop] in E;
    destruct (Z.eqb_spec a 0) as [Ha0 | Ha0].
  - exact (Hexit a n r v Ha Hn Hr Ha0 E).
  - discriminate E.
  - exact (Hexit a n r v Ha Hn Hr Ha0 E).
  - destruct (jacobi_twos (Z.to_pos a) n r) as [a1 r1] eqn:E1.
    pose proof (jacobi_twos_spec _ _ _ _ _ E1) as Hbound.
    pose proof (jacobi_twos_odd _ _ _ _ _ E1) as Hodd1.
    pose proof (jacobi_twos_sign _ _ _ _ _ E1 Hr) as Hr1.
    pose proof (jacobi_twos_gcd _ _ _ _ _ Hodd E1) as Hgcd.
    rewrite Z2Pos.id in Hbound, Hgcd by lia.
    apply IH in E.
    + rewrite Z.gcd_mod_l, Z.gcd_comm, Hgcd in E. exact E.
    + apply Z.mod_pos_bound. lia.
    + lia.
    + exact Hodd1.
    + destruct ((n mod 4 =? 3) && (a1 mod 4 =? 3)); lia.
Qed.

(** X2. The value of [jacobi] is -1, 0 or 1, and it is 0 whenever the
    second argument is not a positive odd number. *)
Theorem jacobi_values (a n : Z) :
  (jacobi a n = -1 \/ jacobi a n = 0 \/ jacobi a n = 1)
  /\ (n <= 0 \/ n mod 2 = 0 -> jacobi a n = 0).
Proof.
  unfold jacobi.
  destruct (Z.leb_spec n 0) as [Hn | Hn]; cbn [orb]; [split; [lia | reflexivity] |].
  destruct (Z.eqb_spec (n mod 2) 0) as [Heven | Hodd];
    [split; [lia | reflexivity] |].
  split; [| lia].
  destruct (jacobi_loop (jacobi_fuel n) (a mod n) n 1) as [v |] eqn:E; [| lia].
  apply jacobi_loop_value in E; try lia.
  - apply Z.mod_pos_bound. lia.
  - pose proof (Z.mod_pos_bound n 2 ltac:(lia)). lia.
Qed.

(** X3. For a positive odd [n], [jacobi a n] is 0 exactly when [a] and [n]
    have a common factor. *)
Theorem jacobi_zero_iff_common_factor (a n : Z) :
  0 < n -> n mod 2 = 1 -> (jacobi a n = 0 <-> Z.gcd a n <> 1).
Proof.
  intros Hn Hodd. unfold jacobi.
  destruct (Z.leb_spec n 0) as [Hle | _]; [lia |]. rewrite Hodd. cbn [Z.eqb orb].
  destruct (jacobi_fuel_enough a n Hn) as [v E]. rewrite E.
  apply jacobi_loop_value in E; try lia.
  - rewrite Z.gcd_mod_l in E. apply E.
  - apply Z.mod_pos_bound. exact Hn.
Qed.

Lemma jacobi_zero_iff_common_factor_witness :
  (jacobi 10 15 = 0 <-> Z.gcd 10 15 <> 1) /\ jacobi 10 15 = 0 /\ jacobi 2 15 = 1.
Proof.
  split; [apply (jacobi_zero_iff_common_factor 10 15); [lia | reflexivity] |].
  split; reflexivity.
Defined.

(** X4. The first component returned by [egcd] is, up to its sign, the
    greatest common divisor of the two arguments. *)
Theorem egcd_is_gcd (a b : Z) : Z.abs (fst (fst (egcd a b))) = Z.gcd a b.
Proof.
  destruct (egcd a b) as [[g x] y] eqn:E. cbn [fst].
  exact (proj1 (proj2 (egcd_spec _ _ _ _ _ E))).
Qed.

Lemma jacobi_values_witness :
  (jacobi 7 (-5) = -1 \/ jacobi 7 (-5) = 0 \/ jacobi 7 (-5) = 1)
  /\ jacobi 7 (-5) = 0 /\ jacobi 7 12 = 0.
Proof.
  split; [apply (jacobi_values 7 (-5)) |].
  split; [apply (proj2 (jacobi_values 7 (-5))); lia |].
  apply (proj2 (jacobi_values 7 12)). right. reflexivity.
Defined.

(** X5. A zero modulus never yields a result.  With both moduli zero
    [crt_pair] raises [ZeroDivisionError]; with exactly one zero modulus it
    raises the incompatible-congruences error when the other modulus does
    not divide [a2 - a1], and [ZeroDivisionError] otherwise. *)
Theorem crt_pair_zero_modulus (a1 m1 a2 m2 : Z) :
  m1 = 0 \/ m2 = 0 ->
  crt_pair a1 m1 a2 m2 =
  if (m1 =? 0) && (m2 =? 0) then Raised ZeroDivisionError
  else if (a2 - a1) mod (m1 + m2) =? 0 then Raised ZeroDivisionError
  else Raised (ValueError "incompatible congruences").
Proof.
  intros Hzero. unfold crt_pair. rewrite (egcd_eq m1 m2).
  destruct (Z.eqb_spec m2 0) as [-> | Hm2].
  - rewrite Z.add_0_r, andb_true_r.
    unfold py_mod at 1. destruct (Z.eqb_spec m1 0) as [-> | Hm1]; [reflexivity |].
    cbn [bind].
    destruct (Z.eqb_spec ((a2 - a1) mod m1) 0) as [_ | _]; cbn [negb];
      [| reflexivity].
    rewrite !py_floordiv_done by exact Hm1. cbn [bind].
    rewrite Z.div_0_l by exact Hm1. reflexivity.
  - destruct Hzero as [-> | ->]; [| contradiction].
    rewrite Z.mod_0_l by exact Hm2. rewrite (egcd_eq m2 0).
    cbn [Z.eqb andb]. rewrite Z.add_0_l.
    rewrite (py_mod_done _ m2 Hm2). cbn [bind].
    destruct (Z.eqb_spec ((a2 - a1) mod m2) 0) as [_ | _]; cbn [negb];
      [| reflexivity].
    rewrite !py_floordiv_done by exact Hm2. cbn [bind].
    rewrite Z.div_0_l, Z.div_same by exact Hm2.
    rewrite (py_mod_done _ 1) by lia. cbn [bind].
    rewrite Z.mul_0_l. reflexivity.
Qed.

Lemma crt_pair_zero_modulus_witness :
  crt_pair 1 0 1 0 = Raised ZeroDivisionError
  /\ crt_pair 1 0 7 3 = Raised ZeroDivisionError
  /\ crt_pair 1 4 2 0 = Raised (ValueError "incompatible congruences").
Proof.
  split; [| split].
  - rewrite (crt_pair_zero_modulus 1 0 1 0) by (left; reflexivity). reflexivity.
  - rewrite (crt_pair_zero_modulus 1 0 7 3) by (left; reflexivity). reflexivity.
  - rewrite (crt_pair_zero_modulus 1 4 2 0) by (right; reflexivity). reflexivity.
Defined.

(** ** Further properties of the Miller-Rabin test *)

Lemma mr_bases_app (n d s : Z) (bases1 bases2 : list Z) :
  mr_bases n d s (bases1 ++ bases2) = mr_bases n d s bases1 && mr_bases n d s bases2.
Proof.
  induction bases1 as [| a rest IH]; cbn [mr_bases app]; [reflexivity |].
  destruct (a mod n =? 0); [exact IH |].
  destruct ((pow_mod a d n =? 1) || (pow_mod a d n =? n - 1)); [exact IH |].
  destruct (mr_squarings (Z.to_nat (s - 1)) (pow_mod a d n) n); [reflexivity | exact IH].
Qed.

(** X6. Testing with two lists of bases one after the other is testing
    with each list: the verdict on [bases1 ++ bases2] is the conjunction of
    the two verdicts, for every [n]. *)
Theorem miller_rabin_app (n : Z) (bases1 bases2 : list Z) :
  miller_rabin n (bases1 ++ bases2) = miller_rabin n bases1 && miller_rabin n bases2.
Proof.
  unfold miller_rabin.
  destruct (n <? 2); [reflexivity |].
  destruct (n mod 2 =? 0); [now destruct (n =? 2) |].
  destruct (strip_twos (Z.to_pos (n - 1)) 0) as [d s]. apply mr_bases_app.
Qed.

Lemma mr_squarings_false (k : nat) :
  forall x n, mr_squarings k x n = false ->
    exists i, (1 <= i <= k)%nat /\ x ^ (2 ^ Z.of_nat i) mod n = n - 1.
Proof.
  induction k as [| k IH]; intros x n E; cbn [mr_squarings] in E; [discriminate |].
  rewrite pow_mod_spec in E by lia.
  destruct (Z.eqb_spec (x ^ 2 mod n) (n - 1)) as [Hx | _].
  - exists 1%nat. split; [lia | exact Hx].
  - destruct (IH _ _ E) as (i & Hi & Hm).
    exists (S i). split; [lia |].
    rewrite Z.mod_pow_l, <- Z.pow_mul_r in Hm by lia.
    rewrite Nat2Z.inj_succ, Z.pow_succ_r by lia. exact Hm.
Qed.

(** Squaring on from -1 gives 1. *)
Lemma minus_one_squarings (n y : Z) (j : nat) :
  1 < n -> y mod n = n - 1 -> (1 <= j)%nat -> y ^ (2 ^ Z.of_nat j) mod n = 1.
Proof.
  intros Hn Hy Hj.
  replace (Z.of_nat j) with (Z.succ (Z.of_nat (j - 1))) by lia.
  rewrite Z.pow_succ_r, Z.pow_mul_r by lia.
  rewrite <- Z.mod_pow_l.
  replace (y ^ 2 mod n) with 1.
  - rewrite Z.pow_1_l by lia. apply Z.mod_small. lia.
  - rewrite <- Z.mod_pow_l, Hy.
    replace ((n - 1) ^ 2) with (1 + (n - 2) * n) by ring.
    rewrite Z_mod_plus_full. symmetry. apply Z.mod_small. lia.
Qed.

Lemma mr_bases_in (n d s a : Z) (bases : list Z) :
  mr_bases n d s bases = true -> In a bases -> a mod n <> 0 ->
  pow_mod a d n = 1 \/ pow_mod a d n = n - 1
  \/ mr_squarings (Z.to_nat (s - 1)) (pow_mod a d n) n = false.
Proof.
  induction bases as [| b rest IH]; intros E Hin Ha; [contradiction |].
  cbn [mr_bases] in E.
  destruct Hin as [-> | Hin].
  - destruct (Z.eqb_spec (a mod n) 0) as [H0 | _]; [contradiction |].
    destruct (Z.eqb_spec (pow_mod a d n) 1) as [H1 | _]; [now left |].
    destruct (Z.eqb_spec (pow_mod a d n) (n - 1)) as [Hm | _]; [now right; left |].
    cbn [orb] in E.
    destruct (mr_squarings (Z.to_nat (s - 1)) (pow_mod a d n) n);
      [discriminate | now right; right].
  - apply IH; try assumption.
    destruct (b mod n =? 0); [exact E |].
    destruct ((pow_mod b d n =? 1) || (pow_mod b d n =? n - 1)); [exact E |].
    destruct (mr_squarings (Z.to_nat (s - 1)) (pow_mod b d n) n);
      [discriminate | exact E].
Qed.

(** X7. A number that passes the strong test for a base passes the Fermat
    test for it: if [miller_rabin n bases] is true for an odd [n >= 3],
    then [a^(n-1) = 1 (mod n)] for every base [a] not divisible by [n]. *)
Theorem miller_rabin_implies_fermat (n a : Z) (bases : list Z) :
  3 <= n -> n mod 2 = 1 -> miller_rabin n bases = true ->
  In a bases -> a mod n <> 0 -> a ^ (n - 1) mod n = 1.
Proof.
  intros Hn Hodd Hmr Hin Ha. unfold miller_rabin in Hmr.
  destruct (Z.ltb_spec n 2) as [Hlt | _]; [lia |].
  rewrite Hodd in Hmr. cbn [Z.eqb] in Hmr.
  destruct (strip_twos (Z.to_pos (n - 1)) 0) as [d s] eqn:E.
  apply strip_twos_spec in E. destruct E as (Hs & Hq & Hd2 & Hd).
  rewrite Z2Pos.id, Z.sub_0_r in Hq by lia.
  assert (1 <= s) as Hs1.
  { destruct (Z.eq_dec s 0) as [-> | Hne]; [| lia].
    rewrite Z.pow_0_r, Z.mul_1_r in Hq. rewrite <- Hq in Hd2.
    replace n with (1 + (n - 1)) in Hodd by lia.
    rewrite Zplus_mod, Hd2 in Hodd. discriminate Hodd. }
  pose proof (Z.pow_nonneg 2 s ltac:(lia)) as H2s.
  rewrite Hq, Z.pow_mul_r by lia.
  destruct (mr_bases_in n d s a bases Hmr Hin Ha) as [H1 | [Hm | Hsq]];
    rewrite pow_mod_spec in * by lia.
  - rewrite <- Z.mod_pow_l, H1, Z.pow_1_l by lia. apply Z.mod_small. lia.
  - rewrite <- (Z2Nat.id s) by lia.
    apply minus_one_squarings; [lia | exact Hm | lia].
  - apply mr_squarings_false in Hsq. destruct Hsq as (i & Hi & Hx).
    rewrite Z.mod_pow_l in Hx.
    replace s with (Z.of_nat i + Z.of_nat (Z.to_nat s - i)) by lia.
    rewrite Z.pow_add_r, Z.pow_mul_r by lia.
    apply minus_one_squarings; [lia | exact Hx | lia].
Qed.

Lemma miller_rabin_implies_fermat_witness : 2 ^ (2047 - 1) mod 2047 = 1.
Proof.
  apply (miller_rabin_implies_fermat 2047 2 [2]);
    [lia | reflexivity | vm_compute; reflexivity | now left | discriminate].
Defined.

(** ** When the Lucas test answers *)

(** Four turns of the selection loop are as good as any number. *)
Lemma select_d_four_turns (n : Z) (fuel : nat) (r : Z) :
  select_d fuel n 5 1 = Some r -> select_d 4 n 5 1 = Some r.
Proof.
  intros E. pose proof (select_d_values _ _ _ E) as [Hin Hj].
  apply (select_d_more_fuel _ _ _ _ _ 4) in E.
  replace (4 + fuel)%nat with (S (S (S (S fuel)))) in E by lia.
  cbn [select_d] in E |- *.
  destruct (Z.eqb_spec (jacobi 5 n) (-1)) as [_ | H5]; [exact E |].
  change (next_d (5, 1)) with (-7, -1) in E |- *. cbv beta iota in E |- *.
  destruct (Z.eqb_spec (jacobi (-7) n) (-1)) as [_ | H7]; [exact E |].
  change (next_d (-7, -1)) with (-5, 1) in E |- *. cbv beta iota in E |- *.
  destruct (Z.eqb_spec (jacobi (-5) n) (-1)) as [_ | Hm5]; [exact E |].
  change (next_d (-5, 1)) with (3, -1) in E |- *. cbv beta iota in E |- *.
  destruct (Z.eqb_spec (jacobi 3 n) (-1)) as [_ | H3]; [exact E |].
  exfalso. cbn in Hin. decompose [or] Hin; try contradiction; subst r; contradiction.
Qed.

Lemma select_d_four_found (n : Z) :
  jacobi 5 n = -1 \/ jacobi (-7) n = -1 \/ jacobi (-5) n = -1 \/ jacobi 3 n = -1 ->
  exists d, select_d 4 n 5 1 = Some d.
Proof.
  intros Hsome. cbn [select_d].
  destruct (Z.eqb_spec (jacobi 5 n) (-1)) as [_ | H5]; [eauto |].
  change (next_d (5, 1)) with (-7, -1). cbv beta iota.
  destruct (Z.eqb_spec (jacobi (-7) n) (-1)) as [_ | H7]; [eauto |].
  change (next_d (-7, -1)) with (-5, 1). cbv beta iota.
  destruct (Z.eqb_spec (jacobi (-5) n) (-1)) as [_ | Hm5]; [eauto |].
  change (next_d (-5, 1)) with (3, -1). cbv beta iota.
  destruct (Z.eqb_spec (jacobi 3 n) (-1)) as [_ | H3]; [eauto |].
  exfalso. tauto.
Qed.

(** X8. [lucas_selfridge] returns exactly on the numbers below 2, the even
    numbers, the squares, and the numbers for which one of 5, -7, -5, 3 has
    Jacobi symbol -1; when it returns, the selection loop has taken at
    most four turns.  On every other number the loop runs for ever. *)
Theorem lucas_selfridge_answers_iff (n : Z) :
  ((exists fuel b, lucas_selfridge fuel n = Done b) <->
   n < 2 \/ n mod 2 = 0 \/ is_square n = true
   \/ jacobi 5 n = -1 \/ jacobi (-7) n = -1 \/ jacobi (-5) n = -1 \/ jacobi 3 n = -1)
  /\ (forall fuel b, lucas_selfridge fuel n = Done b -> lucas_selfridge 4 n = Done b)
  /\ (forall fuel, lucas_selfridge fuel n <> Done true ->
        lucas_selfridge fuel n <> Done false -> lucas_selfridge fuel n = OutOfFuel).
Proof.
  unfold lucas_selfridge.
  destruct (Z.ltb_spec n 2) as [Hlt | Hge]; cbn [orb];
    [split; [split; [tauto | intros _; exists 0%nat; eauto] |];
     split; [trivial | intros fuel; destruct (n =? 2); congruence] |].
  destruct (Z.eqb_spec (n mod 2) 0) as [Heven | Hodd];
    [split; [split; [tauto | intros _; exists 0%nat; eauto] |];
     split; [trivial | intros fuel; destruct (n =? 2); congruence] |].
  destruct (is_square n) eqn:Hsq;
    [split; [split; [tauto | intros _; exists 0%nat; eauto] |];
     split; [trivial | congruence] |].
  split; [split |].
  - intros (fuel & b & E).
    destruct (select_d fuel n 5 1) as [d |] eqn:Ed; [| discriminate].
    apply select_d_values in Ed. destruct Ed as [Hin Hj]. cbn in Hin.
    decompose [or] Hin; try contradiction; subst d; tauto.
  - intros Hcases.
    destruct (select_d_four_found n) as [d Ed]; [intuition (lia || congruence) |].
    exists 4%nat. rewrite Ed.
    destruct (strip_twos (Z.to_pos (n + 1)) 0) as [n_plus_one s].
    destruct (lucas_ladder (Z.to_pos n_plus_one) n 1 1 ((1 - d) / 4)) as [[u v] q_k].
    destruct ((u =? 0) || (v =? 0)); eauto.
  - split.
    + intros fuel b E.
      destruct (select_d fuel n 5 1) as [d |] eqn:Ed; [| discriminate].
      now rewrite (select_d_four_turns _ _ _ Ed).
    + intros fuel Ht Hf.
      destruct (select_d fuel n 5 1) as [d |]; [| reflexivity].
      destruct (strip_twos (Z.to_pos (n + 1)) 0) as [n_plus_one s].
      destruct (lucas_ladder (Z.to_pos n_plus_one) n 1 1 ((1 - d) / 4)) as [[u v] q_k].
      destruct ((u =? 0) || (v =? 0)); [congruence |].
      destruct (lucas_doublings (Z.to_nat (s - 1)) n v q_k); congruence.
Qed.

Lemma lucas_selfridge_answers_iff_witness :
  (exists fuel b, lucas_selfridge fuel 47 = Done b)
  /\ lucas_selfridge 4 71 = Done false.
Proof.
  split.
  - apply (proj2 (proj1 (lucas_selfridge_answers_iff 47))).
    right; right; right; left. vm_compute. reflexivity.
  - apply (proj1 (proj2 (lucas_selfridge_answers_iff 71)) 9%nat false).
    vm_compute. reflexivity.
Defined.

(** ** The multi-base filter and trial division *)

Lemma small_primes_ge_2 (q : Z) : In q SMALL_PRIMES -> 2 <= q.
Proof.
  unfold SMALL_PRIMES. intros Hq.
  repeat (destruct Hq as [<- | Hq]; [lia |]). contradiction.
Qed.

Lemma trial_division_none (n : Z) (primes : list Z) :
  (forall q, In q primes -> n <> q /\ n mod q <> 0) ->
  trial_division n primes = None.
Proof.
  induction primes as [| p rest IH]; intros Hfree; cbn [trial_division];
    [reflexivity |].
  destruct (Hfree p (or_introl eq_refl)) as [Hne Hmod].
  destruct (Z.eqb_spec n p); [contradiction |].
  destruct (Z.eqb_spec (n mod p) 0); [contradiction |].
  apply IH. intros q Hq. apply Hfree. now right.
Qed.

Lemma prime_survives_trial_division (p : Z) :
  Z.prime p -> ~ In p SMALL_PRIMES -> trial_division p SMALL_PRIMES = None.
Proof.
  intros [Hp1 Hp] Hnot. apply trial_division_none. intros q Hq.
  pose proof (small_primes_ge_2 q Hq) as Hq2.
  split; [intros ->; contradiction |].
  intros Hmod. apply Z.mod_divide in Hmod; [| lia].
  pose proof (Z.divide_pos_le q p ltac:(lia) Hmod) as Hle.
  destruct (Z.eq_dec q p) as [-> | Hne]; [contradiction |].
  apply (Hp q); [lia | exact Hmod].
Qed.

Lemma is_probable_prime_prime (p : Z) :
  Z.prime p -> is_probable_prime p = true.
Proof.
  intros Hp. pose proof (Z.prime_ge_2 p Hp) as Hp2. unfold is_probable_prime.
  destruct (Z.ltb_spec p 2); [lia |].
  destruct (in_dec Z.eq_dec p SMALL_PRIMES) as [Hin | Hnot].
  - rewrite (trial_division_hit p SMALL_PRIMES Hin); [reflexivity |].
    intros q Hq Hne. now apply small_primes_coprime.
  - pose proof (prime_survives_trial_division p Hp Hnot) as Hnone.
    rewrite Hnone. apply miller_rabin_prime; [exact Hp |].
    assert (p mod 2 <> 0) as Hodd.
    { intros Heven. apply Z.mod_divide in Heven; [| lia].
      destruct Hp as [_ Hp]. destruct (Z.eq_dec p 2) as [-> | Hne].
      - apply Hnot. cbn. tauto.
      - apply (Hp 2); [lia | exact Heven]. }
    pose proof (Z.mod_pos_bound p 2 ltac:(lia)). lia.
Qed.

(** X9. The multi-base filter used by the generators accepts every prime. *)
Theorem is_probable_prime_accepts_primes (p : Z) :
  Z.prime p -> is_probable_prime p = true.
Proof.
  intros Hp. pose proof (Z.prime_ge_2 p Hp) as Hp2. unfold is_probable_prime.
  destruct (Z.ltb_spec p 2); [lia |].
  destruct (in_dec Z.eq_dec p SMALL_PRIMES) as [Hin | Hnot].
  - rewrite (trial_division_hit p SMALL_PRIMES Hin); [reflexivity |].
    intros q Hq Hne. now apply small_primes_coprime.
  - pose proof (prime_survives_trial_division p Hp Hnot) as Hnone.
    rewrite Hnone. apply miller_rabin_prime; [exact Hp |].
    assert (p mod 2 <> 0) as Hodd.
    { intros Heven. apply Z.mod_divide in Heven; [| lia].
      destruct Hp as [_ Hp]. destruct (Z.eq_dec p 2) as [-> | Hne].
      - apply Hnot. cbn. tauto.
      - apply (Hp 2); [lia | exact Heven]. }
    pose proof (Z.mod_pos_bound p 2 ltac:(lia)). lia.
Qed.

Lemma is_probable_prime_accepts_primes_witness : is_probable_prime 1000003 = true.
Proof. apply (is_probable_prime_accepts_primes 1000003). exact prime_1000003. Defined.

Lemma in_py_range_1_inv (a b k : Z) : In k (py_range a b 1) -> a <= k < b.
Proof.
  unfold py_range. intros Hin. apply in_map_iff in Hin.
  destruct Hin as (i & <- & Hi). apply in_seq in Hi.
  rewrite Z.div_1_r in Hi. lia.
Qed.

Lemma has_divisor_inv (n : Z) :
  has_divisor n = true -> exists k, 2 <= k <= Z.sqrt n /\ n mod k = 0.
Proof.
  unfold has_divisor. intros Hd. apply existsb_exists in Hd.
  destruct Hd as (k & Hin & Hk). apply in_py_range_1_inv in Hin.
  apply Z.eqb_eq in Hk. exists k. split; [lia | exact Hk].
Qed.

Lemma has_divisor_not_prime (n : Z) : has_divisor n = true -> ~ Z.prime n.
Proof.
  intros Hd [Hn Hp]. apply has_divisor_inv in Hd. destruct Hd as (k & Hk & Hmod).
  pose proof (Z.sqrt_lt_lin n Hn) as Hsqrt.
  apply (Hp k); [lia |]. apply Z.mod_divide; [lia | exact Hmod].
Qed.

(** Every number from 2 to 40 has a divisor in [SMALL_PRIMES]. *)
Lemma small_numbers_have_small_prime (k : Z) :
  2 <= k <= 40 -> exists q, In q SMALL_PRIMES /\ k mod q = 0.
Proof.
  intros Hk.
  assert (forallb (fun k => existsb (fun q => k mod q =? 0) SMALL_PRIMES)
            (py_range 2 41 1) = true) as Hall by (vm_compute; reflexivity).
  rewrite forallb_forall in Hall.
  specialize (Hall k (in_py_range_1 2 41 k ltac:(lia))).
  apply existsb_exists in Hall. destruct Hall as (q & Hq & Hmod).
  exists q. split; [exact Hq | now apply Z.eqb_eq].
Qed.

(** Below 41^2 a number with a proper divisor is caught by trial division. *)
Lemma trial_division_catches_composites (n : Z) :
  2 <= n < 1681 -> has_divisor n = true -> trial_division n SMALL_PRIMES = Some false.
Proof.
  intros Hn Hd. apply has_divisor_inv in Hd. destruct Hd as (k & Hk & Hmod).
  assert (Z.sqrt n < 41) as Hsqrt by (apply Z.sqrt_lt_square; lia).
  pose proof (Z.sqrt_lt_lin n ltac:(lia)) as Hlin.
  destruct (small_numbers_have_small_prime k ltac:(lia)) as (q & Hq & Hkq).
  pose proof (small_primes_ge_2 q Hq) as Hq2.
  assert (n mod q = 0) as Hnq.
  { apply Z.mod_divide; [lia |]. apply Z.divide_trans with k.
    - apply Z.mod_divide; [lia | exact Hkq].
    - apply Z.mod_divide; [lia | exact Hmod]. }
  assert (q <= k) as Hle.
  { apply Z.divide_pos_le; [lia |]. apply Z.mod_divide; [lia | exact Hkq]. }
  apply (trial_division_multiple n q); [exact Hq | exact Hnq |].
  intros Hin. apply (small_primes_coprime n q Hin Hq); [lia | exact Hnq].
Qed.

(** X10. Below 41^2 = 1681 the multi-base filter is exact: it accepts [n]
    if and only if [n] is prime. *)
Theorem is_probable_prime_exact_below_1681 (n : Z) :
  n < 1681 -> (is_probable_prime n = true <-> Z.prime n).
Proof.
  intros Hn. split; [| apply is_probable_prime_prime].
  unfold is_probable_prime.
  destruct (Z.ltb_spec n 2) as [_ | Hge]; [discriminate |].
  destruct (has_divisor n) eqn:Hd.
  - rewrite (trial_division_catches_composites n) by (lia || exact Hd). discriminate.
  - intros _. apply no_divisor_prime; assumption.
Qed.

Lemma is_probable_prime_exact_below_1681_witness :
  (is_probable_prime 1369 = true <-> Z.prime 1369) /\ is_probable_prime 1369 = false.
Proof.
  split; [apply (is_probable_prime_exact_below_1681 1369); lia | reflexivity].
Defined.

(** X11. Below 1681 the BPSW composite has no false positive, whatever
    the backend and the loop budget: a verdict [true] means a prime, and a
    composite gets the verdict [false] from trial division. *)
Theorem bpsw_sound_below_1681 gmpy2 (fuel : nat) (n : Z) :
  n < 1681 ->
  (is_bpsw_probable_prime gmpy2 fuel n = Done true -> Z.prime n)
  /\ (~ Z.prime n -> is_bpsw_probable_prime gmpy2 fuel n = Done false).
Proof.
  intros Hn. unfold is_bpsw_probable_prime.
  destruct (Z.ltb_spec n 2) as [Hlt | Hge].
  - split; [discriminate | reflexivity].
  - destruct (has_divisor n) eqn:Hd.
    + rewrite (trial_division_catches_composites n) by (lia || exact Hd).
      split; [discriminate | reflexivity].
    + pose proof (no_divisor_prime n Hge Hd) as Hp.
      split; [intros _; exact Hp | intros Hnp; contradiction].
Qed.

Lemma bpsw_sound_below_1681_witness :
  is_bpsw_probable_prime None 0 1591 = Done false.
Proof.
  apply (proj2 (bpsw_sound_below_1681 None 0 1591 ltac:(lia))).
  apply has_divisor_not_prime. vm_compute. reflexivity.
Defined.

(** ** The composed congruence of the Pomerance-modular generator *)

(** The two ways [crt_pair] can end on positive moduli. *)
Lemma crt_pair_outcome (a1 m1 a2 m2 : Z) :
  0 < m1 -> 0 < m2 ->
  (~ (Z.gcd m1 m2 | a2 - a1)
   /\ crt_pair a1 m1 a2 m2 = Raised (ValueError "incompatible congruences"))
  \/ ((Z.gcd m1 m2 | a2 - a1)
      /\ exists r, crt_pair a1 m1 a2 m2 = Done (r, Z.lcm m1 m2)
                   /\ (m1 | r - a1) /\ (m2 | r - a2) /\ 0 <= r < Z.lcm m1 m2).
Proof.
  intros Hm1 Hm2. unfold crt_pair.
  destruct (egcd m1 m2) as [[g x] y] eqn:E.
  destruct (egcd_spec _ _ _ _ _ E) as (Hbez & Hgcd & Hpos & _ & _).
  specialize (Hpos Hm2).
  rewrite (py_mod_done _ g) by lia. cbn [bind].
  rewrite Z.abs_eq in Hgcd by lia. rewrite <- Hgcd.
  destruct (Z.eqb_spec ((a2 - a1) mod g) 0) as [H0 | Hn0]; cbn [negb].
  - right. apply Z.mod_divide in H0; [| lia]. split; [exact H0 |].
    destruct (Z.gcd_divide_l m1 m2) as [u Hu]. rewrite <- Hgcd in Hu.
    destruct (Z.gcd_divide_r m1 m2) as [v Hv]. rewrite <- Hgcd in Hv.
    destruct H0 as [w Hw].
    assert (0 < v) as Hvpos by nia.
    assert (0 < u) as Hupos by nia.
    assert (0 < u * m2) as Hlcm_pos by nia.
    assert (g <> 0) as Hg by lia.
    rewrite !py_floordiv_done by exact Hg. cbn [bind].
    replace (m1 / g) with u by (rewrite Hu; now rewrite Z.div_mul).
    replace (m2 / g) with v by (rewrite Hv; now rewrite Z.div_mul).
    replace ((a2 - a1) / g) with w by (rewrite Hw; now rewrite Z.div_mul).
    rewrite (py_mod_done _ v) by lia. cbn [bind].
    rewrite (py_mod_done _ (u * m2)) by lia. cbn [bind].
    rewrite (lcm_from_bezout m1 m2 g x y u v Hbez Hu Hv Hg) by lia.
    eexists. split; [reflexivity |].
    pose proof (Z.div_mod (w * x) v ltac:(lia)) as Ht.
    set (t := (w * x) mod v) in *. set (J := (w * x) / v) in *.
    pose proof (Z.div_mod (a1 + m1 * t) (u * m2) ltac:(lia)) as Hr.
    set (r := (a1 + m1 * t) mod (u * m2)) in *.
    set (K := (a1 + m1 * t) / (u * m2)) in *.
    assert (u * m2 = v * m1) as Hum.
    { rewrite Hv at 1. rewrite Hu at 1. ring. }
    split; [| split].
    + exists (t - v * K).
      transitivity (m1 * t - u * m2 * K); [lia |]. rewrite Hum. ring.
    + exists (- w * y - u * J - u * K).
      assert (m1 * (w * x) = (a2 - a1) - w * y * m2) as E3.
      { rewrite Hw. transitivity (w * (m1 * x + m2 * y) - w * y * m2); [ring |].
        rewrite <- Hbez. ring. }
      assert (m1 * t = m1 * (w * x) - v * m1 * J) as E4 by (rewrite Ht; ring).
      transitivity (m1 * t - (a2 - a1) - u * m2 * K); [lia |].
      rewrite E4, E3, <- Hum. ring.
    + apply Z.mod_pos_bound. exact Hlcm_pos.
  - left. split; [| reflexivity].
    intros Hd. apply Hn0. apply Z.mod_divide; [lia | exact Hd].
Qed.

(** The loop of [build_mod_constraint] keeps a positive modulus, a residue
    in range, and every congruence combined so far. *)
Lemma combine_constraints_spec (constraints : list (Z * Z)) :
  forall residue modulus residue' modulus',
    Forall (fun c => 0 < snd c) constraints ->
    0 < modulus -> 0 <= residue < modulus ->
    combine_constraints constraints residue modulus = Done (residue', modulus') ->
    0 < modulus' /\ 0 <= residue' < modulus'
    /\ (modulus | modulus') /\ (modulus | residue' - residue)
    /\ modulus' = fold_left (fun acc c => Z.lcm acc (snd c)) constraints modulus
    /\ Forall (fun c => (snd c | residue' - fst c)) constraints.
Proof.
  induction constraints as [| [a m] rest IH];
    intros residue modulus residue' modulus' Hpos Hmod Hres E;
    cbn [combine_constraints] in E.
  - injection E as <- <-. rewrite Z.sub_diag. cbn [fold_left].
    repeat split; try lia; try apply Z.divide_refl; try apply Z.divide_0_r.
    constructor.
  - inversion Hpos as [| c cs Hm Hrest]; subst c cs. cbn [snd] in Hm.
    cbn [fold_left snd fst].
    destruct (Z.eqb_spec m 1) as [-> | Hm1].
    + destruct (IH _ _ _ _ Hrest Hmod Hres E) as (H1 & H2 & H3 & H4 & H5 & H6).
      rewrite Z.lcm_1_r, Z.abs_eq by lia.
      repeat split; try assumption; try lia.
      constructor; [apply Z.divide_1_l | exact H6].
    + apply bind_done in E. destruct E as (a_mod_m & Ea & E).
      rewrite py_mod_done in Ea by lia. injection Ea as <-.
      apply bind_done in E. destruct E as ([r1 m1'] & Ecrt & E).
      destruct (crt_pair_outcome residue modulus (a mod m) m Hmod Hm)
        as [[_ Hraise] | [_ (r & Hdone & Hr1 & Hr2 & Hrange)]];
        [congruence |].
      rewrite Hdone in Ecrt. injection Ecrt as <- <-.
      assert (0 < Z.lcm modulus m) as Hlcm
        by (pose proof (Z.lcm_nonneg modulus m);
            assert (Z.lcm modulus m <> 0) by (rewrite Z.lcm_eq_0; lia); lia).
      destruct (IH _ _ _ _ Hrest Hlcm Hrange E) as (H1 & H2 & H3 & H4 & H5 & H6).
      pose proof (Z.divide_lcm_l modulus m) as Hl.
      pose proof (Z.divide_lcm_r modulus m) as Hrm.
      repeat split; try assumption; try lia.
      * eapply Z.divide_trans; eassumption.
      * replace (residue' - residue) with ((residue' - r) + (r - residue)) by ring.
        apply Z.divide_add_r; [eapply Z.divide_trans; eassumption | exact Hr1].
      * constructor; [| exact H6]. cbn [snd fst].
        replace (residue' - a)
          with ((residue' - r) + ((r - a mod m) + (a mod m - a))) by ring.
        apply Z.divide_add_r; [eapply Z.divide_trans; eassumption |].
        apply Z.divide_add_r; [exact Hr2 |].
        exists (- (a / m)). pose proof (Z.div_mod a m ltac:(lia)). lia.
Qed.

(** What [build_mod_constraint] returns on positive products. *)
Lemma build_mod_constraint_spec_aux (m_primes n_primes : list Z)
  (mod5_residue residue modulus : Z) :
  0 < prod_or_one m_primes -> 0 < prod_or_one n_primes ->
  build_mod_constraint m_primes n_primes mod5_residue = Done (residue, modulus) ->
  0 <= residue < modulus
  /\ modulus = Z.lcm (Z.lcm 40 (prod_or_one m_primes)) (prod_or_one n_primes)
  /\ (8 | residue - 3)
  /\ (5 | residue - mod5_residue)
  /\ (prod_or_one m_primes | residue - 1)
  /\ (prod_or_one n_primes | residue + 1).
Proof.
  intros Hm Hn E. unfold build_mod_constraint, build_constraints in E.
  rewrite py_mod_done in E by lia. cbn [bind] in E.
  apply combine_constraints_spec in E; try lia.
  - destruct E as (_ & Hrange & _ & _ & Hmod & Hall).
    cbn [fold_left snd] in Hmod.
    change (Z.lcm (Z.lcm 1 8) 5) with 40 in Hmod.
    inversion Hall as [| c1 l1 H8 Hall1]; subst.
    inversion Hall1 as [| c2 l2 H5 Hall2]; subst.
    inversion Hall2 as [| c3 l3 Hpm Hall3]; subst.
    inversion Hall3 as [| c4 l4 Hpn _]; subst.
    cbn [fst snd] in H8, H5, Hpm, Hpn.
    repeat split; try lia; try assumption.
    + replace (residue - mod5_residue)
        with ((residue - mod5_residue mod 5) + (mod5_residue mod 5 - mod5_residue))
        by ring.
      apply Z.divide_add_r; [exact H5 |].
      exists (- (mod5_residue / 5)). pose proof (Z.div_mod mod5_residue 5 ltac:(lia)). lia.
    + replace (residue + 1)
        with ((residue - (-1) mod prod_or_one n_primes)
              + ((-1) mod prod_or_one n_primes - -1)) by ring.
      apply Z.divide_add_r; [exact Hpn |].
      exists (- (-1 / prod_or_one n_primes)).
      pose proof (Z.div_mod (-1) (prod_or_one n_primes) ltac:(lia)). lia.
  - repeat constructor; cbn [snd]; lia.
Qed.


(** X12. When the two products are positive, a constraint returned by
    [build_mod_constraint] is a residue in [0, modulus) that is 3 modulo 8,
    [mod5_residue] modulo 5, 1 modulo the product of [m_primes] and -1 modulo
    the product of [n_primes], the modulus being the least common multiple
    of 8, 5 and the two products. *)
Theorem build_mod_constraint_spec (m_primes n_primes : list Z)
  (mod5_residue residue modulus : Z) :
  0 < prod_or_one m_primes -> 0 < prod_or_one n_primes ->
  build_mod_constraint m_primes n_primes mod5_residue = Done (residue, modulus) ->
  0 <= residue < modulus
  /\ modulus = Z.lcm (Z.lcm 40 (prod_or_one m_primes)) (prod_or_one n_primes)
  /\ (8 | residue - 3)
  /\ (5 | residue - mod5_residue)
  /\ (prod_or_one m_primes | residue - 1)
  /\ (prod_or_one n_primes | residue + 1).
Proof.
  intros Hm Hn E. unfold build_mod_constraint, build_constraints in E.
  rewrite py_mod_done in E by lia. cbn [bind] in E.
  apply combine_constraints_spec in E; try lia.
  - destruct E as (_ & Hrange & _ & _ & Hmod & Hall).
    cbn [fold_left snd] in Hmod.
    change (Z.lcm (Z.lcm 1 8) 5) with 40 in Hmod.
    inversion Hall as [| c1 l1 H8 Hall1]; subst.
    inversion Hall1 as [| c2 l2 H5 Hall2]; subst.
    inversion Hall2 as [| c3 l3 Hpm Hall3]; subst.
    inversion Hall3 as [| c4 l4 Hpn _]; subst.
    cbn [fst snd] in H8, H5, Hpm, Hpn.
    repeat split; try lia; try assumption.
    + replace (residue - mod5_residue)
        with ((residue - mod5_residue mod 5) + (mod5_residue mod 5 - mod5_residue))
        by ring.
      apply Z.divide_add_r; [exact H5 |].
      exists (- (mod5_residue / 5)). pose proof (Z.div_mod mod5_residue 5 ltac:(lia)). lia.
    + replace (residue + 1)
        with ((residue - (-1) mod prod_or_one n_primes)
              + ((-1) mod prod_or_one n_primes - -1)) by ring.
      apply Z.divide_add_r; [exact Hpn |].
      exists (- (-1 / prod_or_one n_primes)).
      pose proof (Z.div_mod (-1) (prod_or_one n_primes) ltac:(lia)). lia.
  - repeat constructor; cbn [snd]; lia.
Qed.

Lemma build_mod_constraint_spec_witness :
  build_mod_constraint [13; 17] [3; 7] 2 = Done (138347, 185640)
  /\ (8 | 138347 - 3) /\ (5 | 138347 - 2)
  /\ (prod_or_one [13; 17] | 138347 - 1) /\ (prod_or_one [3; 7] | 138347 + 1).
Proof.
  assert (build_mod_constraint [13; 17] [3; 7] 2 = Done (138347, 185640)) as E
    by (vm_compute; reflexivity).
  split; [exact E |].
  apply (build_mod_constraint_spec [13; 17] [3; 7] 2 138347 185640) in E;
    [| reflexivity | reflexivity].
  tauto.
Defined.

(** ** Drawing odd numbers and primes *)

Section Draws.

Context {G : Type} `{Rng G}.

(** X13. [random_odd_in_range] raises its [ValueError] exactly when the
    interval [low, high] holds no odd number; it never fails otherwise. *)
Theorem random_odd_in_range_raises_iff (rng : G) (low high : Z) :
  (random_odd_in_range rng low high = Raised (ValueError "invalid range")
   <-> ~ exists k, low <= k <= high /\ k mod 2 = 1)
  /\ ((exists k, low <= k <= high /\ k mod 2 = 1) ->
      exists r, random_odd_in_range rng low high = Done r).
Proof.
  unfold random_odd_in_range.
  set (low' := if low mod 2 =? 0 then low + 1 else low).
  set (high' := if high mod 2 =? 0 then high - 1 else high).
  assert (low <= low' /\ low' mod 2 = 1 /\ low' <= low + 1) as (Hl1 & Hl2 & Hl3).
  { unfold low'. destruct (Z.eqb_spec (low mod 2) 0) as [H0 | H0].
    - repeat split; try lia. rewrite Zplus_mod, H0. reflexivity.
    - pose proof (Z.mod_pos_bound low 2 ltac:(lia)). repeat split; lia. }
  assert (high' <= high /\ high' mod 2 = 1 /\ high - 1 <= high') as (Hh1 & Hh2 & Hh3).
  { unfold high'. destruct (Z.eqb_spec (high mod 2) 0) as [H0 | H0].
    - repeat split; try lia. rewrite Zminus_mod, H0. reflexivity.
    - pose proof (Z.mod_pos_bound high 2 ltac:(lia)). repeat split; lia. }
  assert (forall k, low <= k -> k mod 2 = 1 -> low' <= k) as Hleast.
  { intros k Hk Hodd. destruct (Z.eq_dec low' low) as [-> | Hne]; [exact Hk |].
    assert (k <> low) by (intros ->; unfold low' in Hne;
                          destruct (low mod 2 =? 0) eqn:Hz;
                          [apply Z.eqb_eq in Hz; lia | congruence]).
    lia. }
  assert (forall k, k <= high -> k mod 2 = 1 -> k <= high') as Hgreatest.
  { intros k Hk Hodd. destruct (Z.eq_dec high' high) as [-> | Hne]; [exact Hk |].
    assert (k <> high) by (intros ->; unfold high' in Hne;
                           destruct (high mod 2 =? 0) eqn:Hz;
                           [apply Z.eqb_eq in Hz; lia | congruence]).
    lia. }
  destruct (Z.gtb_spec low' high') as [Hgt | Hle].
  - split.
    + split; [| reflexivity]. intros _ (k & Hk & Hodd).
      pose proof (Hleast k ltac:(lia) Hodd). pose proof (Hgreatest k ltac:(lia) Hodd).
      lia.
    + intros (k & Hk & Hodd).
      pose proof (Hleast k ltac:(lia) Hodd). pose proof (Hgreatest k ltac:(lia) Hodd).
      lia.
  - split.
    + split; [discriminate |]. intros Hnone. exfalso. apply Hnone.
      exists low'. repeat split; lia.
    + intros _. eauto.
Qed.

Lemma progression_loop_spec (k : nat) :
  forall candidate high modulus filter p,
    progression_loop k candidate high modulus filter = Some p ->
    (modulus | p - candidate) /\ p <= high /\ p mod 2 = 1
    /\ is_probable_prime p = true
    /\ match filter with None => True | Some f => f p = true end
    /\ (0 < modulus -> candidate <= p).
Proof.
  induction k as [| k IH]; intros candidate high modulus filter p E;
    cbn [progression_loop] in E; [discriminate |].
  destruct (Z.leb_spec candidate high) as [Hle | _]; [| discriminate].
  destruct ((candidate mod 2 =? 1) && is_probable_prime candidate
            && match filter with None => true | Some f => f candidate end) eqn:Hc.
  - injection E as <-. apply andb_true_iff in Hc. destruct Hc as [Hc Hf].
    apply andb_true_iff in Hc. destruct Hc as [Hodd Hpp].
    apply Z.eqb_eq in Hodd. rewrite Z.sub_diag.
    repeat split; try assumption; try lia; [apply Z.divide_0_r |].
    destruct filter; [exact Hf | exact I].
  - destruct (IH _ _ _ _ _ E) as (Hdiv & Hhigh & Hodd & Hpp & Hf & Hge).
    repeat split; try assumption; [| lia].
    replace (p - candidate) with ((p - (candidate + modulus)) + modulus) by ring.
    apply Z.divide_add_r; [exact Hdiv | apply Z.divide_refl].
Qed.

(** What a search in the progression returns, whatever the generator. *)
Lemma find_prime_in_progression_found (rng rng' : G)
  (digits_count residue modulus max_steps p : Z) (filter : option (Z -> bool)) :
  find_prime_in_progression rng digits_count residue modulus max_steps filter
  = Done (Some p, rng') ->
  0 < modulus /\ (modulus | p - residue) /\ p mod 2 = 1
  /\ p <= 10 ^ digits_count - 1 /\ is_probable_prime p = true
  /\ match filter with None => True | Some f => f p = true end.
Proof.
  unfold find_prime_in_progression.
  destruct (Z.leb_spec modulus 0) as [_ | Hmod]; [discriminate |].
  intros E. apply bind_done in E. destruct E as ([start rng1] & _ & E).
  injection E as E _. apply progression_loop_spec in E.
  destruct E as (Hdiv & Hhigh & Hodd & Hpp & Hf & _).
  repeat split; try assumption.
  set (delta := (residue - start) mod modulus) in *.
  assert ((modulus | start + delta - residue)) as H0.
  { exists (- ((residue - start) / modulus)).
    pose proof (Z.div_mod (residue - start) modulus ltac:(lia)). fold delta in H0.
    lia. }
  destruct (start + delta <? 10 ^ (digits_count - 1)).
  - replace (p - residue)
      with ((p - (start + delta + modulus)) + ((start + delta - residue) + modulus))
      by ring.
    apply Z.divide_add_r; [exact Hdiv |].
    apply Z.divide_add_r; [exact H0 | apply Z.divide_refl].
  - replace (p - residue) with ((p - (start + delta)) + (start + delta - residue))
      by ring.
    apply Z.divide_add_r; assumption.
Qed.

(** The law of [randrange] for step 2: a draw lies between its bounds. *)
Hypothesis randrange_bounds :
  forall rng low high, low <= high ->
    low <= fst (randrange rng low (high + 1) 2) <= high.

Lemma random_odd_in_range_within (rng rng' : G) (low high candidate : Z) :
  random_odd_in_range rng low high = Done (candidate, rng') ->
  low <= candidate <= high.
Proof.
  unfold random_odd_in_range.
  set (low' := if low mod 2 =? 0 then low + 1 else low).
  set (high' := if high mod 2 =? 0 then high - 1 else high).
  assert (low <= low') as Hlow by (unfold low'; destruct (low mod 2 =? 0); lia).
  assert (high' <= high) as Hhigh by (unfold high'; destruct (high mod 2 =? 0); lia).
  destruct (Z.gtb_spec low' high') as [Hgt | Hle]; [discriminate |].
  intros E. injection E as E.
  pose proof (randrange_bounds rng low' high' Hle) as Hdraw.
  rewrite E in Hdraw. cbn [fst] in Hdraw. lia.
Qed.

(** X14. A prime returned by [find_prime_in_progression] is congruent to
    [residue] modulo [modulus], odd, accepted by the multi-base filter and
    by the optional predicate, and lies in the digit range
    [10^(digits_count-1), 10^digits_count - 1]; a result is only possible
    for a positive modulus. *)
Theorem find_prime_in_progression_spec (rng rng' : G)
  (digits_count residue modulus max_steps p : Z) (filter : option (Z -> bool)) :
  find_prime_in_progression rng digits_count residue modulus max_steps filter
  = Done (Some p, rng') ->
  0 < modulus /\ (modulus | p - residue) /\ p mod 2 = 1
  /\ 10 ^ (digits_count - 1) <= p <= 10 ^ digits_count - 1
  /\ is_probable_prime p = true
  /\ match filter with None => True | Some f => f p = true end.
Proof.
  intros E.
  destruct (find_prime_in_progression_found _ _ _ _ _ _ _ _ E)
    as (Hmod & Hdiv & Hodd & Hhigh & Hpp & Hf).
  repeat split; try assumption.
  unfold find_prime_in_progression in E.
  destruct (Z.leb_spec modulus 0) as [Hle | _]; [lia |].
  apply bind_done in E. destruct E as ([start rng1] & Edraw & E).
  apply random_odd_in_range_within in Edraw.
  injection E as E _. apply progression_loop_spec in E.
  destruct E as (_ & _ & _ & _ & _ & Hge). specialize (Hge Hmod).
  pose proof (Z.mod_pos_bound (residue - start) modulus Hmod).
  destruct (start + (residue - start) mod modulus <? 10 ^ (digits_count - 1)); lia.
Qed.

End Draws.

Lemma random_odd_in_range_raises_iff_witness :
  random_odd_in_range (G := Z) 0 4 4 = Raised (ValueError "invalid range")
  /\ exists r, random_odd_in_range (G := Z) 0 4 5 = Done r.
Proof.
  split.
  - apply (proj1 (random_odd_in_range_raises_iff 0 4 4)).
    intros (k & Hk & Hodd). assert (k = 4) as -> by lia. discriminate Hodd.
  - apply (proj2 (random_odd_in_range_raises_iff 0 4 5)).
    exists 5. split; [lia | reflexivity].
Defined.


Lemma find_prime_in_progression_spec_witness :
  find_prime_in_progression (G := Z) 0 2 3 8 50 None = Done (Some 11, 1)
  /\ (8 | 11 - 3) /\ 10 ^ (2 - 1) <= 11 <= 10 ^ 2 - 1.
Proof.
  assert (find_prime_in_progression (G := Z) 0 2 3 8 50 None = Done (Some 11, 1))
    as E by (vm_compute; reflexivity).
  split; [exact E |].
  apply (find_prime_in_progression_spec (G := Z) (H := counter_rng) counter_rng_bounds) in E. tauto.
Defined.

(** ** The other generators *)

Lemma loop_exit_condition (target : Z) (factors : list Z) :
  (digits (prod_or_one factors) <? target) || (len factors mod 2 =? 0) = false ->
  len factors mod 2 = 1 /\ target <= digits (prod_or_one factors).
Proof.
  intros Hc. apply orb_false_iff in Hc. destruct Hc as [Hd Hl].
  apply Z.ltb_ge in Hd. apply Z.eqb_neq in Hl.
  pose proof (Z.mod_pos_bound (len factors) 2 ltac:(lia)). lia.
Qed.

Lemma divide_to_mod (m r a : Z) : 0 < m -> (m | r - a) -> r mod m = a mod m.
Proof.
  intros Hm [c Hc]. replace r with (a + c * m) by lia. apply Z_mod_plus_full.
Qed.

Section Generated.

Context {G : Type} `{Rng G}.

Lemma pomerance_modular_loop_spec (P : Z -> Prop) (fuel : nat) :
  forall rng target prime_digits max_steps residue modulus factors result,
    (forall rng rng' p,
        find_prime_in_progression rng prime_digits residue modulus max_steps None
        = Done (Some p, rng') -> P p) ->
    Forall P factors -> len factors <= 9 ->
    pomerance_modular_loop fuel rng target prime_digits max_steps residue modulus
      factors = Done (Some result) ->
    Forall P result
    /\ ((len result mod 2 = 1 /\ target <= digits (prod_or_one result))
        \/ len result = 10).
Proof.
  induction fuel as [| fuel IH];
    intros rng target prime_digits max_steps residue modulus factors result
      Hfind Hall Hlen E;
    cbn [pomerance_modular_loop] in E;
    destruct ((digits (prod_or_one factors) <? target)
              || (len factors mod 2 =? 0)) eqn:Hc;
    try discriminate;
    try (injection E as <-; split; [exact Hall | left; now apply loop_exit_condition]).
  apply bind_done in E. destruct E as ([[prime |] rng1] & Efind & E);
    [| discriminate].
  apply Hfind in Efind.
  assert (Forall P (factors ++ [prime])) as Hall'.
  { apply Forall_app. split; [exact Hall | constructor; [exact Efind | constructor]]. }
  pose proof (len_app_one factors prime) as Hlen'.
  destruct (Z.gtb_spec (len (factors ++ [prime])) 9) as [Hgt | Hle].
  - injection E as <-. split; [exact Hall' | right; lia].
  - exact (IH _ _ _ _ _ _ _ _ Hfind Hall' Hle E).
Qed.

(** X15. When the products of [m_primes] and of [n_primes] are positive,
    every factor of a product returned by [generate_pomerance_modular] is
    3 modulo 8, [mod5_residue] modulo 5, 1 modulo the product of [m_primes],
    -1 modulo the product of [n_primes], and accepted by the multi-base
    filter; the returned number is the product of the factors, whose count
    is odd (with at least [target_digits] digits reached) or 10. *)
Theorem pomerance_modular_factors
  (seed target prime_digits max_steps : Z) (m_primes n_primes : list Z)
  (mod5_residue n : Z) (m : meta) :
  0 < prod_or_one m_primes -> 0 < prod_or_one n_primes ->
  generate_pomerance_modular seed target prime_digits max_steps m_primes n_primes
    mod5_residue = Done (Some (n, m)) ->
  exists factors,
    n = prod factors
    /\ Forall (fun p => p mod 8 = 3
                        /\ p mod 5 = mod5_residue mod 5
                        /\ (prod_or_one m_primes | p - 1)
                        /\ (prod_or_one n_primes | p + 1)
                        /\ is_probable_prime p = true) factors
    /\ ((len factors mod 2 = 1 /\ target <= digits n) \/ len factors = 10).
Proof.
  intros Hm Hn E. unfold generate_pomerance_modular in E.
  apply bind_done in E. destruct E as ([residue modulus] & Ebuild & E).
  apply bind_done in E. destruct E as ([factors |] & Eloop & E); [| discriminate].
  injection E as <- _. exists factors. split; [reflexivity |].
  apply build_mod_constraint_spec_aux in Ebuild; [| exact Hm | exact Hn].
  destruct Ebuild as (Hrange & Hmod & H8 & H5 & Hpm & Hpn).
  assert ((Z.lcm 40 (prod_or_one m_primes) | modulus)) as H40m
    by (rewrite Hmod; apply Z.divide_lcm_l).
  assert ((40 | modulus)) as H40
    by (eapply Z.divide_trans; [apply Z.divide_lcm_l | exact H40m]).
  apply (pomerance_modular_loop_spec
           (fun p => p mod 8 = 3
                     /\ p mod 5 = mod5_residue mod 5
                     /\ (prod_or_one m_primes | p - 1)
                     /\ (prod_or_one n_primes | p + 1)
                     /\ is_probable_prime p = true)) in Eloop.
  - destruct Eloop as [Hall Hcount]. split; [exact Hall |].
    destruct Hcount as [[Hodd Hdig] | Hten]; [left | now right].
    split; [exact Hodd |]. destruct factors; [discriminate Hodd | exact Hdig].
  - intros rng rng' p Efind.
    apply find_prime_in_progression_found in Efind.
    destruct Efind as (_ & Hdiv & _ & _ & Hpp & _).
    assert (forall k a, (k | modulus) -> (k | residue - a) -> (k | p - a)) as Hlift.
    { intros k a Hk Ha. replace (p - a) with ((p - residue) + (residue - a)) by ring.
      apply Z.divide_add_r; [apply Z.divide_trans with modulus; assumption | exact Ha]. }
    split; [| split; [| split; [| split]]].
    + change (p mod 8 = 3 mod 8). apply divide_to_mod; [lia |].
      apply Hlift; [| exact H8].
      eapply Z.divide_trans; [| exact H40]. exists 5. reflexivity.
    + apply divide_to_mod; [lia |]. apply Hlift; [| exact H5].
      eapply Z.divide_trans; [| exact H40]. exists 8. reflexivity.
    + apply Hlift; [| exact Hpm].
      eapply Z.divide_trans; [apply Z.divide_lcm_r | exact H40m].
    + replace (p + 1) with (p - -1) by ring. apply Hlift.
      * rewrite Hmod. apply Z.divide_lcm_r.
      * replace (residue - -1) with (residue + 1) by ring. exact Hpn.
    + exact Hpp.
  - constructor.
  - cbn. lia.
Qed.

End Generated.

Lemma pomerance_modular_factors_witness :
  exists factors,
    390137163443 = prod factors
    /\ Forall (fun p => p mod 8 = 3
                        /\ p mod 5 = 2 mod 5
                        /\ (prod_or_one [13] | p - 1)
                        /\ (prod_or_one [3] | p + 1)
                        /\ is_probable_prime p = true) factors
    /\ ((len factors mod 2 = 1 /\ 5 <= digits 390137163443) \/ len factors = 10).
Proof.
  assert (exists m, generate_pomerance_modular (G := Z) 1 5 4 50 [13] [3] 2
                    = Done (Some (390137163443, m))) as [m E]
    by (vm_compute; eexists; reflexivity).
  apply (pomerance_modular_factors (G := Z) 1 5 4 50 [13] [3] 2 _ m);
    [reflexivity | reflexivity | exact E].
Defined.

(** ** The lambda+1 generator *)

Section Smooth.

Context {G : Type} `{Rng G}.

(** The law of [randint]: a draw lies between its bounds. *)
Hypothesis randint_bounds :
  forall rng a b, a <= b -> a <= fst (randint rng a b) <= b.

Lemma lambda_draw_spec (lambda_factors : list (Z * Z)) :
  forall rng d d' rng',
    lambda_draw rng lambda_factors d = Done (d', rng') ->
    exists exps,
      Forall2 (fun c exp => 0 <= exp <= snd c) lambda_factors exps
      /\ d' = d * smooth_value lambda_factors exps.
Proof.
  induction lambda_factors as [| [base max_exp] rest IH]; intros rng d d' rng' E;
    cbn [lambda_draw] in E.
  - injection E as <- _. exists []. split; [constructor | cbn; ring].
  - apply bind_done in E. destruct E as ([exp rng1] & Edraw & E).
    unfold py_randint in Edraw.
    destruct (Z.ltb_spec max_exp 0) as [_ | Hmax]; [discriminate |].
    injection Edraw as Edraw.
    pose proof (randint_bounds rng 0 max_exp Hmax) as Hexp.
    rewrite Edraw in Hexp. cbn [fst] in Hexp.
    destruct (IH _ _ _ _ E) as (exps & Hall & Hd).
    exists (exp :: exps). split; [constructor; [exact Hexp | exact Hall] |].
    rewrite Hd. cbn [smooth_value].
    destruct (Z.eqb_spec exp 0) as [-> | _]; [rewrite Z.pow_0_r |]; ring.
Qed.

Lemma lambda_attempts_spec (k : nat) :
  forall rng lambda_factors require_prime p rng',
    lambda_attempts k rng lambda_factors require_prime = Done (Some p, rng') ->
    2 < p
    /\ (require_prime = true -> is_probable_prime p = true)
    /\ exists exps,
         Forall2 (fun c exp => 0 <= exp <= snd c) lambda_factors exps
         /\ p - 1 = smooth_value lambda_factors exps.
Proof.
  induction k as [| k IH]; intros rng lambda_factors require_prime p rng' E;
    cbn [lambda_attempts] in E; [discriminate |].
  apply bind_done in E. destruct E as ([d rng1] & Edraw & E).
  destruct ((d + 1 >? 2) && (negb require_prime || is_probable_prime (d + 1)))
    eqn:Hc.
  - injection E as <- _. apply andb_true_iff in Hc. destruct Hc as [Hgt Hpp].
    apply lambda_draw_spec in Edraw. destruct Edraw as (exps & Hall & Hd).
    split; [lia |]. split.
    + intros ->. exact Hpp.
    + exists exps. split; [exact Hall | lia].
  - exact (IH _ _ _ _ _ E).
Qed.

Lemma lambda_loop_spec (P : Z -> Prop) (fuel : nat) :
  forall rng target lambda_factors require_prime max_steps factors result,
    (forall rng rng' p,
        lambda_attempts (Z.to_nat max_steps) rng lambda_factors require_prime
        = Done (Some p, rng') -> P p) ->
    Forall P factors -> len factors <= 9 ->
    lambda_loop fuel rng target lambda_factors require_prime max_steps factors
    = Done (Some result) ->
    Forall P result
    /\ ((len result mod 2 = 1 /\ target <= digits (prod_or_one result))
        \/ len result = 10).
Proof.
  induction fuel as [| fuel IH];
    intros rng target lambda_factors require_prime max_steps factors result
      Hfind Hall Hlen E;
    cbn [lambda_loop] in E;
    destruct ((digits (prod_or_one factors) <? target)
              || (len factors mod 2 =? 0)) eqn:Hc;
    try discriminate;
    try (injection E as <-; split; [exact Hall | left; now apply loop_exit_condition]).
  apply bind_done in E. destruct E as ([[p |] rng1] & Efind & E); [| discriminate].
  apply Hfind in Efind.
  assert (Forall P (factors ++ [p])) as Hall'.
  { apply Forall_app. split; [exact Hall | constructor; [exact Efind | constructor]]. }
  pose proof (len_app_one factors p) as Hlen'.
  destruct (Z.gtb_spec (len (factors ++ [p])) 9) as [Hgt | Hle].
  - injection E as <-. split; [exact Hall' | right; lia].
  - exact (IH _ _ _ _ _ _ _ Hfind Hall' Hle E).
Qed.

(** X16. Every factor [p] of a product returned by
    [generate_lambda_plus_one] is greater than 2 and [p - 1] is the product
    of the configured bases raised to exponents between 0 and their
    [max_exp]; with [require_prime] each factor is accepted by the
    multi-base filter.  The returned number is the product of the factors,
    whose count is odd (with [target_digits] digits reached) or 10. *)
Theorem lambda_plus_one_factors (seed target : Z) (lambda_factors : list (Z * Z))
  (require_prime : bool) (max_steps n : Z) (m : meta) :
  generate_lambda_plus_one seed target lambda_factors require_prime max_steps
  = Done (Some (n, m)) ->
  exists factors,
    n = prod factors
    /\ Forall (fun p =>
                 2 < p
                 /\ (require_prime = true -> is_probable_prime p = true)
                 /\ exists exps,
                      Forall2 (fun c exp => 0 <= exp <= snd c) lambda_factors exps
                      /\ p - 1 = smooth_value lambda_factors exps) factors
    /\ ((len factors mod 2 = 1 /\ target <= digits n) \/ len factors = 10).
Proof.
  unfold generate_lambda_plus_one. intros E.
  apply bind_done in E. destruct E as ([factors |] & Eloop & E); [| discriminate].
  injection E as <- _. exists factors. split; [reflexivity |].
  apply (lambda_loop_spec
           (fun p => 2 < p
                     /\ (require_prime = true -> is_probable_prime p = true)
                     /\ exists exps,
                          Forall2 (fun c exp => 0 <= exp <= snd c) lambda_factors exps
                          /\ p - 1 = smooth_value lambda_factors exps)) in Eloop.
  - destruct Eloop as [Hall Hcount]. split; [exact Hall |].
    destruct Hcount as [[Hodd Hdig] | Hten]; [left | now right].
    split; [exact Hodd |]. destruct factors; [discriminate Hodd | exact Hdig].
  - intros rng rng' p. apply lambda_attempts_spec.
  - constructor.
  - cbn. lia.
Qed.

End Smooth.

(** The generator used for running the model respects the bounds of
    [randint]. *)
Lemma counter_rng_randint_bounds (rng a b : Z) :
  a <= b -> a <= fst (randint (G := Z) rng a b) <= b.
Proof.
  intros Hle. cbn [randint counter_rng]. unfold counter_randrange. cbn [fst].
  replace ((b + 1 - a + 1 - 1) / 1) with (b + 1 - a) by (rewrite Z.div_1_r; lia).
  pose proof (Z.mod_pos_bound rng (b + 1 - a) ltac:(lia)). lia.
Qed.

Lemma lambda_plus_one_factors_witness :
  exists factors,
    553413 = prod factors
    /\ Forall (fun p =>
                 2 < p
                 /\ (true = true -> is_probable_prime p = true)
                 /\ exists exps,
                      Forall2 (fun c exp => 0 <= exp <= snd c) [(2, 3); (3, 2)] exps
                      /\ p - 1 = smooth_value [(2, 3); (3, 2)] exps) factors
    /\ ((len factors mod 2 = 1 /\ 6 <= digits 553413) \/ len factors = 10).
Proof.
  assert (exists m, generate_lambda_plus_one (G := Z) 1 6 [(2, 3); (3, 2)] true 50
                    = Done (Some (553413, m))) as [m E]
    by (vm_compute; eexists; reflexivity).
  exact (lambda_plus_one_factors (G := Z) (H := counter_rng)
           counter_rng_randint_bounds 1 6 [(2, 3); (3, 2)] true 50 _ m E).
Defined.

(** ** Chernick candidates and the edges of the prime search *)

(** X17. A candidate returned by [generate_chernick] is the product
    [(6k+1)(12k+1)(18k+1)], and each factor [f] satisfies [f - 1 | n - 1];
    with [require_prime_factors] the three factors are accepted by the
    multi-base filter, and without it a candidate is always returned. *)
Theorem generate_chernick_spec (k : Z) (require_prime_factors : bool) :
  (forall n m, generate_chernick k require_prime_factors = Some (n, m) ->
     n = (6 * k + 1) * (12 * k + 1) * (18 * k + 1)
     /\ (6 * k | n - 1) /\ (12 * k | n - 1) /\ (18 * k | n - 1)
     /\ (require_prime_factors = true ->
         is_probable_prime (6 * k + 1) = true
         /\ is_probable_prime (12 * k + 1) = true
         /\ is_probable_prime (18 * k + 1) = true))
  /\ (require_prime_factors = false ->
      exists m, generate_chernick k false
                = Some ((6 * k + 1) * (12 * k + 1) * (18 * k + 1), m)).
Proof.
  split.
  - intros n m E. unfold generate_chernick in E. cbv zeta in E.
    destruct (require_prime_factors
              && negb (is_probable_prime (6 * k + 1)
                       && is_probable_prime (12 * k + 1)
                       && is_probable_prime (18 * k + 1))) eqn:Hc;
      [discriminate |].
    assert (n = (6 * k + 1) * (12 * k + 1) * (18 * k + 1)) as -> by congruence.
    clear E. split; [reflexivity |].
    split; [exists (216 * k * k + 66 * k + 6); ring |].
    split; [exists (108 * k * k + 33 * k + 3); ring |].
    split; [exists (72 * k * k + 22 * k + 2); ring |].
    intros ->. cbn [andb] in Hc. apply negb_false_iff in Hc.
    apply andb_true_iff in Hc. destruct Hc as [Hc H3].
    apply andb_true_iff in Hc. tauto.
  - intros _. unfold generate_chernick. cbn [andb]. eauto.
Qed.

Lemma generate_chernick_spec_witness :
  exists m, generate_chernick 6 true = Some (294409, m)
            /\ (6 * 6 | 294409 - 1) /\ (12 * 6 | 294409 - 1) /\ (18 * 6 | 294409 - 1).
Proof.
  assert (exists m, generate_chernick 6 true = Some (294409, m)) as [m E]
    by (vm_compute; eexists; reflexivity).
  exists m. split; [exact E |].
  apply (proj1 (generate_chernick_spec 6 true)) in E. tauto.
Defined.

Section SearchEdges.

Context {G : Type} `{Rng G}.

(** X18. [find_prime_with_filters] gives up at once, without a draw, when
    [max_steps] is not positive; with a positive [max_steps] and a digit
    count that is not positive it raises the [ValueError] of the draw
    instead of returning [None]. *)
Theorem find_prime_with_filters_edges (rng : G) (digits_count max_steps : Z)
  (filter : Z -> bool) :
  (max_steps <= 0 ->
   find_prime_with_filters rng digits_count max_steps filter = Done (None, rng))
  /\ (1 <= max_steps -> digits_count <= 0 ->
      find_prime_with_filters rng digits_count max_steps filter
      = Raised (ValueError "invalid range")).
Proof.
  unfold find_prime_with_filters. split.
  - intros Hms. replace (Z.to_nat max_steps) with 0%nat by lia. reflexivity.
  - intros Hms Hdc.
    destruct (Z.to_nat max_steps) as [| k] eqn:Hk; [lia |].
    cbn [filters_loop]. unfold random_odd_in_range.
    rewrite (Z.pow_neg_r 10 (digits_count - 1)) by lia.
    destruct (Z.eq_dec digits_count 0) as [-> | Hne].
    + reflexivity.
    + rewrite (Z.pow_neg_r 10 digits_count) by lia. reflexivity.
Qed.

End SearchEdges.

Lemma find_prime_with_filters_edges_witness :
  find_prime_with_filters (G := Z) 5 3 0 predicate = Done (None, 5)
  /\ find_prime_with_filters (G := Z) 5 0 10 predicate
     = Raised (ValueError "invalid range").
Proof.
  split.
  - apply (proj1 (find_prime_with_filters_edges (G := Z) 5 3 0 predicate)). lia.
  - apply (proj2 (find_prime_with_filters_edges (G := Z) 5 0 10 predicate)); lia.
Defined.

(** ** Further properties of the executor *)

Section ExecutorHits.

Context {G : Type} `{Rng G}.
Variable gmpy2 : option (Z -> option bool).
Variable fuel : nat.

Lemma test_candidate_hits (n : Z) (m : meta) (st st' : State) :
  hits_match gmpy2 fuel st -> test_candidate gmpy2 fuel n m st = Done st' ->
  hits_match gmpy2 fuel st'.
Proof.
  unfold hits_match, test_candidate. intros Hst E.
  apply bind_done in E. destruct E as (verdict & Ev & E). injection E as <-.
  cbn [hits tested]. rewrite filter_app, map_app. cbn [filter].
  unfold passes at 2. rewrite Ev.
  destruct verdict.
  - rewrite map_app, Hst. reflexivity.
  - cbn [map]. rewrite app_nil_r. exact Hst.
Qed.

Lemma range_loop_hits (args : Args) (ns : list Z) :
  forall st st', hits_match gmpy2 fuel st ->
    range_loop gmpy2 fuel args ns st = Done st' -> hits_match gmpy2 fuel st'.
Proof.
  induction ns as [| n rest IH]; intros st st' Hst E; cbn [range_loop] in E.
  - now injection E as <-.
  - destruct (negb (max_candidates args =? 0) && (checked st >=? max_candidates args)).
    + now injection E as <-.
    + apply bind_done in E. destruct E as (st1 & Etest & E).
      apply (IH st1 st'); [| exact E].
      exact (test_candidate_hits _ _ (count st) _ Hst Etest).
Qed.

Lemma chernick_loop_hits (args : Args) (ks : list Z) :
  forall st st', hits_match gmpy2 fuel st ->
    chernick_loop gmpy2 fuel args ks st = Done st' -> hits_match gmpy2 fuel st'.
Proof.
  induction ks as [| k rest IH]; intros st st' Hst E; cbn [chernick_loop] in E.
  - now injection E as <-.
  - destruct (generate_chernick k (require_prime_factors args)) as [[n m] |].
    + apply bind_done in E. destruct E as (st1 & Etest & E).
      apply (IH st1 st'); [| exact E].
      exact (test_candidate_hits _ _ (count st) _ Hst Etest).
    + exact (IH (count st) st' Hst E).
Qed.

Lemma seed_loop_hits (args : Args) (m_primes n_primes : list Z)
  (lambda_factors : list (Z * Z)) (seeds : list Z) :
  forall st st', hits_match gmpy2 fuel st ->
    seed_loop gmpy2 fuel args m_primes n_primes lambda_factors seeds st = Done st' ->
    hits_match gmpy2 fuel st'.
Proof.
  induction seeds as [| seed rest IH]; intros st st' Hst E; cbn [seed_loop] in E.
  - now injection E as <-.
  - apply bind_done in E. destruct E as ([[n m] |] & _ & E).
    + apply bind_done in E. destruct E as (st1 & Etest & E).
      apply (IH st1 st'); [| exact E].
      exact (test_candidate_hits _ _ (count st) _ Hst Etest).
    + exact (IH (add_error seed (count st)) st' Hst E).
Qed.

(** X19. In every report the hits are exactly the tested numbers that the
    primality test accepted, in the order of testing, each with its decimal
    string and its digit count; so there are never more hits than tests. *)
Theorem hits_are_accepted_candidates (args : Args) (st : State) :
  execute gmpy2 fuel args = Done st ->
  map hit_key (report_hits (payload args st))
  = map (fun n => (str n, digits n)) (filter (passes gmpy2 fuel) (tested st))
  /\ hit_count (payload args st) <= len (tested st).
Proof.
  intros E.
  assert (hits_match gmpy2 fuel st) as Hst.
  { unfold execute in E.
    assert (hits_match gmpy2 fuel initial_state) as Hinit by reflexivity.
    destruct (task_type args);
      match type of E with
      | (if ?c then _ else _) = _ => destruct c; [discriminate |]
      end.
    - exact (range_loop_hits _ _ _ _ Hinit E).
    - exact (range_loop_hits _ _ _ _ Hinit E).
    - exact (chernick_loop_hits _ _ _ _ Hinit E).
    - exact (seed_loop_hits _ _ _ _ _ _ _ Hinit E).
    - exact (seed_loop_hits _ _ _ _ _ _ _ Hinit E).
    - exact (seed_loop_hits _ _ _ _ _ _ _ Hinit E). }
  cbn [payload report_hits hit_count]. split; [exact Hst |].
  unfold hits_match in Hst. apply (f_equal (@List.length _)) in Hst.
  rewrite !length_map in Hst. unfold len. rewrite Hst.
  pose proof (filter_length_le (passes gmpy2 fuel) (tested st)). lia.
Qed.

(** Nothing but the check of the bounds raises in the two loops that call
    no generator with a random draw. *)
Lemma bpsw_never_raises (n : Z) (e : exn) :
  is_bpsw_probable_prime gmpy2 fuel n <> Raised e.
Proof.
  unfold is_bpsw_probable_prime, lucas_selfridge.
  destruct (n <? 2); [discriminate |].
  destruct (trial_division n SMALL_PRIMES); [discriminate |].
  destruct gmpy2; [discriminate |].
  destruct (miller_rabin n [2]); [| discriminate].
  cbn [orb]. destruct (n mod 2 =? 0); [discriminate |].
  destruct (is_square n); [discriminate |].
  destruct (select_d fuel n 5 1); [| discriminate].
  destruct (strip_twos (Z.to_pos (n + 1)) 0) as [n_plus_one s].
  destruct (lucas_ladder _ _ _ _ _) as [[u v] q_k].
  destruct ((u =? 0) || (v =? 0)); discriminate.
Qed.

Lemma test_candidate_never_raises (n : Z) (m : meta) (st : State) (e : exn) :
  test_candidate gmpy2 fuel n m st <> Raised e.
Proof.
  unfold test_candidate. pose proof (bpsw_never_raises n) as Hbpsw.
  destruct (is_bpsw_probable_prime gmpy2 fuel n) as [verdict | e1 |]; cbn [bind].
  - discriminate.
  - exfalso. exact (Hbpsw e1 eq_refl).
  - discriminate.
Qed.

Lemma range_loop_never_raises (args : Args) (ns : list Z) (e : exn) :
  forall st, range_loop gmpy2 fuel args ns st <> Raised e.
Proof.
  induction ns as [| n rest IH]; intros st; cbn [range_loop]; [discriminate |].
  destruct (negb (max_candidates args =? 0) && (checked st >=? max_candidates args));
    [discriminate |].
  pose proof (test_candidate_never_raises n
                [("family"%string, JStr (task_name (task_type args)))] (count st))
    as Htest.
  destruct (test_candidate _ _ n _ (count st)) as [st1 | e1 |]; cbn [bind].
  - apply IH.
  - exfalso. exact (Htest e1 eq_refl).
  - discriminate.
Qed.

Lemma chernick_loop_never_raises (args : Args) (ks : list Z) (e : exn) :
  forall st, chernick_loop gmpy2 fuel args ks st <> Raised e.
Proof.
  induction ks as [| k rest IH]; intros st; cbn [chernick_loop]; [discriminate |].
  destruct (generate_chernick k (require_prime_factors args)) as [[n m] |];
    [| apply IH].
  pose proof (test_candidate_never_raises n m (count st)) as Htest.
  destruct (test_candidate _ _ n m (count st)) as [st1 | e1 |]; cbn [bind].
  - apply IH.
  - exfalso. exact (Htest e1 eq_refl).
  - discriminate.
Qed.

(** X20. In range mode and in Chernick mode the only exception is the
    [SystemExit] for missing bounds: it is raised exactly when [start] and
    [end] are both 0, and no other exception can leave the loops. *)
Theorem range_and_chernick_exceptions (args : Args) :
  task_type args = main_odds \/ task_type args = large_numbers
  \/ task_type args = chernick ->
  (forall e, execute gmpy2 fuel args = Raised e ->
     start args = 0 /\ end_ args = 0 /\ exists msg, e = SystemExit msg)
  /\ (start args = 0 -> end_ args = 0 ->
      exists msg, execute gmpy2 fuel args = Raised (SystemExit msg)).
Proof.
  intros Hmode.
  assert (forall loop : outcome State,
            (forall e, loop <> Raised e) ->
            forall msg,
            (forall e,
                (if (start args =? 0) && (end_ args =? 0)
                 then Raised (SystemExit msg) else loop) = Raised e ->
                start args = 0 /\ end_ args = 0 /\ exists msg', e = SystemExit msg')
            /\ (start args = 0 -> end_ args = 0 ->
                exists msg',
                  (if (start args =? 0) && (end_ args =? 0)
                   then Raised (SystemExit msg) else loop)
                  = Raised (SystemExit msg'))) as Hshape.
  { intros loop Hloop msg.
    destruct (Z.eqb_spec (start args) 0) as [Hs | Hs];
      destruct (Z.eqb_spec (end_ args) 0) as [He | He]; cbn [andb]; split;
      try (intros e E; exfalso; exact (Hloop e E));
      try (intros Hs' He'; contradiction).
    - intros e E. injection E as <-. eauto.
    - intros _ _. eauto. }
  unfold execute. destruct Hmode as [-> | [-> | ->]]; apply Hshape; intros e.
  - apply range_loop_never_raises.
  - apply range_loop_never_raises.
  - apply chernick_loop_never_raises.
Qed.

End ExecutorHits.

Lemma hits_are_accepted_candidates_witness :
  exists st,
    execute (G := Z) None 4 (default_args main_odds 40 50) = Done st
    /\ map hit_key (report_hits (payload (default_args main_odds 40 50) st))
       = [("47"%string, 2)]
    /\ tested st = [41; 43; 45; 47; 49].
Proof.
  assert (exists st, execute (G := Z) None 4 (default_args main_odds 40 50) = Done st
                     /\ tested st = [41; 43; 45; 47; 49]) as (st & E & Ht)
    by (eexists; split; [vm_compute; reflexivity | reflexivity]).
  exists st. split; [exact E |]. split; [| exact Ht].
  rewrite (proj1 (hits_are_accepted_candidates None 4 _ st E)), Ht.
  vm_compute. reflexivity.
Defined.

Lemma range_and_chernick_exceptions_witness :
  exists msg,
    execute (G := Z) None 0 (default_args chernick 0 0) = Raised (SystemExit msg).
Proof.
  apply (proj2 (range_and_chernick_exceptions (G := Z) None 0
                  (default_args chernick 0 0)
                  (or_intror (or_intror eq_refl))));
    reflexivity.
Defined.

Section ExecutorDomain.

Context {G : Type} `{Rng G}.
Variable gmpy2 : option (Z -> option bool).
Variable fuel : nat.

Lemma firstn_cons_app {A : Type} (l : list A) (x : A) (rest : list A) (k : nat) :
  (l ++ [x]) ++ firstn k rest = l ++ firstn (S k) (x :: rest).
Proof. now rewrite <- app_assoc. Qed.

(** The range loop tests a prefix of its list, and the cap decides how
    long the prefix is. *)
Lemma range_loop_prefix (args : Args) (ns : list Z) :
  forall st st', range_loop gmpy2 fuel args ns st = Done st' ->
    0 <= checked st' - checked st <= len ns
    /\ tested st' = tested st ++ firstn (Z.to_nat (checked st' - checked st)) ns
    /\ (max_candidates args <> 0 ->
        checked st' = if checked st >=? max_candidates args then checked st
                      else Z.min (checked st + len ns) (max_candidates args)).
Proof.
  induction ns as [| n rest IH]; intros st st' E; cbn [range_loop] in E.
  - injection E as <-. rewrite Z.sub_diag. cbn. rewrite app_nil_r.
    split; [lia |]. split; [reflexivity |].
    intros _. destruct (Z.geb_spec (checked st) (max_candidates args)); lia.
  - assert (len (n :: rest) = len rest + 1) as Hcons by (unfold len; cbn; lia).
    assert (0 <= len rest) as Hrest by (unfold len; lia).
    destruct (Z.eqb_spec (max_candidates args) 0) as [Hm0 | Hm0]; cbn [negb andb] in E.
    + apply bind_done in E. destruct E as (st1 & Etest & E).
      apply test_candidate_done in Etest. destruct Etest as (Hc & Ht & _ & _).
      cbn [count checked tested] in Hc, Ht.
      destruct (IH _ _ E) as (Hk & Hpre & _).
      split; [lia |]. split; [| intros Hne; contradiction].
      rewrite Hpre, Ht, firstn_cons_app. do 2 f_equal. lia.
    + destruct (Z.geb_spec (checked st) (max_candidates args)) as [Hge | Hlt].
      * injection E as <-. rewrite Z.sub_diag. cbn. rewrite app_nil_r.
        split; [lia |]. split; [reflexivity |]. intros _. reflexivity.
      * apply bind_done in E. destruct E as (st1 & Etest & E).
        apply test_candidate_done in Etest. destruct Etest as (Hc & Ht & _ & _).
        cbn [count checked tested] in Hc, Ht.
        destruct (IH _ _ E) as (Hk & Hpre & Hcap). specialize (Hcap Hm0).
        rewrite Hc in Hcap.
        split; [lia |]. split.
        -- rewrite Hpre, Ht, firstn_cons_app. do 2 f_equal. lia.
        -- intros _. rewrite Hcap.
           destruct (Z.geb_spec (checked st + 1) (max_candidates args)); lia.
Qed.

(** X21. In range mode the tested numbers are the first [checked] entries of
    the list [start', start' + 2, ...] up to [end] ([start'] being [start]
    moved up to odd), and [max_candidates] caps the count: without a cap
    (0) the whole list is tested, with a positive cap [checked] is the
    smaller of the cap and the length of the list, and with a negative cap
    nothing is tested. *)
Theorem range_mode_cap (args : Args) (st : State) :
  task_type args = main_odds \/ task_type args = large_numbers ->
  execute gmpy2 fuel args = Done st ->
  tested st = firstn (Z.to_nat (checked st)) (range_domain args)
  /\ (max_candidates args = 0 -> checked st = len (range_domain args))
  /\ (0 < max_candidates args ->
      checked st = Z.min (len (range_domain args)) (max_candidates args))
  /\ (max_candidates args < 0 -> checked st = 0).
Proof.
  intros Hmode E.
  assert (range_loop gmpy2 fuel args (range_domain args) initial_state = Done st)
    as Eloop.
  { unfold execute in E. destruct Hmode as [Ht | Ht]; rewrite Ht in E;
      destruct ((start args =? 0) && (end_ args =? 0)); (discriminate || exact E). }
  pose proof (range_loop_counts gmpy2 fuel _ _ _ _ Eloop) as (_ & _ & Hall & _).
  apply range_loop_prefix in Eloop. destruct Eloop as (Hk & Hpre & Hcap).
  change (checked initial_state) with 0 in *.
  change (tested initial_state) with (@nil Z) in Hpre.
  rewrite Z.sub_0_r in Hpre, Hk. cbn [app] in Hpre.
  split; [exact Hpre |]. split; [intros H0; specialize (Hall H0); lia |].
  split; intros Hm; specialize (Hcap ltac:(lia)).
  - destruct (Z.geb_spec 0 (max_candidates args)); lia.
  - destruct (Z.geb_spec 0 (max_candidates args)); lia.
Qed.

Lemma in_firstn {A : Type} (k : nat) :
  forall (l : list A) (x : A), In x (firstn k l) -> In x l.
Proof.
  induction k as [| k IH]; intros [| y l] x Hin; cbn in Hin; try contradiction.
  destruct Hin as [-> | Hin]; [left; reflexivity | right; apply IH; exact Hin].
Qed.

Lemma in_range_domain (args : Args) (n : Z) :
  In n (range_domain args) ->
  n mod 2 = 1 /\ start args <= n <= end_ args.
Proof.
  unfold range_domain, py_range.
  set (first := if start args mod 2 =? 0 then start args + 1 else start args).
  assert (start args <= first /\ first mod 2 = 1) as [Hle Hodd].
  { unfold first. destruct (Z.eqb_spec (start args mod 2) 0) as [H0 | H0].
    - split; [lia |]. rewrite Zplus_mod, H0. reflexivity.
    - pose proof (Z.mod_pos_bound (start args) 2 ltac:(lia)). lia. }
  intros Hin. apply in_map_iff in Hin. destruct Hin as (i & <- & Hi).
  apply in_seq in Hi.
  split.
  - rewrite (Z.mul_comm 2), Z_mod_plus_full. exact Hodd.
  - split; [lia |].
    assert (Z.of_nat i < (end_ args + 1 - first + 2 - 1) / 2) as Hlt by lia.
    pose proof (Z.mul_div_le (end_ args + 1 - first + 2 - 1) 2 ltac:(lia)). lia.
Qed.

(** X22. In range mode every number handed to the primality test is odd
    and lies between [start] and [end]; in particular an even number, 2
    included, is never tested. *)
Theorem range_mode_tests_odd_numbers (args : Args) (st : State) (n : Z) :
  task_type args = main_odds \/ task_type args = large_numbers ->
  execute gmpy2 fuel args = Done st -> In n (tested st) ->
  n mod 2 = 1 /\ start args <= n <= end_ args.
Proof.
  intros Hmode E Hin.
  assert (range_loop gmpy2 fuel args (range_domain args) initial_state = Done st)
    as Eloop.
  { unfold execute in E. destruct Hmode as [Ht | Ht]; rewrite Ht in E;
      destruct ((start args =? 0) && (end_ args =? 0)); (discriminate || exact E). }
  apply range_loop_prefix in Eloop. destruct Eloop as (_ & Hpre & _).
  change (tested initial_state) with (@nil Z) in Hpre. cbn [app] in Hpre.
  rewrite Hpre in Hin. apply in_range_domain.
  eapply in_firstn. exact Hin.
Qed.

Lemma range_loop_errors (args : Args) (ns : list Z) :
  forall st st', range_loop gmpy2 fuel args ns st = Done st' ->
    errors st' = errors st.
Proof.
  induction ns as [| n rest IH]; intros st st' E; cbn [range_loop] in E.
  - now injection E as <-.
  - destruct (negb (max_candidates args =? 0)
              && (checked st >=? max_candidates args)).
    + now injection E as <-.
    + apply bind_done in E. destruct E as (st1 & Etest & E).
      apply test_candidate_done in Etest. destruct Etest as (_ & _ & He & _).
      rewrite (IH _ _ E). exact He.
Qed.

Lemma seed_loop_errors (args : Args) (seeds : list Z) :
  forall st st',
    seed_loop gmpy2 fuel args
      (parse_prime_list (m_primes args) DEFAULT_M_PRIMES)
      (parse_prime_list (n_primes args) DEFAULT_N_PRIMES)
      (parse_lambda_factors (lambda_factors args)) seeds st = Done st' ->
    errors st'
    = errors st
      ++ map (fun seed => {| error_seed := seed; error_tag := "generation_failed" |})
           (filter (generation_fails args) seeds).
Proof.
  induction seeds as [| seed rest IH]; intros st st' E; cbn [seed_loop] in E.
  - injection E as <-. cbn. now rewrite app_nil_r.
  - cbn [filter]. unfold generation_fails at 1.
    destruct (generate args _ _ _ seed) as [[[n m] |] | e |]; cbn [bind] in E;
      try discriminate.
    + apply bind_done in E. destruct E as (st1 & Etest & E).
      apply test_candidate_done in Etest. destruct Etest as (_ & _ & He & _).
      rewrite (IH _ _ E), He. reflexivity.
    + rewrite (IH _ _ E). cbn [add_error count errors map].
      now rewrite <- app_assoc.
Qed.

(** X23. The error records of a report are exactly the seeds on which the
    generator gave up, in order, each with the tag [generation_failed];
    range mode and Chernick mode record no error. *)
Theorem errors_are_failed_seeds (args : Args) (st : State) :
  execute gmpy2 fuel args = Done st ->
  report_errors (payload args st)
  = match task_type args with
    | main_odds | large_numbers | chernick => []
    | _ => map (fun seed => {| error_seed := seed; error_tag := "generation_failed" |})
             (filter (generation_fails args) (seed_domain args))
    end.
Proof.
  unfold execute, payload. cbn [report_errors]. intros E.
  destruct (task_type args);
    match type of E with
    | (if ?c then _ else _) = _ => destruct c; [discriminate |]
    end.
  - apply range_loop_errors in E. exact E.
  - apply range_loop_errors in E. exact E.
  - apply chernick_loop_counts in E. destruct E as (_ & _ & E). exact E.
  - apply seed_loop_errors in E. exact E.
  - apply seed_loop_errors in E. exact E.
  - apply seed_loop_errors in E. exact E.
Qed.

End ExecutorDomain.

Lemma range_mode_cap_witness :
  exists st,
    execute (G := Z) None 4
      {| task_type := main_odds; start := 2; end_ := 100;
         seed_start := 0; seed_end := 0; max_candidates := 3;
         target_digits := 22; prime_digits := 7; max_steps := 5000;
         require_prime_factors := false; mod5_residue := 2;
         m_primes := []; n_primes := []; lambda_factors := [];
         require_prime := false |} = Done st
    /\ tested st = [3; 5; 7] /\ checked st = 3.
Proof.
  set (args := {| task_type := main_odds; start := 2; end_ := 100;
         seed_start := 0; seed_end := 0; max_candidates := 3;
         target_digits := 22; prime_digits := 7; max_steps := 5000;
         require_prime_factors := false; mod5_residue := 2;
         m_primes := []; n_primes := []; lambda_factors := [];
         require_prime := false |}).
  assert (exists st, execute (G := Z) None 4 args = Done st) as (st & E)
    by (eexists; vm_compute; reflexivity).
  exists st. split; [exact E |].
  destruct (range_mode_cap None 4 args st (or_introl eq_refl) E)
    as (Ht & _ & Hcap & _).
  specialize (Hcap eq_refl).
  assert (checked st = 3) as Hc by (rewrite Hcap; vm_compute; reflexivity).
  split; [| exact Hc].
  rewrite Ht, Hc. vm_compute. reflexivity.
Defined.

Lemma range_mode_tests_odd_numbers_witness :
  exists st,
    execute (G := Z) None 4 (default_args main_odds 40 50) = Done st
    /\ In 45 (tested st) /\ 45 mod 2 = 1 /\ 40 <= 45 <= 50.
Proof.
  assert (exists st, execute (G := Z) None 4 (default_args main_odds 40 50) = Done st
                     /\ In 45 (tested st)) as (st & E & Hin)
    by (eexists; split; [vm_compute; reflexivity | cbn; tauto]).
  exists st. split; [exact E |]. split; [exact Hin |].
  exact (range_mode_tests_odd_numbers None 4 (default_args main_odds 40 50) st 45
           (or_introl eq_refl) E Hin).
Defined.

Lemma errors_are_failed_seeds_witness :
  exists st,
    execute (G := Z) None 4
      {| task_type := pomerance_lite; start := 1; end_ := 3;
         seed_start := 0; seed_end := 0; max_candidates := 0;
         target_digits := 22; prime_digits := 7; max_steps := 0;
         require_prime_factors := false; mod5_residue := 2;
         m_primes := []; n_primes := []; lambda_factors := [];
         require_prime := false |} = Done st
    /\ map error_seed
         (report_errors
            (payload
               {| task_type := pomerance_lite; start := 1; end_ := 3;
                  seed_start := 0; seed_end := 0; max_candidates := 0;
                  target_digits := 22; prime_digits := 7; max_steps := 0;
                  require_prime_factors := false; mod5_residue := 2;
                  m_primes := []; n_primes := []; lambda_factors := [];
                  require_prime := false |} st)) = [1; 2; 3].
Proof.
  set (args := {| task_type := pomerance_lite; start := 1; end_ := 3;
         seed_start := 0; seed_end := 0; max_candidates := 0;
         target_digits := 22; prime_digits := 7; max_steps := 0;
         require_prime_factors := false; mod5_residue := 2;
         m_primes := []; n_primes := []; lambda_factors := [];
         require_prime := false |}).
  assert (exists st, execute (G := Z) None 4 args = Done st) as (st & E)
    by (eexists; vm_compute; reflexivity).
  exists st. split; [exact E |].
  rewrite (errors_are_failed_seeds None 4 args st E).
  vm_compute. reflexivity.
Defined.

(** ** The decimal length *)

Lemma string_of_uint_length (d : Decimal.uint) :
  String.length (NilEmpty.string_of_uint d) = Decimal.nb_digits d.
Proof. induction d; cbn; congruence. Qed.

Lemma of_uint_acc_bounds (d : Decimal.uint) :
  forall acc : positive,
    10 ^ Z.of_nat (Decimal.nb_digits d) * Z.pos acc
    <= Z.pos (Pos.of_uint_acc d acc)
    < 10 ^ Z.of_nat (Decimal.nb_digits d) * (Z.pos acc + 1).
Proof.
  induction d; intros acc; cbn [Pos.of_uint_acc Decimal.nb_digits];
    try (cbn; lia);
    rewrite Nat2Z.inj_succ, Z.pow_succ_r by lia;
    match goal with
    | |- context [Pos.of_uint_acc d ?a] => pose proof (IHd a) as IH
    end;
    pose proof (Z.pow_pos_nonneg 10 (Z.of_nat (Decimal.nb_digits d))
                  ltac:(lia) ltac:(lia));
    nia.
Qed.

Lemma to_uint_leading_digit (p : positive) (d : Decimal.uint) :
  Pos.to_uint p <> Decimal.D0 d.
Proof.
  intros E.
  assert (Decimal.unorm (Pos.to_uint p) = Pos.to_uint p) as Hnorm.
  { rewrite <- (DecimalPos.Unsigned.to_of (Pos.to_uint p)).
    rewrite DecimalPos.Unsigned.of_to. reflexivity. }
  assert (Decimal.nzhead (Pos.to_uint p) <> Decimal.Nil) as Hhead.
  { intros Hnil. apply DecimalFacts.unorm_0 in Hnil. rewrite Hnorm in Hnil.
    exact (DecimalPos.Unsigned.to_uint_nonzero p Hnil). }
  rewrite (DecimalFacts.unorm_nzhead _ Hhead) in Hnorm.
  rewrite E in Hnorm. exact (DecimalFacts.nzhead_nonzero _ _ Hnorm).
Qed.

Lemma digits_pos (p : positive) :
  10 ^ (digits (Z.pos p) - 1) <= Z.pos p < 10 ^ digits (Z.pos p).
Proof.
  unfold digits, str. cbn [Z.abs Z.to_int NilZero.string_of_int].
  pose proof (DecimalPos.Unsigned.of_to p) as Hval.
  pose proof (to_uint_leading_digit p) as Hlead.
  pose proof (DecimalPos.Unsigned.to_uint_nonnil p) as Hnil.
  destruct (Pos.to_uint p) as [| d | d | d | d | d | d | d | d | d | d];
    [contradiction | exfalso; exact (Hlead d eq_refl) | ..];
    cbn [Pos.of_uint] in Hval; injection Hval as Hval;
    cbn [NilZero.string_of_uint NilEmpty.string_of_uint String.length];
    rewrite string_of_uint_length, Nat2Z.inj_succ;
    replace (Z.succ (Z.of_nat (Decimal.nb_digits d)) - 1)
      with (Z.of_nat (Decimal.nb_digits d)) by lia;
    rewrite Z.pow_succ_r by lia;
    match type of Hval with
    | Pos.of_uint_acc d ?k = p => pose proof (of_uint_acc_bounds d k) as Hb
    end;
    rewrite Hval in Hb;
    pose proof (Z.pow_pos_nonneg 10 (Z.of_nat (Decimal.nb_digits d))
                  ltac:(lia) ltac:(lia));
    nia.
Qed.

(** X24. [digits] is the length of the decimal numeral: a number other
    than zero has [d] digits exactly when its absolute value lies between
    [10^(d-1)] and [10^d - 1]; zero has one digit, and the sign does not
    count. *)
Theorem digits_spec (n : Z) :
  1 <= digits n
  /\ digits (- n) = digits n
  /\ (n = 0 -> digits n = 1)
  /\ (n <> 0 -> 10 ^ (digits n - 1) <= Z.abs n < 10 ^ digits n)
  /\ (forall d, n <> 0 -> 10 ^ (d - 1) <= Z.abs n < 10 ^ d -> digits n = d).
Proof.
  assert (forall p, digits (Z.neg p) = digits (Z.pos p)) as Hneg by reflexivity.
  assert (forall m, m <> 0 -> 10 ^ (digits m - 1) <= Z.abs m < 10 ^ digits m)
    as Hrange.
  { intros [| p | p] Hm; [contradiction | apply digits_pos |].
    rewrite Hneg. apply digits_pos. }
  assert (forall m, 1 <= digits m) as Hone.
  { intros m. destruct (Z.eq_dec m 0) as [-> | Hm]; [vm_compute; discriminate |].
    specialize (Hrange m Hm).
    destruct (Z_lt_le_dec (digits m) 1) as [Hlt | Hle]; [| exact Hle].
    exfalso. unfold digits in Hlt, Hrange.
    assert (Z.of_nat (String.length (str (Z.abs m))) = 0) as E0 by lia.
    rewrite E0 in Hrange. cbn in Hrange. lia. }
  split; [apply Hone |].
  split; [destruct n; reflexivity |].
  split; [intros ->; reflexivity |].
  split; [apply Hrange |].
  intros d Hn [Hlo Hhi]. specialize (Hrange n Hn). specialize (Hone n).
  destruct (Z_lt_le_dec d 1) as [Hd | Hd].
  - exfalso.
    assert (10 ^ d <= 1) as Hsmall.
    { destruct (Z_lt_le_dec d 0) as [Hd0 | Hd0].
      - rewrite Z.pow_neg_r by lia. lia.
      - replace d with 0 by lia. cbn. lia. }
    lia.
  - destruct (Z.lt_trichotomy (digits n) d) as [Hlt | [Heq | Hgt]];
      [exfalso | exact Heq | exfalso].
    + pose proof (Z.pow_le_mono_r 10 (digits n) (d - 1) ltac:(lia) ltac:(lia)).
      lia.
    + pose proof (Z.pow_le_mono_r 10 d (digits n - 1) ltac:(lia) ltac:(lia)).
      lia.
Qed.

Lemma digits_spec_witness :
  digits (-1591) = 4 /\ 10 ^ (4 - 1) <= Z.abs (-1591) < 10 ^ 4.
Proof.
  assert (-1591 <> 0) as Hn by discriminate.
  assert (10 ^ (4 - 1) <= Z.abs (-1591) < 10 ^ 4) as Hr by (cbn; lia).
  split; [| exact Hr].
  exact (proj2 (proj2 (proj2 (proj2 (digits_spec (-1591))))) 4 Hn Hr).
Defined.

(** ** Searches without a budget *)

Section NoBudget.

Context {G : Type} `{Rng G}.

Lemma loop_enters_on_no_factors (target : Z) :
  (digits (prod_or_one []) <? target) || (len (@nil Z) mod 2 =? 0) = true.
Proof. apply orb_true_r. Qed.

Lemma odd_draw_in_decade (rng : G) (digits_count : Z) :
  1 <= digits_count ->
  exists r, random_odd_in_range rng (10 ^ (digits_count - 1)) (10 ^ digits_count - 1)
            = Done r.
Proof.
  intros Hd. unfold random_odd_in_range.
  assert (10 ^ digits_count = 10 * 10 ^ (digits_count - 1)) as E.
  { rewrite <- Z.pow_succ_r by lia. f_equal. lia. }
  pose proof (Z.pow_pos_nonneg 10 (digits_count - 1) ltac:(lia) ltac:(lia)) as Hpos.
  rewrite E.
  set (low := 10 ^ (digits_count - 1)) in *.
  assert ((10 * low - 1) mod 2 = 1) as Hodd.
  { replace (10 * low - 1) with (1 + (5 * low - 1) * 2) by ring.
    now rewrite Z_mod_plus_full. }
  rewrite Hodd. cbn [Z.eqb].
  destruct (Z.gtb_spec (if low mod 2 =? 0 then low + 1 else low) (10 * low - 1))
    as [Hgt | Hle]; [| eexists; reflexivity].
  exfalso. destruct (low mod 2 =? 0); lia.
Qed.

Lemma generators_give_up_aux (seed target_digits prime_digits max_steps : Z) :
  max_steps <= 0 ->
  generate_pomerance_lite seed target_digits prime_digits max_steps = Done None
  /\ (forall lambda_factors require_prime,
        generate_lambda_plus_one seed target_digits lambda_factors require_prime
          max_steps = Done None)
  /\ (forall m_primes n_primes mod5_residue residue modulus,
        build_mod_constraint m_primes n_primes mod5_residue
        = Done (residue, modulus) ->
        1 <= prime_digits ->
        generate_pomerance_modular seed target_digits prime_digits max_steps
          m_primes n_primes mod5_residue = Done None).
Proof.
  intros Hsteps.
  assert (Z.to_nat max_steps = 0%nat) as Hk by lia.
  split; [| split].
  - unfold generate_pomerance_lite.
    change 10%nat with (S 9). cbn [pomerance_lite_loop].
    rewrite loop_enters_on_no_factors.
    unfold find_prime_with_filters. rewrite Hk. reflexivity.
  - intros lambda_factors require_prime. unfold generate_lambda_plus_one.
    change 10%nat with (S 9). cbn [lambda_loop].
    rewrite loop_enters_on_no_factors, Hk. reflexivity.
  - intros m_primes n_primes mod5_residue residue modulus Ebuild Hdigits.
    unfold generate_pomerance_modular. rewrite Ebuild. cbn [bind].
    change 10%nat with (S 9). cbn [pomerance_modular_loop].
    rewrite loop_enters_on_no_factors.
    unfold find_prime_in_progression. rewrite Hk.
    destruct (modulus <=? 0); [reflexivity |].
    destruct (odd_draw_in_decade (Random seed) prime_digits Hdigits)
      as ([start rng'] & ->).
    reflexivity.
Qed.

(** X25. Without a search budget ([max_steps <= 0]) no generator produces
    a candidate: the first search for a factor gives up at once, because
    the accumulation loop is always entered (no factors is an even number
    of factors).  For [generate_pomerance_modular] this holds once the
    congruences could be combined and [prime_digits] is positive. *)
Theorem generators_give_up_without_budget
  (seed target_digits prime_digits max_steps : Z) :
  max_steps <= 0 ->
  generate_pomerance_lite seed target_digits prime_digits max_steps = Done None
  /\ (forall lambda_factors require_prime,
        generate_lambda_plus_one seed target_digits lambda_factors require_prime
          max_steps = Done None)
  /\ (forall m_primes n_primes mod5_residue residue modulus,
        build_mod_constraint m_primes n_primes mod5_residue
        = Done (residue, modulus) ->
        1 <= prime_digits ->
        generate_pomerance_modular seed target_digits prime_digits max_steps
          m_primes n_primes mod5_residue = Done None).
Proof.
  intros Hsteps.
  assert (Z.to_nat max_steps = 0%nat) as Hk by lia.
  split; [| split].
  - unfold generate_pomerance_lite.
    change 10%nat with (S 9). cbn [pomerance_lite_loop].
    rewrite loop_enters_on_no_factors.
    unfold find_prime_with_filters. rewrite Hk. reflexivity.
  - intros lambda_factors require_prime. unfold generate_lambda_plus_one.
    change 10%nat with (S 9). cbn [lambda_loop].
    rewrite loop_enters_on_no_factors, Hk. reflexivity.
  - intros m_primes n_primes mod5_residue residue modulus Ebuild Hdigits.
    unfold generate_pomerance_modular. rewrite Ebuild. cbn [bind].
    change 10%nat with (S 9). cbn [pomerance_modular_loop].
    rewrite loop_enters_on_no_factors.
    unfold find_prime_in_progression. rewrite Hk.
    destruct (modulus <=? 0); [reflexivity |].
    destruct (odd_draw_in_decade (Random seed) prime_digits Hdigits)
      as ([start rng'] & ->).
    reflexivity.
Qed.

End NoBudget.

Lemma generators_give_up_without_budget_witness :
  generate_pomerance_lite (G := Z) 1 22 7 0 = Done None
  /\ generate_lambda_plus_one (G := Z) 1 22 [(2, 3); (3, 2)] true 0 = Done None
  /\ generate_pomerance_modular (G := Z) 1 22 7 0 [13] [3] 2 = Done None.
Proof.
  assert (0 <= 0) as H0 by lia.
  destruct (generators_give_up_without_budget (G := Z) 1 22 7 0 H0)
    as (Hlite & Hlambda & Hmod).
  split; [exact Hlite |]. split; [apply Hlambda |].
  assert (exists r m, build_mod_constraint [13] [3] 2 = Done (r, m)) as (r & m & E)
    by (do 2 eexists; vm_compute; reflexivity).
  apply (Hmod [13] [3] 2 r m E). lia.
Defined.

Section ExecutorNoBudget.

Context {G : Type} `{Rng G}.
Variable gmpy2 : option (Z -> option bool).
Variable fuel : nat.

Lemma seed_loop_all_fail (args : Args) (m_primes n_primes : list Z)
  (lambda_factors : list (Z * Z)) (seeds : list Z) :
  (forall seed, generate args m_primes n_primes lambda_factors seed = Done None) ->
  forall st,
    seed_loop gmpy2 fuel args m_primes n_primes lambda_factors seeds st
    = Done {| hits := hits st;
              errors := errors st
                        ++ map (fun seed => {| error_seed := seed;
                                               error_tag := "generation_failed" |})
                             seeds;
              checked := checked st + len seeds;
              tested := tested st |}.
Proof.
  intros Hfail. induction seeds as [| seed rest IH]; intros st; cbn [seed_loop].
  - destruct st as [h e c t]. cbn. rewrite app_nil_r, Z.add_0_r. reflexivity.
  - rewrite Hfail. cbn [bind]. rewrite IH.
    cbn [add_error count hits errors checked tested map].
    rewrite <- app_assoc. cbn [app].
    assert (len (seed :: rest) = len rest + 1) as -> by (unfold len; cbn; lia).
    rewrite (Z.add_comm (len rest) 1), Z.add_assoc. reflexivity.
Qed.

(** X26. A [pomerance_lite] or [lambda_plus_one] job without a search
    budget ([max_steps <= 0]) never calls the primality test: it either
    stops on the missing seed range or reports every seed of the range as
    [generation_failed], with no hit and [checked] equal to the number of
    seeds. *)
Theorem seed_mode_without_budget (args : Args) :
  task_type args = pomerance_lite \/ task_type args = lambda_plus_one ->
  max_steps args <= 0 ->
  execute gmpy2 fuel args
  = if ((if seed_start args =? 0 then start args else seed_start args) =? 0)
       && ((if seed_end args =? 0 then end_ args else seed_end args) =? 0)
    then Raised (SystemExit "seed range required for generator tasks")
    else Done {| hits := [];
                 errors := map (fun seed => {| error_seed := seed;
                                               error_tag := "generation_failed" |})
                             (seed_domain args);
                 checked := len (seed_domain args);
                 tested := [] |}.
Proof.
  intros Hmode Hsteps.
  assert (forall m_primes n_primes lambda_factors seed,
             generate args m_primes n_primes lambda_factors seed = Done None)
    as Hfail.
  { intros m_primes n_primes lambda_factors seed. unfold generate.
    destruct (generators_give_up_aux seed (target_digits args) (prime_digits args)
                (max_steps args) Hsteps) as (Hlite & Hlambda & _).
    destruct Hmode as [-> | ->]; [exact Hlite | apply Hlambda]. }
  unfold execute.
  destruct Hmode as [-> | ->]; cbv zeta;
    (destruct (_ && _); [reflexivity |]);
    rewrite seed_loop_all_fail by apply Hfail; reflexivity.
Qed.

End ExecutorNoBudget.

Lemma seed_mode_without_budget_witness :
  execute (G := Z) None 0
    {| task_type := lambda_plus_one; start := 0; end_ := 0;
       seed_start := 7; seed_end := 8; max_candidates := 0;
       target_digits := 22; prime_digits := 7; max_steps := 0;
       require_prime_factors := false; mod5_residue := 2;
       m_primes := []; n_primes := []; lambda_factors := [];
       require_prime := false |}
  = Done {| hits := [];
            errors := [{| error_seed := 7; error_tag := "generation_failed" |};
                       {| error_seed := 8; error_tag := "generation_failed" |}];
            checked := 2;
            tested := [] |}.
Proof.
  match goal with
  | |- execute _ _ ?args = _ =>
      rewrite (seed_mode_without_budget (G := Z) None 0 args (or_intror eq_refl));
        [reflexivity | cbn; lia]
  end.
Defined.
